(** * projectMobileX: the Milan telecom graph pipeline

    A shallow embedding of the Python sources

    - [MilanCensusMapping/milan_grid_census_codes_map.py] (overlap mapper),
    - [Milan-to-Milan/mi_to_mi.py] and [mi_to_mi_blocks.py]
      (cell graph aggregation, block-to-block redistribution, census
      attributes),
    - [Milan-to-Countries/mi_to_countries.py] and
      [mi_to_countries_blocks.py] (record validation, cell-to-country graphs,
      block-to-country redistribution),

    together with the properties the specification states about them and
    further properties of the same code.

    Conventions of the embedding.
    - Python [float] values are exact rationals ([Q]); rounding is not
      modelled, and statements about weights use [==] on [Q].  The overlap
      mapper alone tests its quotients against float literals: its division
      and its two literals are a parameter ([FloatArith]), exact unless a
      statement says otherwise.
    - Python [int] values are [Z].  A JSON object key or a regex capture that
      is the decimal rendering of an integer (cell ids, SEZ2011 codes) is the
      integer it denotes; [int(...)] and [str(...)] between the two forms are
      then the identity on it.
    - A [dict] is an association list in insertion order with unique keys.
    - A raised exception is a [Raise] result; the file I/O around each
      function is left out and the loaded structures are arguments. *)

From Stdlib Require Import List ZArith QArith Qabs Bool String Ascii Lia Lqa.
From Stdlib Require Import DecimalString DecimalZ.
Import ListNotations.

Local Open Scope Z_scope.

(** ** Python values, exceptions, dictionaries *)

Inductive exn : Type :=
| KeyError
| ValueError
| TypeError
| ZeroDivisionError.

Inductive result (A : Type) : Type :=
| Ok (a : A)
| Raise (e : exn).

Arguments Ok {A} a.
Arguments Raise {A} e.

Definition bind {A B : Type} (m : result A) (k : A -> result B) : result B :=
  match m with
  | Ok a => k a
  | Raise e => Raise e
  end.

Declare Scope py_scope.
Delimit Scope py_scope with py.
Notation "x <- m ;; k" := (bind m (fun x => k))
  (at level 61, m at next level, right associativity) : py_scope.
Local Open Scope py_scope.

(** The values that flow through tokens and node attributes. *)
Inductive PyVal : Type :=
| PNone
| PBool (b : bool)
| PInt (z : Z)
| PFloat (q : Q)
| PStr (s : string).

(** The number a value denotes in a numeric comparison ([bool] is a
    subclass of [int]); [None] for the non-numeric values. *)
Definition py_num (v : PyVal) : option Q :=
  match v with
  | PBool b => Some (if b then 1%Q else 0%Q)
  | PInt z => Some (inject_Z z)
  | PFloat q => Some q
  | PNone | PStr _ => None
  end.

(** Python [==]. *)
Definition py_eq (a b : PyVal) : bool :=
  match py_num a, py_num b with
  | Some x, Some y => Qeq_bool x y
  | _, _ =>
      match a, b with
      | PNone, PNone => true
      | PStr s, PStr t => String.eqb s t
      | _, _ => false
      end
  end.

(** Python truthiness, as used by [if tokens[3]:] and [if attrs:]. *)
Definition py_truthy (v : PyVal) : bool :=
  match v with
  | PNone => false
  | PBool b => b
  | PInt z => negb (z =? 0)
  | PFloat q => negb (Qeq_bool q 0)
  | PStr s => negb (String.eqb s "")
  end.

(** [x is None] *)
Definition is_None (v : PyVal) : bool :=
  match v with PNone => true | _ => false end.

(** Keys of dictionaries and nodes of graphs. *)
Class Hashable (K : Type) : Type := {
  key_eqb : K -> K -> bool;
  key_eqb_spec : forall x y : K, reflect (x = y) (key_eqb x y)
}.

#[export] Instance Z_Hashable : Hashable Z :=
  {| key_eqb := Z.eqb; key_eqb_spec := Z.eqb_spec |}.

#[export] Instance string_Hashable : Hashable string :=
  {| key_eqb := String.eqb; key_eqb_spec := String.eqb_spec |}.

Definition dict (K V : Type) : Type := list (K * V).

(** [d.get(k)]; [d[k]] raises [KeyError] on [None]. *)
Fixpoint dict_get {K V : Type} `{Hashable K} (d : dict K V) (k : K) : option V :=
  match d with
  | [] => None
  | (k', v) :: d' => if key_eqb k k' then Some v else dict_get d' k
  end.

Definition dict_index {K V : Type} `{Hashable K} (d : dict K V) (k : K) : result V :=
  match dict_get d k with
  | Some v => Ok v
  | None => Raise KeyError
  end.

(** [d[k] = v]: an existing key keeps its position. *)
Fixpoint dict_set {K V : Type} `{Hashable K} (d : dict K V) (k : K) (v : V) : dict K V :=
  match d with
  | [] => [(k, v)]
  | (k', v') :: d' =>
      if key_eqb k k' then (k', v) :: d' else (k', v') :: dict_set d' k v
  end.

Definition dict_keys {K V : Type} (d : dict K V) : list K := map fst d.

Definition dict_has {K V : Type} `{Hashable K} (d : dict K V) (k : K) : bool :=
  match dict_get d k with Some _ => true | None => false end.

(** A loop whose body may raise. *)
Fixpoint for_each {A S : Type} (xs : list A) (body : S -> A -> result S) (s : S)
  : result S :=
  match xs with
  | [] => Ok s
  | x :: xs' => s' <- body s x ;; for_each xs' body s'
  end.

Fixpoint filter_map {A B : Type} (f : A -> option B) (l : list A) : list B :=
  match l with
  | [] => []
  | x :: l' =>
      match f x with
      | Some y => y :: filter_map f l'
      | None => filter_map f l'
      end
  end.

(** ** networkx.Graph

    An undirected graph: the node dictionary (node to attribute dictionary,
    in insertion order) and the edges, one entry per unordered pair, each
    with its [weight] attribute. *)

Definition Attrs : Type := dict string PyVal.

Record Graph (N : Type) : Type := mkGraph {
  g_nodes : dict N Attrs;
  g_edges : list (N * N * Q)
}.

Arguments mkGraph {N} g_nodes g_edges.
Arguments g_nodes {N} _.
Arguments g_edges {N} _.

Section GraphOps.
Context {N : Type} `{Hashable N}.

(** [networkx.Graph()] *)
Definition empty_graph : Graph N := mkGraph [] [].

Definition has_node (g : Graph N) (n : N) : bool := dict_has (g_nodes g) n.

(** [G.add_node(n)] without attributes: a present node is left as it is. *)
Definition add_node (g : Graph N) (n : N) : Graph N :=
  if has_node g n then g
  else mkGraph (g_nodes g ++ [(n, [])]) (g_edges g).

(** Does the stored edge [e] join [u] and [v], in either orientation? *)
Definition joins (u v : N) (e : N * N * Q) : bool :=
  let '(a, b, _) := e in
  (key_eqb u a && key_eqb v b) || (key_eqb u b && key_eqb v a).

(** [G.edges[u, v]['weight']]; [None] stands for the [KeyError]. *)
Definition edge_weight (g : Graph N) (u v : N) : option Q :=
  match find (joins u v) (g_edges g) with
  | Some (_, _, w) => Some w
  | None => None
  end.

Fixpoint set_weight (es : list (N * N * Q)) (u v : N) (w : Q) : list (N * N * Q) :=
  match es with
  | [] => [(u, v, w)]
  | e :: es' =>
      if joins u v e then (fst (fst e), snd (fst e), w) :: es'
      else e :: set_weight es' u v w
  end.

(** [G.add_edge(u, v, weight=w)]: missing endpoints become nodes, and the
    edge's weight is set (replacing the weight of an existing edge). *)
Definition add_edge (g : Graph N) (u v : N) (w : Q) : Graph N :=
  let g1 := add_node (add_node g u) v in
  mkGraph (g_nodes g1) (set_weight (g_edges g1) u v w).

(** The accumulation idiom of the sources:
<<
    try:
        G.edges[u, v]['weight'] += w
    except KeyError:
        G.add_edge(u, v, weight=w)
>> *)
Definition add_weight (g : Graph N) (u v : N) (w : Q) : Graph N :=
  match edge_weight g u v with
  | Some old => mkGraph (g_nodes g) (set_weight (g_edges g) u v (old + w))
  | None => add_edge g u v w
  end.

(** [G.edges([n], data=True)]: the edges incident to [n], each reported
    from [n]'s side as (n, neighbour, weight); a self-loop is reported
    once, and a node that is not in the graph has none. *)
Definition incident (n : N) (e : N * N * Q) : option (N * N * Q) :=
  let '(a, b, w) := e in
  if key_eqb n a then Some (n, b, w)
  else if key_eqb n b then Some (n, a, w)
  else None.

Definition edges_of (g : Graph N) (n : N) : list (N * N * Q) :=
  if has_node g n then filter_map (incident n) (g_edges g) else [].

(** [G.nodes[n][key] = v] for a node of the graph. *)
Definition set_attr (g : Graph N) (n : N) (key : string) (v : PyVal) : Graph N :=
  match dict_get (g_nodes g) n with
  | Some attrs => mkGraph (dict_set (g_nodes g) n (dict_set attrs key v)) (g_edges g)
  | None => g
  end.

Definition node_attrs (g : Graph N) (n : N) : Attrs :=
  match dict_get (g_nodes g) n with
  | Some attrs => attrs
  | None => []
  end.

(** [for key, attr in record.items(): G.nodes[n][key] = attr] *)
Definition set_attrs (g : Graph N) (n : N) (record : Attrs) : Graph N :=
  fold_left (fun g' kv => set_attr g' n (fst kv) (snd kv)) record g.
End GraphOps.

Arguments joins : simpl never.

(** ** The partition overlap mapper
    ([create_sezioni_censimento_millan_grid_map])

    shapely supplies the geometry; the mapper uses a polygon's [area], the
    [overlaps] predicate and the area of an [intersection].  [within] is
    shapely's containment predicate: the mapper never calls it, the
    properties of the mapper are stated with it. *)

Class Geometry (P : Type) : Type := {
  area : P -> Q;
  overlaps : P -> P -> bool;
  intersection_area : P -> P -> Q;
  within : P -> P -> bool
}.

(** The census codes scraped out of a feature's description; SEZ2011 is the
    one the later stages read. *)
Record CensusCodes : Type := mkCodes {
  SEZ2011 : Z
}.

Record CensusPolygon (P : Type) : Type := mkCensusPolygon {
  cp_polygon : P;
  cp_codes : CensusCodes
}.

Arguments mkCensusPolygon {P} cp_polygon cp_codes.
Arguments cp_polygon {P} _.
Arguments cp_codes {P} _.

Record MilanPolygon (P : Type) : Type := mkMilanPolygon {
  cellId : Z;
  mp_polygon : P
}.

Arguments mkMilanPolygon {P} cellId mp_polygon.
Arguments cellId {P} _.
Arguments mp_polygon {P} _.

(** One overlap entry of a cell.  [censusCodes] is the census polygon's own
    dictionary while the mapper runs ([C] is [CensusPolygon P]) and the codes
    alone once the polygons are deleted for the JSON dump
    ([C] is [CensusCodes]). *)
Record MilanSection (C : Type) : Type := mkSection {
  censusAreaPercentage : Q;
  milanAreaPercentage : Q;
  censusCodes : C
}.

Arguments mkSection {C} censusAreaPercentage milanAreaPercentage censusCodes.
Arguments censusAreaPercentage {C} _.
Arguments milanAreaPercentage {C} _.
Arguments censusCodes {C} _.

Definition Qltb (x y : Q) : bool := negb (Qle_bool y x).

(** The float arithmetic the mapper's rounding test depends on: the
    division of two areas, and the two literals [1e-4] and [0.9999]. *)
Class FloatArith : Type := {
  fdiv : Q -> Q -> Q;
  float_1e_4 : Q;
  float_0_9999 : Q
}.

(** The convention of this development: the quotient and the literals
    taken exactly.  It is the instance of every statement that names no
    other. *)
#[export] Instance exact_arith : FloatArith :=
  {| fdiv := Qdiv; float_1e_4 := 1 # 10000; float_0_9999 := 9999 # 10000 |}.

(** binary64, as Python has it: the literals are the doubles nearest to
    1/10000 and to 9999/10000 (both slightly above them), and [division] is
    the division of two doubles, whatever its rounding. *)
Definition double_1e_4 : Q := 7378697629483821 # 73786976294838206464.

Definition double_0_9999 : Q := 4503149267407759 # 4503599627370496.

Definition binary64 (division : Q -> Q -> Q) : FloatArith :=
  {| fdiv := division; float_1e_4 := double_1e_4; float_0_9999 := double_0_9999 |}.

(** "Round what is effectively float error": the [if]/[elif] applied to
    each percentage. *)
Definition snap {F : FloatArith} (p : Q) : Q :=
  if Qltb p float_1e_4 then 0%Q
  else if Qltb float_0_9999 p then 1%Q
  else p.

Section OverlapMapper.
Context {F : FloatArith} {P : Type} `{Geometry P}.

(** The body of the [if ...overlaps(...)] branch. *)
Definition make_section (m : MilanPolygon P) (c : CensusPolygon P)
  : MilanSection (CensusPolygon P) :=
  let milanArea := area (mp_polygon m) in
  let censusArea := area (cp_polygon c) in
  let intersectArea := intersection_area (mp_polygon m) (cp_polygon c) in
  let milanAreaPercentage := fdiv intersectArea milanArea in
  let censusAreaPercentage := fdiv intersectArea censusArea in
  mkSection (snap censusAreaPercentage) (snap milanAreaPercentage) c.

(** The inner loop: the list stored under one cell. *)
Definition cell_sections (m : MilanPolygon P) (cs : list (CensusPolygon P))
  : list (MilanSection (CensusPolygon P)) :=
  fold_left
    (fun acc c =>
       if overlaps (mp_polygon m) (cp_polygon c)
       then acc ++ [make_section m c]
       else acc)
    cs [].

(** The outer loop: [grid[cellId] = []] and the appends. *)
Definition overlap_grid (ms : list (MilanPolygon P)) (cs : list (CensusPolygon P))
  : dict Z (list (MilanSection (CensusPolygon P))) :=
  fold_left (fun grid m => dict_set grid (cellId m) (cell_sections m cs)) ms [].

(** [del censusPolygon['censusCodes']['polygon']] on every entry. *)
Definition strip_polygon (s : MilanSection (CensusPolygon P))
  : MilanSection CensusCodes :=
  mkSection (censusAreaPercentage s) (milanAreaPercentage s)
            (cp_codes (censusCodes s)).

Definition create_sezioni_censimento_millan_grid_map
           (ms : list (MilanPolygon P)) (cs : list (CensusPolygon P))
  : dict Z (list (MilanSection CensusCodes)) :=
  map (fun kv => (fst kv, map strip_polygon (snd kv))) (overlap_grid ms cs).
End OverlapMapper.

(** A synthetic geometry for concrete runs: axis-parallel rectangles. *)
Record Rect : Type := mkRect {
  xmin : Q; ymin : Q; xmax : Q; ymax : Q
}.

Definition Qmax (a b : Q) : Q := if Qle_bool a b then b else a.
Definition Qmin (a b : Q) : Q := if Qle_bool a b then a else b.

Definition rect_area (r : Rect) : Q := ((xmax r - xmin r) * (ymax r - ymin r))%Q.

Definition rect_intersection_area (a b : Rect) : Q :=
  (Qmax 0 (Qmin (xmax a) (xmax b) - Qmax (xmin a) (xmin b))
   * Qmax 0 (Qmin (ymax a) (ymax b) - Qmax (ymin a) (ymin b)))%Q.

Definition rect_within (a b : Rect) : bool :=
  Qle_bool (xmin b) (xmin a) && Qle_bool (xmax a) (xmax b)
  && Qle_bool (ymin b) (ymin a) && Qle_bool (ymax a) (ymax b).

(** Interiors meet, and neither rectangle contains the other. *)
Definition rect_overlaps (a b : Rect) : bool :=
  Qltb 0 (rect_intersection_area a b)
  && negb (rect_within a b) && negb (rect_within b a).

#[export] Instance Rect_Geometry : Geometry Rect :=
  {| area := rect_area;
     overlaps := rect_overlaps;
     intersection_area := rect_intersection_area;
     within := rect_within |}.

(** ** Nodes of the graphs

    Cell graphs of Milan-to-Milan have integer nodes, cell-to-country graphs
    have string nodes (['m' + cell id], ['c' + calling code]) and
    block-to-country graphs mix integers (SEZ2011) and strings. *)

(** [str(z)] for an [int]. *)
Definition Zstr (z : Z) : string := NilEmpty.string_of_int (Z.to_int z).

Inductive Node : Type :=
| NInt (z : Z)
| NStr (s : string).

Definition Node_eqb (a b : Node) : bool :=
  match a, b with
  | NInt x, NInt y => Z.eqb x y
  | NStr s, NStr t => String.eqb s t
  | _, _ => false
  end.

#[export, refine] Instance Node_Hashable : Hashable Node :=
  {| key_eqb := Node_eqb |}.
Proof.
  intros [x | s] [y | u]; simpl; try (constructor; discriminate).
  - destruct (Z.eqb_spec x y); constructor; congruence.
  - destruct (String.eqb_spec s u); constructor; congruence.
Defined.

(** [str(node)] and the node as an attribute value. *)
Class PyNode (N : Type) : Type := {
  node_str : N -> string;
  node_val : N -> PyVal
}.

#[export] Instance Z_PyNode : PyNode Z :=
  {| node_str := Zstr; node_val := PInt |}.

#[export] Instance string_PyNode : PyNode string :=
  {| node_str := fun s => s; node_val := PStr |}.

#[export] Instance Node_PyNode : PyNode Node :=
  {| node_str := fun n => match n with NInt z => Zstr z | NStr s => s end;
     node_val := fun n => match n with NInt z => PInt z | NStr s => PStr s end |}.

(** [s.startswith(c)] for a one-character prefix, and [s[1:]]. *)
Definition startswith (s : string) (c : ascii) : bool :=
  match s with
  | String a _ => Ascii.eqb a c
  | EmptyString => false
  end.

Definition drop_first (s : string) : string :=
  match s with
  | String _ t => t
  | EmptyString => EmptyString
  end.

(** ** Milan-to-Milan: [mi_to_mi.py] *)

Definition set_add (s : list Z) (z : Z) : list Z :=
  if existsb (Z.eqb z) s then s else s ++ [z].

Definition set_mem (s : list Z) (z : Z) : bool := existsb (Z.eqb z) s.

(** "Those cellIDs that are coverd (at least partially) by a census block":
    the loop that fills [milanNodes]. *)
Definition milanNodes {E : Type} (grid : dict Z (list E)) : list Z :=
  fold_left
    (fun nodes item =>
       if (1 <? Z.of_nat (List.length (snd item))) then set_add nodes (fst item)
       else nodes)
    grid [].

(** The two nested loops over one loaded extract. *)
Definition aggregate_extract (nodes : list Z) (graph : Graph Z)
           (dictionary : dict Z (dict Z Q)) : Graph Z :=
  fold_left
    (fun g item =>
       let node1 := fst item in
       if negb (set_mem nodes node1) then g
       else
         fold_left
           (fun g' entry =>
              let node2 := fst entry in
              if negb (set_mem nodes node2) then g'
              else add_weight g' node1 node2 (snd entry))
           (snd item) g)
    dictionary graph.

Definition aggregate_dates {E : Type} (grid : dict Z (list E))
           (extracts : list (dict Z (dict Z Q))) : Graph Z :=
  let nodes := milanNodes grid in
  let graph := fold_left add_node nodes empty_graph in
  fold_left (aggregate_extract nodes) extracts graph.

(** ** Milan-to-Milan: [mi_to_mi_blocks.py] *)

(** An entry of the block-to-cell map: the cell-to-block entry copied under
    the key of its block, with the cell's id added as ['cellID']. *)
Record BlockCell : Type := mkBlockCell {
  cellID : Z;
  copied : MilanSection CensusCodes
}.

Definition dict_append {K V : Type} `{Hashable K} (d : dict K (list V)) (k : K) (v : V)
  : dict K (list V) :=
  match dict_get d k with
  | Some l => dict_set d k (l ++ [v])
  | None => dict_set d k [v]
  end.

Definition milan_grid_census_blocks_map_reverse
           (cellMap : dict Z (list (MilanSection CensusCodes)))
  : dict Z (list BlockCell) :=
  fold_left
    (fun blockMap item =>
       fold_left
         (fun bm block =>
            dict_append bm (SEZ2011 (censusCodes block)) (mkBlockCell (fst item) block))
         (snd item) blockMap)
    cellMap [].

Section BlockToBlock.
Variable cellsGraph : Graph Z.
Variable cellsMap : dict Z (list (MilanSection CensusCodes)).

(** The body of [for blockTo in cellsMap[str(cellNodeTo)]]. *)
Definition visit_blockTo (SEZ : Z) (cellFrom : BlockCell) (edgeWeight : Q)
           (blocksGraph : Graph Z) (blockTo : MilanSection CensusCodes) : Graph Z :=
  let destSEZ2011 := SEZ2011 (censusCodes blockTo) in
  let blocksGraph := add_node blocksGraph destSEZ2011 in
  let weight :=
    (edgeWeight
     * censusAreaPercentage (copied cellFrom)
     * censusAreaPercentage blockTo)%Q in
  add_weight blocksGraph SEZ destSEZ2011 weight.

(** The body of the loop over [cellsGraph.edges([cellID], data=True)]. *)
Definition visit_edge (SEZ : Z) (cellFrom : BlockCell)
           (blocksGraph : Graph Z) (edge : Z * Z * Q) : result (Graph Z) :=
  let '(_, cellNodeTo, edgeWeight) := edge in
  blocksTo <- dict_index cellsMap cellNodeTo ;;
  Ok (fold_left (visit_blockTo SEZ cellFrom edgeWeight) blocksTo blocksGraph).

Definition visit_cellFrom (SEZ : Z) (blocksGraph : Graph Z) (cellFrom : BlockCell)
  : result (Graph Z) :=
  for_each (edges_of cellsGraph (cellID cellFrom)) (visit_edge SEZ cellFrom) blocksGraph.

Definition visit_block (blocksGraph : Graph Z) (item : Z * list BlockCell)
  : result (Graph Z) :=
  let SEZ := fst item in
  for_each (snd item) (visit_cellFrom SEZ) (add_node blocksGraph SEZ).

(** The graph before the normalisation. *)
Definition accumulate_blocks (blocksMap : dict Z (list BlockCell)) : result (Graph Z) :=
  for_each blocksMap visit_block empty_graph.
End BlockToBlock.

(** "Normalize for double counting earlier" *)
Definition halve_weights {N : Type} (g : Graph N) : Graph N :=
  mkGraph (g_nodes g) (map (fun e => (fst (fst e), snd (fst e), (snd e / 2)%Q)) (g_edges g)).

Definition create_census_blocks_graph
           (blocksMap : dict Z (list BlockCell)) (cellsGraph : Graph Z)
           (cellsMap : dict Z (list (MilanSection CensusCodes))) : result (Graph Z) :=
  g <- accumulate_blocks cellsGraph cellsMap blocksMap ;;
  Ok (halve_weights g).

(** [add_census_attributes]: the graph with the records attached, and the
    set of missing blocks. *)
Definition str_set_add (s : list string) (x : string) : list string :=
  if existsb (String.eqb x) s then s else s ++ [x].

Definition add_census_attributes (blocksGraph : Graph Z) (blocksAttr : dict string Attrs)
  : Graph Z * list string :=
  fold_left
    (fun st node =>
       let '(g, missingBlocks) := st in
       match dict_get blocksAttr (node_str node) with
       | Some record => (set_attrs g node record, missingBlocks)
       | None => (g, str_set_add missingBlocks (node_str node))
       end)
    (dict_keys (g_nodes blocksGraph)) (blocksGraph, []).

Definition attrs_nonempty (attrs : Attrs) : bool :=
  match attrs with [] => false | _ => true end.

(** The first loop of [census_block_graph_fill_in_holes]. *)
Definition first_keys {N : Type} (nodes : dict N Attrs) : list string :=
  match find (fun item => attrs_nonempty (snd item)) nodes with
  | Some (_, attrs) => dict_keys attrs
  | None => []
  end.

(** The body of its second loop, on one node's attribute dictionary. *)
Definition fill_node {N : Type} `{PyNode N} (keys : list string) (node : N) (attrs : Attrs)
  : result Attrs :=
  let attrs :=
    if attrs_nonempty attrs then attrs
    else fold_left (fun a key => dict_set a key PNone) keys attrs in
  sez <- dict_index attrs "SEZ2011"%string ;;
  Ok (if is_None sez then dict_set attrs "SEZ2011"%string (node_val node) else attrs).

Fixpoint fill_nodes {N : Type} `{PyNode N} (keys : list string) (nodes : dict N Attrs)
  : result (dict N Attrs) :=
  match nodes with
  | [] => Ok []
  | (node, attrs) :: rest =>
      attrs' <- fill_node keys node attrs ;;
      rest' <- fill_nodes keys rest ;;
      Ok ((node, attrs') :: rest')
  end.

(** Its third loop, "Didn't know the standard length, so just trust the
    first entry": the body, on the [length] seen so far. *)
Definition length_step (length : Z) (item : Z * Attrs) : result Z :=
  let len := Z.of_nat (List.length (snd item)) in
  if length <? 0 then Ok len
  else if negb (length =? len) then Raise ValueError
  else Ok length.

Definition check_lengths (nodes : dict Z Attrs) : result Z :=
  for_each nodes length_step (-1).

Definition census_block_graph_fill_in_holes (blocksGraph : Graph Z) : result (Graph Z) :=
  let keys := first_keys (g_nodes blocksGraph) in
  nodes <- fill_nodes keys (g_nodes blocksGraph) ;;
  _ <- check_lengths nodes ;;
  Ok (mkGraph nodes (g_edges blocksGraph)).

(** ** Milan-to-Countries: [mi_to_countries.py] *)

Section Validate.
(** [int(s)] and [float(s)] on a string: [None] is the [ValueError]. *)
Variable py_int : string -> option Z.
Variable py_float : string -> option Q.

Definition is_int (s : string) : PyVal :=
  if String.eqb s "" then PStr s
  else match py_int s with
       | Some z => PInt z
       | None => PBool false
       end.

Definition is_float (s : string) : PyVal :=
  if String.eqb s "" then PStr s
  else match py_float s with
       | Some q => PFloat q
       | None => PBool false
       end.

(** [tokens[i] != 0 and tokens[i] == False] *)
Definition flagged (v : PyVal) : bool :=
  negb (py_eq v (PInt 0)) && py_eq v (PBool false).

(** The body of [for i, token in enumerate(tokens)]: the value left in
    [tokens[i]]. *)
Definition validate_token (i : nat) (token : string) : result PyVal :=
  if Nat.eqb i 1 then Ok (PStr token)
  else if Nat.ltb i 3 then
    let v := is_int token in
    if flagged v then Raise ValueError else Ok v
  else
    let v := is_float token in
    if flagged v then Raise ValueError else Ok v.

Fixpoint validate_from (i : nat) (tokens : list string) : result (list PyVal) :=
  match tokens with
  | [] => Ok []
  | token :: rest =>
      v <- validate_token i token ;;
      vs <- validate_from (S i) rest ;;
      Ok (v :: vs)
  end.

Definition validate (tokens : list string) : result (list PyVal) :=
  if negb (Nat.eqb (List.length tokens) 8) then Raise ValueError
  else validate_from 0 tokens.
End Validate.

(** Decimal literals, for concrete runs of [validate]: an optional [-] and
    digits for [int], and the same with an optional fractional part for
    [float]. *)
Definition int_of_decimal (s : string) : option Z :=
  option_map Z.of_int (NilZero.int_of_string s).

Fixpoint split_at_dot (s : string) : string * option string :=
  match s with
  | EmptyString => (EmptyString, None)
  | String c t =>
      if Ascii.eqb c "." then (EmptyString, Some t)
      else let '(a, b) := split_at_dot t in (String c a, b)
  end.

Definition float_of_decimal (s : string) : option Q :=
  match split_at_dot s with
  | (whole, None) => option_map inject_Z (int_of_decimal whole)
  | (whole, Some frac) =>
      match int_of_decimal whole, NilZero.uint_of_string frac with
      | Some w, Some f =>
          let scale := Z.pow 10 (Z.of_nat (String.length frac)) in
          let fq := Qmake (Z.of_uint f) (Z.to_pos scale) in
          Some (if startswith whole "-" then inject_Z w - fq else inject_Z w + fq)%Q
      | _, _ => None
      end
  end.

(** The record kept by [collect_json] for one (cell, country) connection. *)
Record ConnectDict : Type := mkConnect {
  smsIn : Q; smsInCount : Z;
  smsOut : Q; smsOutCount : Z;
  callIn : Q; callInCount : Z;
  callOut : Q; callOutCount : Z;
  cdr : Q
}.

Definition new_connect : ConnectDict := mkConnect 0 0 0 0 0 0 0 0 0.

(** [acc += v] on a number. *)
Definition py_iadd (acc : Q) (v : PyVal) : result Q :=
  match py_num v with
  | Some q => Ok (acc + q)%Q
  | None => Raise TypeError
  end.

(** One [if tokens[k]: local[sum] += tokens[k]; local[count] += 1]. *)
Definition tally (v : PyVal) (sum : Q) (count : Z) : result (Q * Z) :=
  if py_truthy v then s <- py_iadd sum v ;; Ok (s, count + 1)
  else Ok (sum, count).

(** The updates [collect_json] makes to the record of a line's connection;
    [tokens] is a validated line, so it has its eight fields. *)
Definition accumulate (local : ConnectDict) (tokens : list PyVal) : result ConnectDict :=
  let tok k := nth k tokens PNone in
  si <- tally (tok 3%nat) (smsIn local) (smsInCount local) ;;
  so <- tally (tok 4%nat) (smsOut local) (smsOutCount local) ;;
  ci <- tally (tok 5%nat) (callIn local) (callInCount local) ;;
  co <- tally (tok 6%nat) (callOut local) (callOutCount local) ;;
  cd <- (if py_truthy (tok 7%nat) then py_iadd (cdr local) (tok 7%nat) else Ok (cdr local)) ;;
  Ok (mkConnect (fst si) (snd si) (fst so) (snd so)
                (fst ci) (snd ci) (fst co) (snd co) cd).

(** [collect_json] on the lines of one connection. *)
Definition collect (lines : list (list PyVal)) : result ConnectDict :=
  for_each lines accumulate new_connect.

(** [a / n]; a zero divisor raises. *)
Definition py_truediv (a : Q) (n : Z) : result Q :=
  if n =? 0 then Raise ZeroDivisionError else Ok (a / inject_Z n)%Q.

(** [if count > 0: weight += sum / count] *)
Definition add_average (weight sum : Q) (count : Z) : result Q :=
  if 0 <? count then q <- py_truediv sum count ;; Ok (weight + q)%Q
  else Ok weight.

Definition callWeight (connectDict : ConnectDict) : result Q :=
  w <- add_average 0 (callIn connectDict) (callInCount connectDict) ;;
  add_average w (callOut connectDict) (callOutCount connectDict).

Definition smsWeight (connectDict : ConnectDict) : result Q :=
  w <- add_average 0 (smsIn connectDict) (smsInCount connectDict) ;;
  add_average w (smsOut connectDict) (smsOutCount connectDict).

(** The three graphs under construction: calls, SMS, internet. *)
Record Graphs : Type := mkGraphs {
  graphCall : Graph string;
  graphSMS : Graph string;
  graphInternet : Graph string
}.

(** The body of [for node2, connectDict in innerDict.items()]. *)
Definition connect (node1 : string) (gs : Graphs) (entry : string * ConnectDict)
  : result Graphs :=
  let node2 := String "c" (fst entry) in
  let connectDict := snd entry in
  let gCall := add_node (graphCall gs) node2 in
  let gInternet := add_node (graphInternet gs) node2 in
  let gSMS := add_node (graphSMS gs) node2 in
  cw <- callWeight connectDict ;;
  sw <- smsWeight connectDict ;;
  Ok (mkGraphs (add_weight gCall node1 node2 cw)
               (add_weight gSMS node1 node2 sw)
               (add_weight gInternet node1 node2 (cdr connectDict))).

(** The body of [for node1, innerDict in graphDict.items()]. *)
Definition connect_cell (gs : Graphs) (item : Z * dict string ConnectDict)
  : result Graphs :=
  let node1 := String "m" (Zstr (fst item)) in
  let gs := mkGraphs (add_node (graphCall gs) node1)
                     (add_node (graphSMS gs) node1)
                     (add_node (graphInternet gs) node1) in
  for_each (snd item) (connect node1) gs.

Definition json_to_networkx (graphDict : dict Z (dict string ConnectDict))
  : result Graphs :=
  for_each graphDict connect_cell (mkGraphs empty_graph empty_graph empty_graph).

(** ** Milan-to-Countries: [mi_to_countries_blocks.py] *)

Section BlockToCountry.
Variable cellsGraph : Graph string.

(** The body of the loop over [cellsGraph.edges(['m' + cellID], data=True)]. *)
Definition visit_country_edge (SEZ : Z) (cellFrom : BlockCell)
           (blocksGraph : Graph Node) (edge : string * string * Q)
  : result (Graph Node) :=
  let '(cellNodeFrom, cellNodeTo, edgeWeight) := edge in
  if negb (startswith cellNodeFrom "m") then Raise ValueError
  else if negb (startswith cellNodeTo "c") then Raise ValueError
  else
    let blocksGraph := add_node blocksGraph (NStr cellNodeTo) in
    let weight := (edgeWeight * censusAreaPercentage (copied cellFrom))%Q in
    Ok (add_weight blocksGraph (NInt SEZ) (NStr cellNodeTo) weight).

Definition visit_country_cell (SEZ : Z) (blocksGraph : Graph Node) (cellFrom : BlockCell)
  : result (Graph Node) :=
  for_each (edges_of cellsGraph (String "m" (Zstr (cellID cellFrom))))
           (visit_country_edge SEZ cellFrom) blocksGraph.

Definition visit_country_block (blocksGraph : Graph Node) (item : Z * list BlockCell)
  : result (Graph Node) :=
  let SEZ := fst item in
  for_each (snd item) (visit_country_cell SEZ) (add_node blocksGraph (NInt SEZ)).

(** The redistribution loop of [get_block_graph]. *)
Definition redistribute_to_countries (blocksCellsMap : dict Z (list BlockCell))
  : result (Graph Node) :=
  for_each blocksCellsMap visit_country_block empty_graph.
End BlockToCountry.

Section CountryAttributes.
Variable censusAttributes : dict string Attrs.
(** Calling code to country name, or to [None]. *)
Variable countryCodesMap : dict string PyVal.

(** The body of [for node in blocksGraph.nodes], on the graph and the
    canonical [keys] found so far. *)
Definition attach (st : Graph Node * list string) (node : Node)
  : result (Graph Node * list string) :=
  let '(g, keys) := st in
  if startswith (node_str node) "c" then
    let countryCode := drop_first (node_str node) in
    countryName <- dict_index countryCodesMap countryCode ;;
    let g := set_attr g node "CountryCode" (PStr countryCode) in
    Ok (set_attr g node "CountryName" countryName, keys)
  else
    match dict_get censusAttributes (node_str node) with
    | Some record =>
        let keys := match keys with [] => dict_keys record | _ => keys end in
        Ok (set_attrs g node record, keys)
    | None => Ok (g, keys)
    end.

(** "We need to fill in Nones for those block nodes which don't have data" *)
Fixpoint fill_blocks (keys : list string) (nodes : dict Node Attrs)
  : result (dict Node Attrs) :=
  match nodes with
  | [] => Ok []
  | (node, attrs) :: rest =>
      attrs' <- (if startswith (node_str node) "c" then Ok attrs
                 else fill_node keys node attrs) ;;
      rest' <- fill_blocks keys rest ;;
      Ok ((node, attrs') :: rest')
  end.

Definition annotate (blocksGraph : Graph Node) : result (Graph Node) :=
  st <- for_each (dict_keys (g_nodes blocksGraph)) attach (blocksGraph, []) ;;
  nodes <- fill_blocks (snd st) (g_nodes (fst st)) ;;
  Ok (mkGraph nodes (g_edges (fst st))).
End CountryAttributes.

Definition get_block_graph (blocksCellsMap : dict Z (list BlockCell))
           (cellsGraph : Graph string)
           (censusAttributes : dict string Attrs)
           (countryCodesMap : dict string PyVal) : result (Graph Node) :=
  g <- redistribute_to_countries cellsGraph blocksCellsMap ;;
  annotate censusAttributes countryCodesMap g.

(** ** Milan-to-Milan: [relation_graph_to_json] of [mi_to_mi.py]

    One input file, as the list of its lines.  A line can raise an
    [IndexError] (fewer than four fields) or the [ValueError] of [int] and
    [float]. *)

Inductive line_exn : Type :=
| LineIndexError
| LineValueError.

Definition tab : ascii := "009"%char.

(** [s.split(sep)] for a one-character separator. *)
Fixpoint split_on (sep : ascii) (s : string) : list string :=
  match s with
  | EmptyString => [EmptyString]
  | String c t =>
      if Ascii.eqb c sep then EmptyString :: split_on sep t
      else match split_on sep t with
           | w :: ws => String c w :: ws
           | [] => [String c EmptyString]
           end
  end.

(** [graph[fromT][toT] += x] on a [defaultdict] of [defaultdict(float)]. *)
Definition dd_add (graph : dict Z (dict Z Q)) (fromT toT : Z) (x : Q) : dict Z (dict Z Q) :=
  let inner := match dict_get graph fromT with Some d => d | None => [] end in
  let old := match dict_get inner toT with Some q => q | None => 0%Q end in
  dict_set graph fromT (dict_set inner toT (old + x)%Q).

Section RelationGraph.
Variable py_int : string -> option Z.
Variable py_float : string -> option Q.

(** The body of [for line in stream]. *)
Definition relation_line (graph : dict Z (dict Z Q)) (line : string)
  : line_exn + dict Z (dict Z Q) :=
  let tokens := split_on tab line in
  match nth_error tokens 1 with
  | None => inl LineIndexError
  | Some t1 =>
  match py_int t1 with
  | None => inl LineValueError
  | Some fromT =>
  match nth_error tokens 2 with
  | None => inl LineIndexError
  | Some t2 =>
  match py_int t2 with
  | None => inl LineValueError
  | Some toT =>
      let '(fromT, toT) := if toT <? fromT then (toT, fromT) else (fromT, toT) in
      match nth_error tokens 3 with
      | None => inl LineIndexError
      | Some t3 =>
      match py_float t3 with
      | None => inl LineValueError
      | Some x => inr (dd_add graph fromT toT x)
      end
      end
  end
  end
  end
  end.

Fixpoint relation_lines (lines : list string) (graph : dict Z (dict Z Q))
  : line_exn + dict Z (dict Z Q) :=
  match lines with
  | [] => inr graph
  | line :: rest =>
      match relation_line graph line with
      | inl e => inl e
      | inr graph' => relation_lines rest graph'
      end
  end.

(** The dictionary written for one file. *)
Definition relation_graph (lines : list string) : line_exn + dict Z (dict Z Q) :=
  relation_lines lines [].
End RelationGraph.

(** ** Milan-to-Countries: [create_country_code_map] of [mi_to_countries.py] *)

(** [try: m except KeyError: handler] *)
Definition try_except_KeyError {A : Type} (m handler : result A) : result A :=
  match m with
  | Raise KeyError => handler
  | _ => m
  end.

(** [''.join(list(filter(lambda x: x in ' 0123456789', val)))] *)
Definition is_code_char (x : ascii) : bool :=
  existsb (Ascii.eqb x) (list_ascii_of_string " 0123456789").

Fixpoint keep_code_chars (val : string) : string :=
  match val with
  | EmptyString => EmptyString
  | String x rest =>
      if is_code_char x then String x (keep_code_chars rest) else keep_code_chars rest
  end.

(** "The country codes begin with 'c'": the set [codes], from the nodes of
    the call, internet and SMS graphs. *)
Definition country_codes (gs : Graphs) : list string :=
  fold_left
    (fun codes node =>
       if startswith node "c" then str_set_add codes (drop_first node) else codes)
    (dict_keys (g_nodes (graphCall gs))
       ++ dict_keys (g_nodes (graphInternet gs))
       ++ dict_keys (g_nodes (graphSMS gs)))
    [].

(** The loop over [abbrToCodes.items()] that fills [codesToAbbr]. *)
Definition codes_to_abbr (abbrToCodes : dict string string) : dict string string :=
  fold_left
    (fun codesToAbbr item =>
       fold_left
         (fun codesToAbbr code =>
            if negb (String.eqb code "") then dict_set codesToAbbr code (fst item)
            else codesToAbbr)
         (split_on " " (keep_code_chars (snd item)))
         codesToAbbr)
    abbrToCodes [].

Section CountryCodeMap.
Variable abbrToNames : dict string PyVal.
Variable codesToAbbr : dict string string.

(** The value stored for one code, with its two fallbacks. *)
Definition country_name_of (code : string) : result PyVal :=
  try_except_KeyError
    (abbr <- dict_index codesToAbbr code ;; dict_index abbrToNames abbr)
    (try_except_KeyError
       (abbr <- dict_index codesToAbbr code ;; Ok (PStr abbr))
       (Ok PNone)).

Definition add_country_code (countryCodeMap : dict string PyVal) (code : string)
  : result (dict string PyVal) :=
  name <- country_name_of code ;;
  Ok (dict_set countryCodeMap code name).
End CountryCodeMap.

Definition create_country_code_map (gs : Graphs) (abbrToNames : dict string PyVal)
           (abbrToCodes : dict string string) : result (dict string PyVal) :=
  for_each (country_codes gs)
           (add_country_code abbrToNames (codes_to_abbr abbrToCodes)) [].

(** ** The CSV builders: [create_blocks_dataframe] of [mi_to_mi_blocks.py]
    and [_graph_to_csv] of [mi_to_countries_blocks.py]

    What is handed to [pd.DataFrame]: the column names and one list per
    node, the node's attribute values followed by the list of its
    (neighbour, weight) tuples. *)

Record Row (N : Type) : Type := mkRow {
  cells : list PyVal;
  edgeTuples : list (N * Q)
}.

Arguments mkRow {N} cells edgeTuples.
Arguments cells {N} _.
Arguments edgeTuples {N} _.

Section Rows.
Context {N : Type} `{Hashable N}.

(** [attrsList] for one node. *)
Definition node_row (g : Graph N) (item : N * Attrs) : Row N :=
  mkRow (map snd (snd item))
        (map (fun edge => (snd (fst edge), snd edge)) (edges_of g (fst item))).
End Rows.

Definition create_blocks_dataframe (blocksGraph : Graph Z) : list string * list (Row Z) :=
  let '(keysList, graphLists) :=
    fold_left
      (fun st item =>
         let '(keysList, graphLists) := st in
         let keysList := match keysList with
                         | [] => dict_keys (snd item)
                         | _ => keysList
                         end in
         (keysList, graphLists ++ [node_row blocksGraph item]))
      (g_nodes blocksGraph) ([], []) in
  (keysList ++ ["EdgeTuples"%string], graphLists).

(** The test that makes a pass skip a node. *)
Definition skipped (countries : bool) (node : Node) : bool :=
  (countries && negb (startswith (node_str node) "c"))
  || (negb countries && startswith (node_str node) "c").

(** The body of [for (node, attrs) in graph.nodes(data=True)], on [keys]
    and [graphLists]. *)
Definition csv_visit (graph : Graph Node) (countries : bool)
           (st : list string * list (Row Node)) (item : Node * Attrs)
  : list string * list (Row Node) :=
  if skipped countries (fst item) then st
  else
    let keys :=
      if (List.length (fst st) <? List.length (dict_keys (snd item)))%nat
      then dict_keys (snd item) else fst st in
    (keys, snd st ++ [node_row graph item]).

Definition _graph_to_csv (graph : Graph Node) (countries : bool)
  : list string * list (Row Node) :=
  let '(keys, graphLists) :=
    fold_left (csv_visit graph countries) (g_nodes graph) ([], []) in
  (keys ++ ["EdgeTuples"%string], graphLists).

(** The two passes, countries first. *)
Definition graph_to_csv (graph : Graph Node)
  : (list string * list (Row Node)) * (list string * list (Row Node)) :=
  (_graph_to_csv graph true, _graph_to_csv graph false).

(** ** Milan-to-Countries: the grouping of [collect_json]

    [graph] is keyed by the validated cell id and then by the validated
    country code; the keys are compared as Python compares them. *)

Definition pydict (V : Type) : Type := list (PyVal * V).

Fixpoint pyd_get {V : Type} (d : pydict V) (k : PyVal) : option V :=
  match d with
  | [] => None
  | (k', v) :: d' => if py_eq k k' then Some v else pyd_get d' k
  end.

Definition pyd_index {V : Type} (d : pydict V) (k : PyVal) : result V :=
  match pyd_get d k with
  | Some v => Ok v
  | None => Raise KeyError
  end.

Fixpoint pyd_set {V : Type} (d : pydict V) (k : PyVal) (v : V) : pydict V :=
  match d with
  | [] => [(k, v)]
  | (k', v') :: d' =>
      if py_eq k k' then (k', v) :: d' else (k', v') :: pyd_set d' k v
  end.

Section CollectJson.
Variable py_int : string -> option Z.
Variable py_float : string -> option Q.

(** The body of [for line in stream]. *)
Definition collect_line (graph : pydict (pydict ConnectDict)) (line : string)
  : result (pydict (pydict ConnectDict)) :=
  tokens <- validate py_int py_float (split_on tab line) ;;
  let graph :=
    match pyd_get graph (nth 0 tokens PNone) with
    | Some _ => graph
    | None => pyd_set graph (nth 0 tokens PNone) []
    end in
  local <- pyd_index graph (nth 0 tokens PNone) ;;
  let local :=
    match pyd_get local (nth 2 tokens PNone) with
    | Some _ => local
    | None => pyd_set local (nth 2 tokens PNone) new_connect
    end in
  record <- pyd_index local (nth 2 tokens PNone) ;;
  record <- accumulate record tokens ;;
  Ok (pyd_set graph (nth 0 tokens PNone) (pyd_set local (nth 2 tokens PNone) record)).

Definition collect_json (lines : list string) : result (pydict (pydict ConnectDict)) :=
  for_each lines collect_line [].
End CollectJson.

(** * Specification-level notions

    The quantities in which the properties below are stated: the weight a
    graph holds for a pair of nodes, the contributions a redistribution
    makes, the wording of the specification where it differs from the
    code. *)

Section PairWeights.
Context {N : Type} `{Hashable N}.

(** [u]-[v] and [a]-[b] are the same unordered pair. *)
Definition same_pair (u v a b : N) : Prop :=
  (u = a /\ v = b) \/ (u = b /\ v = a).

(** The weight an accumulation leaves on its edge: the first contribution
    creates the edge, a later one is added to what is there. *)
Definition accumulated (prior : option Q) (w : Q) : Q :=
  match prior with
  | Some old => (old + w)%Q
  | None => w
  end.

(** The weight an edge list holds for [u]-[v]: [edge_weight] on the edges
    alone. *)
Definition weight_in (es : list (N * N * Q)) (u v : N) : option Q :=
  match find (joins u v) es with
  | Some (_, _, w) => Some w
  | None => None
  end.

(** A contribution (u, v, w) is the weight [w] added onto the edge [u]-[v];
    this is what [add_weight] does to the edge list. *)
Definition accumulate_edge (es : list (N * N * Q)) (c : N * N * Q) : list (N * N * Q) :=
  let '(u, v, w) := c in set_weight es u v (accumulated (weight_in es u v) w).

(** Does one of the contributions [cs] land on [u]-[v], and what do those
    that do add up to? *)
Definition pair_visited (u v : N) (cs : list (N * N * Q)) : bool :=
  existsb (joins u v) cs.

Fixpoint pair_total (u v : N) (cs : list (N * N * Q)) : Q :=
  match cs with
  | [] => 0
  | c :: cs' =>
      if joins u v c then (snd c + pair_total u v cs')%Q else pair_total u v cs'
  end.
End PairWeights.

(** The specification's wording of the snapping rule: [r] is the value kept
    for a percentage [p]. *)
Definition within_tolerance (p boundary : Q) : Prop :=
  (Qabs (p - boundary) < 1 # 10000)%Q.

Definition snapped_to_boundary (p r : Q) : Prop :=
  (within_tolerance p 0 -> r = 0%Q)
  /\ (within_tolerance p 1 -> r = 1%Q)
  /\ ((0 <= p <= 1)%Q -> ~ within_tolerance p 0 -> ~ within_tolerance p 1 -> r = p).

(** The rule as the code has it, on binary64: [r] is the value kept for
    the quotient [p].  The thresholds are the doubles written [1e-4] and
    [0.9999], the comparisons are strict, and nothing is said of a distance
    to 0 or to 1. *)
Definition compared_with_thresholds (p r : Q) : Prop :=
  ((p < double_1e_4)%Q -> r = 0%Q)
  /\ ((double_0_9999 < p)%Q -> r = 1%Q)
  /\ ((double_1e_4 <= p)%Q -> (p <= double_0_9999)%Q -> r = p).

Section Shapely.
Context {P : Type} `{Geometry P}.

(** shapely: two polygons overlap when their interiors meet and neither
    contains the other. *)
Definition overlaps_excludes_containment : Prop :=
  forall a b : P, overlaps a b = true -> within a b = false /\ within b a = false.
End Shapely.

Section BlockVisits.
Variable cellsGraph : Graph Z.
Variable cellsMap : dict Z (list (MilanSection CensusCodes)).

(** The contribution of one visit: the block [SEZ] holds the cell
    [cellFrom], the cell graph joins that cell to a cell with weight
    [edgeWeight], and [blockTo] is an overlap entry of the far cell. *)
Definition block_contribution (SEZ : Z) (cellFrom : BlockCell) (edgeWeight : Q)
           (blockTo : MilanSection CensusCodes) : Z * Z * Q :=
  (SEZ, SEZ2011 (censusCodes blockTo),
   (edgeWeight * censusAreaPercentage (copied cellFrom) * censusAreaPercentage blockTo)%Q).

Definition far_blocks (cellNodeTo : Z) : list (MilanSection CensusCodes) :=
  match dict_get cellsMap cellNodeTo with
  | Some blocksTo => blocksTo
  | None => []
  end.

Definition edge_contributions (SEZ : Z) (cellFrom : BlockCell) (edge : Z * Z * Q)
  : list (Z * Z * Q) :=
  map (block_contribution SEZ cellFrom (snd edge)) (far_blocks (snd (fst edge))).

Definition cell_contributions (SEZ : Z) (cellFrom : BlockCell) : list (Z * Z * Q) :=
  flat_map (edge_contributions SEZ cellFrom) (edges_of cellsGraph (cellID cellFrom)).

Definition block_contributions (item : Z * list BlockCell) : list (Z * Z * Q) :=
  flat_map (cell_contributions (fst item)) (snd item).

(** All the visits of [create_census_blocks_graph], in the order of its
    four nested loops. *)
Definition contributions (blocksMap : dict Z (list BlockCell)) : list (Z * Z * Q) :=
  flat_map block_contributions blocksMap.
End BlockVisits.

(** The contribution as the specification words it: the source-side
    percentage of the from-cell's entry, the target-side percentage of the
    to-cell's entry. *)
Definition claimed_block_contribution (edgeWeight : Q) (cellFrom : BlockCell)
           (blockTo : MilanSection CensusCodes) : Q :=
  (edgeWeight * milanAreaPercentage (copied cellFrom) * censusAreaPercentage blockTo)%Q.

Section SingleEdgeInput.
Variables A B : Z.
Variable W : Q.
Variables eA eB : MilanSection CensusCodes.

(** The synthetic input: one edge of weight [W] between the cells [A] and
    [B], and one overlap entry for each of them. *)
Definition single_cellsGraph : Graph Z := add_edge empty_graph A B W.

Definition single_cellsMap : dict Z (list (MilanSection CensusCodes)) :=
  [(A, [eA]); (B, [eB])].

Definition single_blocksMap : dict Z (list BlockCell) :=
  milan_grid_census_blocks_map_reverse single_cellsMap.
End SingleEdgeInput.

Section CountryVisits.
Variable cellsGraph : Graph string.

(** The contribution of one visit: the block [SEZ] holds the cell
    [cellFrom], and the cell graph joins that cell to a country. *)
Definition country_contribution (SEZ : Z) (cellFrom : BlockCell)
           (edge : string * string * Q) : Node * Node * Q :=
  (NInt SEZ, NStr (snd (fst edge)),
   (snd edge * censusAreaPercentage (copied cellFrom))%Q).

Definition country_cell_contributions (SEZ : Z) (cellFrom : BlockCell)
  : list (Node * Node * Q) :=
  map (country_contribution SEZ cellFrom)
      (edges_of cellsGraph (String "m" (Zstr (cellID cellFrom)))).

Definition country_block_contributions (item : Z * list BlockCell)
  : list (Node * Node * Q) :=
  flat_map (country_cell_contributions (fst item)) (snd item).

(** All the visits of [get_block_graph], in the order of its three nested
    loops. *)
Definition country_contributions (blocksCellsMap : dict Z (list BlockCell))
  : list (Node * Node * Q) :=
  flat_map country_block_contributions blocksCellsMap.
End CountryVisits.

(** The contribution as the specification words it: the edge weight times
    the source-side percentage (intersection area over the cell's own area). *)
Definition claimed_country_contribution (edgeWeight : Q) (cellFrom : BlockCell) : Q :=
  (edgeWeight * milanAreaPercentage (copied cellFrom))%Q.

(** The specification's wording: a direction's sum divided by its own
    count when the count is not zero, and 0 for a direction never seen. *)
Definition average (sum : Q) (count : Z) : Q :=
  if count =? 0 then 0%Q else (sum / inject_Z count)%Q.

(** The value [add_average] returns. *)
Definition averaged (weight sum : Q) (count : Z) : Q :=
  if 0 <? count then (weight + sum / inject_Z count)%Q else weight.

Definition call_value (cd : ConnectDict) : Q :=
  averaged (averaged 0 (callIn cd) (callInCount cd)) (callOut cd) (callOutCount cd).

Definition sms_value (cd : ConnectDict) : Q :=
  averaged (averaged 0 (smsIn cd) (smsInCount cd)) (smsOut cd) (smsOutCount cd).

(** The counts kept by [collect_json] are never negative. *)
Definition counts_nonneg (cd : ConnectDict) : Prop :=
  0 <= smsInCount cd /\ 0 <= smsOutCount cd /\ 0 <= callInCount cd /\ 0 <= callOutCount cd.

Section Connections.
Variable value : ConnectDict -> Q.

Definition cell_node (cell : Z) : string := String "m" (Zstr cell).

Definition country_node (code : string) : string := String "c" code.

Definition connection (cell : Z) (entry : string * ConnectDict) : string * string * Q :=
  (cell_node cell, country_node (fst entry), value (snd entry)).

Definition cell_connections (item : Z * dict string ConnectDict)
  : list (string * string * Q) :=
  map (connection (fst item)) (snd item).

Definition connections (graphDict : dict Z (dict string ConnectDict))
  : list (string * string * Q) :=
  flat_map cell_connections graphDict.
End Connections.

(** The merge of [add_census_attributes], one node at a time. *)
Definition merge_step (blocksAttr : dict string Attrs) (st : Graph Z * list string) (node : Z)
  : Graph Z * list string :=
  match dict_get blocksAttr (node_str node) with
  | Some record => (set_attrs (fst st) node record, snd st)
  | None => (fst st, str_set_add (snd st) (node_str node))
  end.

(** The dictionary [for key in keys: attrs[key] = None] builds. *)
Definition nulls (keys : list string) (attrs : Attrs) : Attrs :=
  fold_left (fun a key => dict_set a key PNone) keys attrs.

(** What the specification asks of a node without a record: the canonical
    keys, its own identifier under SEZ2011, and null everywhere else. *)
Definition null_filled (keys : list string) (id : PyVal) (attrs' : Attrs) : Prop :=
  (forall k, In k (dict_keys attrs') <-> In k keys)
  /\ dict_get attrs' "SEZ2011"%string = Some id
  /\ forall k v, k <> "SEZ2011"%string -> dict_get attrs' k = Some v -> v = PNone.

(** And what happens to a node with attributes: its keys stay, its values
    stay except a null SEZ2011, which becomes the node's identifier. *)
Definition record_kept (attrs attrs' : Attrs) : Prop :=
  dict_keys attrs' = dict_keys attrs
  /\ (exists v, dict_get attrs' "SEZ2011"%string = Some v /\ v <> PNone)
  /\ forall k, k <> "SEZ2011"%string -> dict_get attrs' k = dict_get attrs k.

(** The list a dictionary of lists holds under a key, empty for a missing
    key. *)
Definition entries_of {K V : Type} `{Hashable K} (d : dict K (list V)) (k : K) : list V :=
  match dict_get d k with
  | Some l => l
  | None => []
  end.

(** The entries of the cell-to-block map that point at the block [sez],
    each with the id of its cell, in the order of the map. *)
Definition cells_of_block (cellMap : dict Z (list (MilanSection CensusCodes))) (sez : Z)
  : list BlockCell :=
  flat_map
    (fun item =>
       map (mkBlockCell (fst item))
           (filter (fun block => SEZ2011 (censusCodes block) =? sez) (snd item)))
    cellMap.

(** The far ends of the cell-graph edges that [create_census_blocks_graph]
    looks up in the cell-to-block map, in the order of its loops. *)
Definition visited_cells (cellsGraph : Graph Z) (blocksMap : dict Z (list BlockCell))
  : list Z :=
  flat_map
    (fun item =>
       flat_map
         (fun cellFrom =>
            map (fun edge => snd (fst edge)) (edges_of cellsGraph (cellID cellFrom)))
         (snd item))
    blocksMap.

(** The entries of one extract that [aggregate_dates] keeps, as
    contributions: both ends are among [nodes]. *)
Definition kept_entries (nodes : list Z) (dictionary : dict Z (dict Z Q))
  : list (Z * Z * Q) :=
  flat_map
    (fun item =>
       if set_mem nodes (fst item)
       then flat_map
              (fun entry =>
                 if set_mem nodes (fst entry)
                 then [(fst item, fst entry, snd entry)]
                 else [])
              (snd item)
       else [])
    dictionary.

(** [graph[a][b]] of a dictionary of dictionaries, [None] when either key is
    missing. *)
Definition dd_get (graph : dict Z (dict Z Q)) (a b : Z) : option Q :=
  match dict_get graph a with
  | Some inner => dict_get inner b
  | None => None
  end.

Section LineFields.
Variable py_int : string -> option Z.
Variable py_float : string -> option Q.

(** The three fields [relation_graph_to_json] reads off a line: the from
    cell, the to cell and the strength; [None] for a line with fewer than
    four fields or with a field that does not parse. *)
Definition line_fields (line : string) : option (Z * Z * Q) :=
  let tokens := split_on tab line in
  match nth_error tokens 1, nth_error tokens 2, nth_error tokens 3 with
  | Some t1, Some t2, Some t3 =>
      match py_int t1, py_int t2, py_float t3 with
      | Some a, Some b, Some x => Some (a, b, x)
      | _, _, _ => None
      end
  | _, _, _ => None
  end.

Definition line_parses (line : string) : bool :=
  match line_fields line with Some _ => true | None => false end.

(** The fields of the lines of a file, as contributions to the pair of
    their cells. *)
Definition file_entries (lines : list string) : list (Z * Z * Q) :=
  flat_map (fun line => match line_fields line with
                        | Some entry => [entry]
                        | None => []
                        end) lines.
End LineFields.

Section ConvertedFields.
Variable py_int : string -> option Z.
Variable py_float : string -> option Q.

(** The fields of a line after [validate]: the timestamp as it is, the
    cell id and the country code through [is_int], the rest through
    [is_float]; [i] is the index of the first field of [tokens]. *)
Fixpoint converted (i : nat) (tokens : list string) : list PyVal :=
  match tokens with
  | [] => []
  | token :: rest =>
      (if Nat.eqb i 1 then PStr token
       else if Nat.ltb i 3 then is_int py_int token
       else is_float py_float token) :: converted (S i) rest
  end.

(** The amount an activity field adds to its sum: nothing for an empty
    field, for a field that is not a number and for a zero. *)
Definition field_amount (token : string) : option Q :=
  if String.eqb token "" then None
  else match py_float token with
       | Some q => if Qeq_bool q 0 then None else Some q
       | None => None
       end.

Definition counted (sum : Q) (count : Z) (token : string) : Q * Z :=
  match field_amount token with
  | Some q => ((sum + q)%Q, count + 1)
  | None => (sum, count)
  end.
End ConvertedFields.

Section GraphShape.
Context {N : Type}.

(** Two graphs with the same nodes (and node attributes) and the same
    edges, weights apart. *)
Definition same_shape (g1 g2 : Graph N) : Prop :=
  g_nodes g1 = g_nodes g2 /\ map fst (g_edges g1) = map fst (g_edges g2).
End GraphShape.

(** The far ends of the cell-graph edges that [get_block_graph] visits, in
    the order of its loops. *)
Definition visited_far_nodes (cellsGraph : Graph string)
           (blocksCellsMap : dict Z (list BlockCell)) : list string :=
  flat_map
    (fun item =>
       flat_map
         (fun cellFrom =>
            map (fun edge => snd (fst edge))
                (edges_of cellsGraph (String "m" (Zstr (cellID cellFrom)))))
         (snd item))
    blocksCellsMap.

(** The value [create_country_code_map] keeps for a code: the country's
    name, the abbreviation when the name table does not have it, and [None]
    for a code no abbreviation lists. *)
Definition country_name (abbrToNames : dict string PyVal) (codesToAbbr : dict string string)
           (code : string) : PyVal :=
  match dict_get codesToAbbr code with
  | Some abbr =>
      match dict_get abbrToNames abbr with
      | Some name => name
      | None => PStr abbr
      end
  | None => PNone
  end.

Definition is_digit (x : ascii) : bool :=
  existsb (Ascii.eqb x) (list_ascii_of_string "0123456789").

(** The number of cells of a row, the list of tuples being one cell. *)
Definition row_width {N : Type} (r : Row N) : nat := S (List.length (cells r)).

Definition is_country (node : Node) : bool := startswith (node_str node) "c".

(** All the entries of a daily dictionary, as contributions. *)
Definition all_entries (dictionary : dict Z (dict Z Q)) : list (Z * Z * Q) :=
  flat_map
    (fun item => map (fun entry => (fst item, fst entry, snd entry)) (snd item))
    dictionary.

(** [graph[cell][code]], [None] when either key is missing. *)
Definition connection_record (graph : pydict (pydict ConnectDict)) (cell code : PyVal)
  : option ConnectDict :=
  match pyd_get graph cell with
  | Some local => pyd_get local code
  | None => None
  end.

(** The validated lines of a file that belong to the connection of [cell]
    and [code]. *)
Definition connection_lines (py_int : string -> option Z) (py_float : string -> option Q)
           (cell code : PyVal) (lines : list string) : list (list PyVal) :=
  filter (fun tokens => py_eq cell (nth 0 tokens PNone) && py_eq code (nth 2 tokens PNone))
         (map (fun line => converted py_int py_float 0 (split_on tab line)) lines).

(** * Example inputs

    Concrete runs of the pipeline on rectangles, used to exercise the
    properties. *)

Definition to_block (sez : Z) : MilanSection CensusCodes :=
  mkSection (1 # 2) (1 # 2) (mkCodes sez).

Definition cell_1 : MilanPolygon Rect := mkMilanPolygon 1 (mkRect 0 0 2 2).

Definition block_10 : CensusPolygon Rect := mkCensusPolygon (mkRect 1 0 5 2) (mkCodes 10).

Definition cell_inside : MilanPolygon Rect := mkMilanPolygon 7 (mkRect 1 1 2 2).

Definition block_around : CensusPolygon Rect := mkCensusPolygon (mkRect 0 0 4 4) (mkCodes 30).

Definition block_across : CensusPolygon Rect := mkCensusPolygon (mkRect 0 0 4 (3 # 2)) (mkCodes 40).

(** A cell 2^52 wide and a block that covers it up to 4503149267407759:
    the quotient of the two areas is the double 0.9999 itself, with no
    rounding. *)
Definition threshold_cell : MilanPolygon Rect :=
  mkMilanPolygon 1 (mkRect 0 0 4503599627370496 1).

Definition threshold_block : CensusPolygon Rect :=
  mkCensusPolygon (mkRect (-1) 0 4503149267407759 1) (mkCodes 10).

(** A run of the whole pipeline on rectangles: cell 1 shares half of its
    area with block 10 (a quarter of the block), cell 2 shares half of its
    area with block 20 (half of the block), and the cell graph has one edge
    of weight 8 between the two cells. *)
Definition cell_2 : MilanPolygon Rect := mkMilanPolygon 2 (mkRect 10 0 12 2).

Definition block_20 : CensusPolygon Rect := mkCensusPolygon (mkRect 11 0 13 2) (mkCodes 20).

Definition example_cellsMap : dict Z (list (MilanSection CensusCodes)) :=
  create_sezioni_censimento_millan_grid_map [cell_1; cell_2] [block_10; block_20].

Definition example_blocksMap : dict Z (list BlockCell) :=
  milan_grid_census_blocks_map_reverse example_cellsMap.

Definition example_cellsGraph : Graph Z := add_edge empty_graph 1 2 8.

Definition example_blocksGraph : Graph Z :=
  Eval vm_compute in
    match create_census_blocks_graph example_blocksMap example_cellsGraph example_cellsMap with
    | Ok g => g
    | Raise _ => empty_graph
    end.

Definition whole_block (sez : Z) : MilanSection CensusCodes :=
  mkSection 1 1 (mkCodes sez).

(** Two cells that their blocks cover to within the tolerance: each cell
    sticks out of its block by a 100000th of its width, so that its
    source-side percentage is snapped to 1, and each block is about twice
    the size of its cell, so that its census-side percentage is just under
    1/2. *)
Definition covered_1 : MilanPolygon Rect := mkMilanPolygon 1 (mkRect 0 0 1 1).

Definition covered_2 : MilanPolygon Rect := mkMilanPolygon 2 (mkRect 10 0 11 1).

Definition wide_10 : CensusPolygon Rect :=
  mkCensusPolygon (mkRect (1 # 100000) 0 2 1) (mkCodes 10).

Definition wide_20 : CensusPolygon Rect :=
  mkCensusPolygon (mkRect (1000001 # 100000) 0 12 1) (mkCodes 20).

Definition covered_cellsMap : dict Z (list (MilanSection CensusCodes)) :=
  create_sezioni_censimento_millan_grid_map [covered_1; covered_2] [wide_10; wide_20].

(** A run of [get_block_graph]: the cell graph joins cell 1 to the calling
    code 39 with weight 8, block 10 has a census record, block 20 has none,
    and the code 39 has no country name. *)
Definition example_countryGraph : Graph string :=
  add_edge empty_graph "m1"%string "c39"%string 8.

Definition example_censusAttributes : dict string Attrs :=
  [("10", [("SEZ2011", PInt 10); ("P1", PInt 250)])]%string.

Definition example_countryCodesMap : dict string PyVal := [("39", PNone)]%string.

Definition example_countryBlocksGraph : Graph Node :=
  Eval vm_compute in
    match get_block_graph example_blocksMap example_countryGraph
                          example_censusAttributes example_countryCodesMap with
    | Ok g => g
    | Raise _ => empty_graph
    end.

Definition example_redistributed : Graph Node :=
  Eval vm_compute in
    match redistribute_to_countries example_countryGraph example_blocksMap with
    | Ok g => g
    | Raise _ => empty_graph
    end.

(** Two periods of one connection, with call-in activity only. *)
Definition example_lines : list (list PyVal) :=
  [[PInt 1; PStr "1383260400000"; PInt 39; PStr ""; PStr ""; PFloat 3; PStr ""; PStr ""];
   [PInt 1; PStr "1383261000000"; PInt 39; PStr ""; PStr ""; PFloat 5; PStr ""; PStr ""]]%string.

Definition example_record : ConnectDict :=
  Eval vm_compute in
    match collect example_lines with
    | Ok cd => cd
    | Raise _ => new_connect
    end.

Definition example_graphDict : dict Z (dict string ConnectDict) :=
  [(1, [("39"%string, example_record)])].

(** The block graph of the run above after the merge (block 10 has a
    census record, block 20 has none) and after the filling. *)
Definition example_merged : Graph Z :=
  Eval vm_compute in fst (add_census_attributes example_blocksGraph example_censusAttributes).

Definition example_filled : Graph Z :=
  Eval vm_compute in
    match census_block_graph_fill_in_holes example_merged with
    | Ok g => g
    | Raise _ => empty_graph
    end.

(** Two census records with the same number of fields and different
    fields. *)
Definition uneven_censusAttributes : dict string Attrs :=
  [("10", [("SEZ2011", PInt 10); ("P1", PInt 250)]);
   ("20", [("SEZ2011", PInt 20); ("E1", PInt 7)])]%string.

(** Three lines of a Milan-to-Milan file: two for the cells 3 and 5, one in
    each direction, and one for the cells 3 and 4. *)
Definition tsv (fields : list string) : string :=
  String.concat (String tab EmptyString) fields.

Definition example_file : list string :=
  [tsv ["1383260400000"; "5"; "3"; "0.5"];
   tsv ["1383260400000"; "3"; "5"; "0.25"];
   tsv ["1383261000000"; "3"; "4"; "2"]]%string.

Definition example_relation : dict Z (dict Z Q) :=
  Eval vm_compute in
    match relation_graph int_of_decimal float_of_decimal example_file with
    | inr graph => graph
    | inl _ => []
    end.

(** A graph dictionary with two connections of cell 1 (the second one
    without any call) and a cell without connections. *)
Definition example_traffic : dict Z (dict string ConnectDict) :=
  [(1, [("39"%string, mkConnect 0 0 0 0 8 2 0 0 12);
        ("0"%string, mkConnect 1 1 0 0 0 0 0 0 3)]);
   (2, [])].

Definition example_countryGraphs : Graphs :=
  Eval vm_compute in
    match json_to_networkx example_traffic with
    | Ok gs => gs
    | Raise _ => mkGraphs empty_graph empty_graph empty_graph
    end.

(** The two reference tables of [create_country_code_map]: Italy is listed
    with its name, American Samoa has a code with a dash and no name, and
    the code 0 of the data belongs to no country. *)
Definition example_abbrToNames : dict string PyVal := [("IT", PStr "Italy")]%string.

Definition example_abbrToCodes : dict string string :=
  [("IT", "39"); ("AS", "+1-684"); ("DO", "+1-809 and 1-829")]%string.

Definition example_countryCodeMap : dict string PyVal :=
  Eval vm_compute in
    match create_country_code_map example_countryGraphs example_abbrToNames
                                  example_abbrToCodes with
    | Ok m => m
    | Raise _ => []
    end.

Definition example_internet_redistributed : Graph Node :=
  Eval vm_compute in
    match redistribute_to_countries (graphInternet example_countryGraphs)
                                    example_blocksMap with
    | Ok g => g
    | Raise _ => empty_graph
    end.

(** A cell-to-block map in which the cells 3, 4 and 5 have two blocks
    each. *)
Definition example_grid : dict Z (list (MilanSection CensusCodes)) :=
  [(3, [to_block 10; to_block 20]);
   (4, [to_block 10; to_block 20]);
   (5, [to_block 20; to_block 30])].

(** Three lines of a Milan-to-Countries file: two periods of the connection
    of cell 1 with the code 39, and one of cell 1 with the code 0. *)
Definition example_country_file : list string :=
  [tsv ["1"; "1383260400000"; "39"; ""; ""; "3"; ""; ""];
   tsv ["1"; "1383260400000"; "0"; "0.5"; ""; ""; ""; "2"];
   tsv ["1"; "1383261000000"; "39"; ""; ""; "5"; ""; "1"]]%string.

Definition example_collected : pydict (pydict ConnectDict) :=
  Eval vm_compute in
    match collect_json int_of_decimal float_of_decimal example_country_file with
    | Ok graph => graph
    | Raise _ => []
    end.

(** * Properties *)

(** ** Dictionaries and loops *)

Lemma key_eqb_refl {K : Type} `{Hashable K} (k : K) : key_eqb k k = true.
Proof. destruct (key_eqb_spec k k); congruence. Qed.

Lemma key_eqb_neq {K : Type} `{Hashable K} (a b : K) : a <> b -> key_eqb a b = false.
Proof. intros Hab; destruct (key_eqb_spec a b); congruence. Qed.

Lemma key_eqb_eq {K : Type} `{Hashable K} (a b : K) : key_eqb a b = true -> a = b.
Proof. destruct (key_eqb_spec a b); congruence. Qed.

Lemma dict_get_set_same {K V : Type} `{Hashable K} (d : dict K V) k v :
  dict_get (dict_set d k v) k = Some v.
Proof.
  induction d as [| [k' v'] d IH]; simpl.
  - now rewrite key_eqb_refl.
  - destruct (key_eqb k k') eqn:E; simpl; rewrite E; auto.
Qed.

Lemma dict_get_set_other {K V : Type} `{Hashable K} (d : dict K V) k k' v :
  k' <> k -> dict_get (dict_set d k v) k' = dict_get d k'.
Proof.
  intros Hne; induction d as [| [k0 v0] d IH]; simpl.
  - now rewrite (key_eqb_neq k' k).
  - destruct (key_eqb k k0) eqn:E; simpl.
    + apply key_eqb_eq in E; subst k0. now rewrite (key_eqb_neq k' k).
    + now rewrite IH.
Qed.

Lemma dict_get_None_keys {K V : Type} `{Hashable K} (d : dict K V) k :
  dict_get d k = None <-> ~ In k (dict_keys d).
Proof.
  induction d as [| [k' v'] d IH]; simpl.
  - tauto.
  - destruct (key_eqb_spec k k'); split; intros Hx.
    + discriminate.
    + exfalso; apply Hx; left; congruence.
    + intros [E | Hin]; [congruence | now apply IH in Hx].
    + apply IH; intros Hin; apply Hx; now right.
Qed.

Lemma dict_keys_set {K V : Type} `{Hashable K} (d : dict K V) k v x :
  In x (dict_keys (dict_set d k v)) <-> x = k \/ In x (dict_keys d).
Proof.
  induction d as [| [k' v'] d IH]; simpl.
  - intuition congruence.
  - destruct (key_eqb_spec k k'); simpl.
    + subst; intuition congruence.
    + rewrite IH; intuition congruence.
Qed.

(** ** Record validation *)

Lemma flagged_never (v : PyVal) : flagged v = false.
Proof.
  unfold flagged, py_eq.
  destruct v as [| b | z | q | s]; try reflexivity.
  - destruct b; reflexivity.
  - exact (Bool.andb_negb_l (Qeq_bool (inject_Z z) 0)).
  - exact (Bool.andb_negb_l (Qeq_bool q 0)).
Qed.

Section ValidateFacts.
Variable py_int : string -> option Z.
Variable py_float : string -> option Q.

Lemma validate_token_value (i : nat) (token : string) :
  validate_token py_int py_float i token =
  Ok (if Nat.eqb i 1 then PStr token
      else if Nat.ltb i 3 then is_int py_int token
      else is_float py_float token).
Proof.
  unfold validate_token.
  destruct (Nat.eqb i 1); [reflexivity |].
  destruct (Nat.ltb i 3); now rewrite flagged_never.
Qed.

Lemma validate_from_total (tokens : list string) (i : nat) :
  exists out, validate_from py_int py_float i tokens = Ok out
              /\ List.length out = List.length tokens.
Proof.
  revert i; induction tokens as [| t ts IH]; intros i; simpl.
  - now exists [].
  - rewrite validate_token_value; simpl.
    destruct (IH (S i)) as [out [-> Hlen]]; simpl.
    eexists; split; [reflexivity | simpl; now rewrite Hlen].
Qed.

(** The length check is the only one that raises. *)
Lemma validate_wrong_length (tokens : list string) :
  List.length tokens <> 8%nat ->
  validate py_int py_float tokens = Raise ValueError.
Proof.
  intros Hlen; unfold validate.
  destruct (Nat.eqb_spec (List.length tokens) 8); [contradiction | reflexivity].
Qed.

(** Whatever [int] and [float] reject, a line of eight fields passes:
    the rejected field is replaced by [False]. *)
Lemma validate_eight_fields_never_raises (tokens : list string) :
  List.length tokens = 8%nat ->
  exists out, validate py_int py_float tokens = Ok out.
Proof.
  intros Hlen; unfold validate; rewrite Hlen; simpl.
  destruct (validate_from_total tokens 0) as [out [Hout _]]; eauto.
Qed.

Lemma validate_unparsed_cell_id (t0 t1 t2 t3 t4 t5 t6 t7 : string) :
  t0 <> ""%string -> py_int t0 = None ->
  exists rest,
    validate py_int py_float [t0; t1; t2; t3; t4; t5; t6; t7]
    = Ok (PBool false :: rest).
Proof.
  intros Hne Hbad; unfold validate; simpl.
  rewrite !validate_token_value; simpl.
  unfold is_int at 1. rewrite Hbad.
  destruct (String.eqb_spec t0 ""); [contradiction |].
  eexists; reflexivity.
Qed.
End ValidateFacts.

(** C4 (the code departs from the claim).  A line whose cell id is not a
    number is not refused: [validate] returns, with [False] in place of the
    cell id and of the unparsable SMS-out field. *)
Theorem validate_accepts_unparsable_fields :
  validate int_of_decimal float_of_decimal
           ["abc"; "1383260400000"; "39"; "0.25"; "x"; ""; "1.5"; "7"]%string
  = Ok [PBool false; PStr "1383260400000"; PInt 39; PFloat (25 # 100);
        PBool false; PStr ""; PFloat (15 # 10); PFloat 7].
Proof. vm_compute. reflexivity. Qed.

(** ** Aggregation of the daily extracts *)

Lemma set_mem_add (s : list Z) (z x : Z) :
  set_mem (set_add s z) x = (x =? z) || set_mem s x.
Proof.
  unfold set_mem, set_add.
  destruct (existsb (Z.eqb z) s) eqn:E.
  - destruct (Z.eqb_spec x z) as [-> |]; simpl; [now rewrite E | reflexivity].
  - rewrite existsb_app; simpl. rewrite orb_false_r, orb_comm. reflexivity.
Qed.

(** What the membership test of [aggregate_dates] accepts: the cells with
    two or more entries in the cell-to-block map. *)
Lemma milanNodes_spec {E : Type} (grid : dict Z (list E)) (x : Z) :
  set_mem (milanNodes grid) x = true <->
  exists blocks, In (x, blocks) grid /\ (1 < List.length blocks)%nat.
Proof.
  unfold milanNodes.
  assert (Hgen : forall acc,
             set_mem (fold_left
                        (fun nodes item =>
                           if (1 <? Z.of_nat (List.length (snd item)))
                           then set_add nodes (fst item) else nodes) grid acc) x = true
             <-> set_mem acc x = true
                 \/ exists blocks, In (x, blocks) grid /\ (1 < List.length blocks)%nat).
  { induction grid as [| [k bs] grid IH]; intros acc; simpl.
    - split; [auto | intros [Hx | [b [[] _]]]; exact Hx].
    - rewrite IH. destruct (Z.ltb_spec 1 (Z.of_nat (List.length bs))) as [Hlt | Hge].
      + rewrite set_mem_add. split.
        * intros [Hx | [b [Hin Hb]]]; [| right; exists b; auto].
          apply orb_true_iff in Hx as [Hx | Hx]; [| now left].
          apply Z.eqb_eq in Hx; subst k. right; exists bs; split; [now left | lia].
        * intros [Hx | [b [[Heq | Hin] Hb]]].
          -- left; rewrite Hx; apply orb_true_r.
          -- injection Heq as -> ->. left; now rewrite Z.eqb_refl.
          -- right; exists b; auto.
      + split.
        * intros [Hx | [b [Hin Hb]]]; [now left | right; exists b; auto].
        * intros [Hx | [b [[Heq | Hin] Hb]]]; [now left | | right; exists b; auto].
          injection Heq as -> ->. lia. }
  rewrite Hgen. simpl. split; [intros [H | H]; [discriminate | exact H] | now right].
Qed.

(** C5 (the code departs from the claim).  Cell 1 has one entry in the
    cell-to-block map, cells 2 and 3 have two: cell 1 is left out of the node
    universe, and the extract's edge from cell 1 to cell 2 is discarded. *)
Theorem aggregate_dates_drops_cell_with_one_block :
  let grid := [(1, [to_block 10]);
               (2, [to_block 10; to_block 20]);
               (3, [to_block 10; to_block 20])] in
  let extract := [(1, [(2, 5%Q)]); (2, [(3, 7%Q)])] in
  let graph := aggregate_dates grid [extract] in
  milanNodes grid = [2; 3]
  /\ has_node graph 1 = false
  /\ edge_weight graph 1 2 = None
  /\ edge_weight graph 2 3 = Some 7%Q.
Proof. vm_compute. repeat split. Qed.

(** ** The overlap mapper *)

Lemma Qltb_lt (x y : Q) : Qltb x y = true <-> (x < y)%Q.
Proof.
  unfold Qltb. rewrite negb_true_iff.
  destruct (Qle_bool y x) eqn:E.
  - apply Qle_bool_iff in E. split; [discriminate | intros Hlt; exfalso; lra].
  - split; [intros _ | reflexivity].
    destruct (Qlt_le_dec x y) as [Hlt | Hle]; [exact Hlt |].
    apply Qle_bool_iff in Hle. congruence.
Qed.

Lemma Qltb_ge (x y : Q) : Qltb x y = false <-> (y <= x)%Q.
Proof.
  unfold Qltb. rewrite negb_false_iff. apply Qle_bool_iff.
Qed.

Section SnapFacts.
Context {F : FloatArith}.

Lemma snap_low (p : Q) : (p < float_1e_4)%Q -> snap p = 0%Q.
Proof. intros Hp; unfold snap. apply Qltb_lt in Hp. now rewrite Hp. Qed.

Lemma snap_high (p : Q) :
  (float_1e_4 <= p)%Q -> (float_0_9999 < p)%Q -> snap p = 1%Q.
Proof.
  intros Hlow Hp; unfold snap.
  apply Qltb_ge in Hlow. apply Qltb_lt in Hp. now rewrite Hlow, Hp.
Qed.

Lemma snap_middle (p : Q) :
  (float_1e_4 <= p)%Q -> (p <= float_0_9999)%Q -> snap p = p.
Proof.
  intros Hlo Hhi; unfold snap.
  apply Qltb_ge in Hlo, Hhi. now rewrite Hlo, Hhi.
Qed.
End SnapFacts.

Section OverlapMapperFacts.
Context {F : FloatArith} {P : Type} `{Geometry P}.

Lemma cell_sections_filter (m : MilanPolygon P) (cs : list (CensusPolygon P)) :
  cell_sections m cs
  = map (make_section m)
        (filter (fun c => overlaps (mp_polygon m) (cp_polygon c)) cs).
Proof.
  unfold cell_sections.
  assert (Hgen : forall acc,
             fold_left
               (fun acc c =>
                  if overlaps (mp_polygon m) (cp_polygon c)
                  then acc ++ [make_section m c] else acc) cs acc
             = acc ++ map (make_section m)
                          (filter (fun c => overlaps (mp_polygon m) (cp_polygon c)) cs)).
  { induction cs as [| c cs IH]; intros acc; simpl.
    - now rewrite app_nil_r.
    - rewrite IH. destruct (overlaps (mp_polygon m) (cp_polygon c)); simpl.
      + now rewrite <- app_assoc.
      + reflexivity. }
  apply Hgen.
Qed.

Lemma overlap_grid_from (ms : list (MilanPolygon P)) (cs : list (CensusPolygon P))
      (grid0 : dict Z (list (MilanSection (CensusPolygon P)))) (id : Z) secs :
  dict_get
    (fold_left (fun grid m => dict_set grid (cellId m) (cell_sections m cs)) ms grid0) id
  = Some secs ->
  dict_get grid0 id = Some secs
  \/ exists m, In m ms /\ cellId m = id /\ secs = cell_sections m cs.
Proof.
  revert grid0; induction ms as [| m ms IH]; intros grid0; simpl; [auto |].
  intros Hget. apply IH in Hget as [Hget | [m' [Hin [Hid Hs]]]].
  - destruct (Z.eq_dec id (cellId m)) as [-> | Hne].
    + rewrite dict_get_set_same in Hget. injection Hget as <-.
      right; exists m; auto.
    + rewrite dict_get_set_other in Hget by exact Hne. now left.
  - right; exists m'; auto.
Qed.

(** Every list in the grid is the list of some cell of the input. *)
Lemma overlap_grid_get (ms : list (MilanPolygon P)) (cs : list (CensusPolygon P))
      (id : Z) secs :
  dict_get (overlap_grid ms cs) id = Some secs ->
  exists m, In m ms /\ cellId m = id /\ secs = cell_sections m cs.
Proof.
  intros Hget. apply overlap_grid_from in Hget as [Hget | Hm]; [discriminate | exact Hm].
Qed.

Lemma overlap_grid_untouched (ms : list (MilanPolygon P)) (cs : list (CensusPolygon P))
      (grid0 : dict Z (list (MilanSection (CensusPolygon P)))) (id : Z) :
  ~ In id (map cellId ms) ->
  dict_get
    (fold_left (fun grid m => dict_set grid (cellId m) (cell_sections m cs)) ms grid0) id
  = dict_get grid0 id.
Proof.
  revert grid0; induction ms as [| m ms IH]; intros grid0 Hnot; simpl; [reflexivity |].
  rewrite IH by (intros Hin; apply Hnot; now right).
  apply dict_get_set_other. intros ->. apply Hnot; now left.
Qed.

(** With one polygon per cell id, the grid holds each cell's own list. *)
Lemma overlap_grid_cell (ms : list (MilanPolygon P)) (cs : list (CensusPolygon P))
      (m : MilanPolygon P) :
  NoDup (map cellId ms) -> In m ms ->
  dict_get (overlap_grid ms cs) (cellId m) = Some (cell_sections m cs).
Proof.
  unfold overlap_grid. generalize (@nil (Z * list (MilanSection (CensusPolygon P)))).
  induction ms as [| a ms IH]; intros grid0 Hnd Hin; simpl; [destruct Hin |].
  inversion Hnd as [| ? ? Hnotin Hnd']; subst.
  destruct Hin as [-> | Hin].
  - rewrite overlap_grid_untouched by exact Hnotin. apply dict_get_set_same.
  - now apply IH.
Qed.

Lemma stripped_grid_get (grid : dict Z (list (MilanSection (CensusPolygon P)))) (id : Z) :
  dict_get (map (fun kv => (fst kv, map strip_polygon (snd kv))) grid) id
  = option_map (map strip_polygon) (dict_get grid id).
Proof.
  induction grid as [| [k v] grid IH]; simpl; [reflexivity |].
  destruct (id =? k); [reflexivity | exact IH].
Qed.
End OverlapMapperFacts.

Lemma snap_compared (division : Q -> Q -> Q) (p : Q) :
  compared_with_thresholds p (snap (F := binary64 division) p).
Proof.
  unfold compared_with_thresholds. repeat split.
  - intros Hp. now apply (snap_low (F := binary64 division)).
  - intros Hp. apply (snap_high (F := binary64 division)); [| exact Hp].
    cbn [float_1e_4 float_0_9999 binary64] in *. unfold double_1e_4, double_0_9999 in *. lra.
  - intros Hlo Hhi. now apply (snap_middle (F := binary64 division)).
Qed.

(** C6, as the code has it.  Every entry of the persisted cell-to-block map
    comes from a cell and a census polygon of the input, and each of its two
    percentages is obtained from its own quotient alone, by two strict
    comparisons with the doubles [1e-4] and [0.9999]: a quotient below
    [1e-4] is replaced by 0, a quotient above [0.9999] by 1, and any other
    quotient, the two thresholds included, is kept as it is.  [division] is
    the division of two doubles, whatever its rounding. *)
Theorem percentages_snapped_independently :
  forall (division : Q -> Q -> Q) (P : Type) (G : Geometry P)
         (ms : list (MilanPolygon P)) (cs : list (CensusPolygon P))
         (id : Z) (secs : list (MilanSection CensusCodes)) (s : MilanSection CensusCodes),
    dict_get (create_sezioni_censimento_millan_grid_map (F := binary64 division) ms cs) id
    = Some secs ->
    In s secs ->
    exists m c,
      In m ms /\ In c cs /\ cellId m = id /\ censusCodes s = cp_codes c
      /\ overlaps (mp_polygon m) (cp_polygon c) = true
      /\ compared_with_thresholds
           (division (intersection_area (mp_polygon m) (cp_polygon c))
                     (area (mp_polygon m)))
           (milanAreaPercentage s)
      /\ compared_with_thresholds
           (division (intersection_area (mp_polygon m) (cp_polygon c))
                     (area (cp_polygon c)))
           (censusAreaPercentage s).
Proof.
  intros division P G ms cs id secs s Hget Hin.
  unfold create_sezioni_censimento_millan_grid_map in Hget.
  rewrite stripped_grid_get in Hget.
  destruct (dict_get (overlap_grid (F := binary64 division) ms cs) id) as [raw |] eqn:Hraw;
    [| discriminate].
  injection Hget as <-.
  apply overlap_grid_get in Hraw as [m [Hm [Hid ->]]].
  rewrite cell_sections_filter in Hin.
  apply in_map_iff in Hin as [s0 [<- Hs0]].
  apply in_map_iff in Hs0 as [c [<- Hc]].
  apply filter_In in Hc as [Hc Hover].
  exists m, c. repeat split; auto; apply snap_compared.
Qed.

Lemma percentages_snapped_independently_witness :
  exists m c,
    In m [cell_1] /\ In c [block_10] /\ cellId m = 1
    /\ censusCodes (strip_polygon (make_section (F := binary64 Qdiv) cell_1 block_10))
       = cp_codes c
    /\ overlaps (mp_polygon m) (cp_polygon c) = true
    /\ compared_with_thresholds
         (intersection_area (mp_polygon m) (cp_polygon c) / area (mp_polygon m))
         (milanAreaPercentage
            (strip_polygon (make_section (F := binary64 Qdiv) cell_1 block_10)))
    /\ compared_with_thresholds
         (intersection_area (mp_polygon m) (cp_polygon c) / area (cp_polygon c))
         (censusAreaPercentage
            (strip_polygon (make_section (F := binary64 Qdiv) cell_1 block_10))).
Proof.
  apply (percentages_snapped_independently Qdiv Rect Rect_Geometry
           [cell_1] [block_10] 1
           [strip_polygon (make_section (F := binary64 Qdiv) cell_1 block_10)]
           (strip_polygon (make_section (F := binary64 Qdiv) cell_1 block_10))).
  - reflexivity.
  - simpl; left; reflexivity.
Defined.

(** C6, as the specification words it, fails.  The cell is 2^52 wide and
    the block covers 4503149267407759 of it: the source-side quotient is the
    double 0.9999, exactly.  It lies within 1e-4 of 1, so the specification
    has it replaced by 1; the code tests [p > 0.9999], which is false, and
    persists 0.9999. *)
Lemma threshold_value_is_kept :
  let p := (intersection_area (mp_polygon threshold_cell) (cp_polygon threshold_block)
            / area (mp_polygon threshold_cell))%Q in
  (p == double_0_9999)%Q
  /\ within_tolerance p 1
  /\ exists s,
      dict_get (create_sezioni_censimento_millan_grid_map
                  (F := binary64 Qdiv) [threshold_cell] [threshold_block]) 1
      = Some [s]
      /\ (milanAreaPercentage s == double_0_9999)%Q
      /\ ~ (milanAreaPercentage s == 1)%Q
      /\ censusAreaPercentage s = 1%Q
      /\ ~ snapped_to_boundary p (milanAreaPercentage s).
Proof.
  cbv zeta. split; [vm_compute; reflexivity |]. split.
  - unfold within_tolerance. vm_compute. reflexivity.
  - eexists. split; [vm_compute; reflexivity |].
    split; [vm_compute; reflexivity |].
    split; [vm_compute; discriminate |].
    split; [reflexivity |].
    unfold snapped_to_boundary. intros [_ [Hone _]].
    assert (Hw : within_tolerance
                   (intersection_area (mp_polygon threshold_cell)
                                      (cp_polygon threshold_block)
                    / area (mp_polygon threshold_cell)) 1)
      by (unfold within_tolerance; vm_compute; reflexivity).
    specialize (Hone Hw). vm_compute in Hone. discriminate.
Qed.

Section Containment.
Context {P : Type} `{Geometry P}.

Lemma cell_sections_skip (m : MilanPolygon P) (c : CensusPolygon P)
      (cs1 cs2 : list (CensusPolygon P)) :
  overlaps (mp_polygon m) (cp_polygon c) = false ->
  cell_sections m (cs1 ++ c :: cs2) = cell_sections m (cs1 ++ cs2).
Proof.
  intros Hno. rewrite !cell_sections_filter, !filter_app. simpl. now rewrite Hno.
Qed.

Lemma cell_sections_overlap (m : MilanPolygon P) (cs : list (CensusPolygon P)) s :
  In s (cell_sections m cs) ->
  overlaps (mp_polygon m) (cp_polygon (censusCodes s)) = true.
Proof.
  rewrite cell_sections_filter. intros Hin.
  apply in_map_iff in Hin as [c [<- Hc]].
  apply filter_In in Hc as [_ Hc]. exact Hc.
Qed.

Lemma contained_not_overlapping (a b : P) :
  overlaps_excludes_containment ->
  within a b = true \/ within b a = true -> overlaps a b = false.
Proof.
  intros Hsh Hc. destruct (overlaps a b) eqn:E; [| reflexivity].
  destruct (Hsh a b E) as [H1 H2]. destruct Hc; congruence.
Qed.
End Containment.

(** C10.  When a cell lies within a census polygon, or a census polygon
    within a cell, the mapper records nothing for the pair: the cell's list
    has no entry for that polygon, and the persisted list of the cell is the
    one it would be with the polygon absent from the input. *)
Theorem containment_yields_no_record :
  forall (P : Type) (G : Geometry P)
         (ms : list (MilanPolygon P)) (cs1 cs2 : list (CensusPolygon P))
         (m : MilanPolygon P) (c : CensusPolygon P),
    overlaps_excludes_containment ->
    NoDup (map cellId ms) -> In m ms ->
    within (mp_polygon m) (cp_polygon c) = true
    \/ within (cp_polygon c) (mp_polygon m) = true ->
    (exists secs,
        dict_get (overlap_grid ms (cs1 ++ c :: cs2)) (cellId m) = Some secs
        /\ forall s, In s secs -> censusCodes s <> c)
    /\ dict_get (create_sezioni_censimento_millan_grid_map ms (cs1 ++ c :: cs2)) (cellId m)
       = dict_get (create_sezioni_censimento_millan_grid_map ms (cs1 ++ cs2)) (cellId m).
Proof.
  intros P G ms cs1 cs2 m c Hsh Hnd Hm Hcont.
  pose proof (contained_not_overlapping _ _ Hsh Hcont) as Hno.
  split.
  - exists (cell_sections m (cs1 ++ c :: cs2)). split.
    + now apply overlap_grid_cell.
    + intros s Hs Heq. apply cell_sections_overlap in Hs.
      rewrite Heq in Hs. congruence.
  - unfold create_sezioni_censimento_millan_grid_map.
    rewrite !stripped_grid_get, !overlap_grid_cell by assumption.
    now rewrite cell_sections_skip.
Qed.

Lemma rect_overlaps_excludes_containment :
  @overlaps_excludes_containment Rect Rect_Geometry.
Proof.
  intros a b; simpl; unfold rect_overlaps; intros Ho.
  apply andb_true_iff in Ho as [Ho Hba]. apply andb_true_iff in Ho as [_ Hab].
  apply negb_true_iff in Hab, Hba. auto.
Qed.

Lemma containment_yields_no_record_witness :
  (exists secs,
      dict_get (overlap_grid [cell_inside] ([] ++ block_around :: [block_across]))
               (cellId cell_inside) = Some secs
      /\ forall s, In s secs -> censusCodes s <> block_around)
  /\ dict_get (create_sezioni_censimento_millan_grid_map
                 [cell_inside] ([] ++ block_around :: [block_across]))
              (cellId cell_inside)
     = dict_get (create_sezioni_censimento_millan_grid_map
                   [cell_inside] ([] ++ [block_across]))
                (cellId cell_inside).
Proof.
  apply (containment_yields_no_record Rect Rect_Geometry
           [cell_inside] [] [block_across] cell_inside block_around).
  - exact rect_overlaps_excludes_containment.
  - simpl; constructor; [intros [] | constructor].
  - simpl; left; reflexivity.
  - left; reflexivity.
Defined.

(** ** Edge accumulation *)

Section GraphFacts.
Context {N : Type} `{Hashable N}.

Lemma joins_same_pair (u v a b : N) (w : Q) :
  joins u v (a, b, w) = true <-> same_pair u v a b.
Proof.
  unfold joins, same_pair.
  rewrite orb_true_iff, !andb_true_iff.
  split; intros [[H1 H2] | [H1 H2]].
  - left; split; now apply key_eqb_eq.
  - right; split; now apply key_eqb_eq.
  - left; subst; now rewrite !key_eqb_refl.
  - right; subst; now rewrite !key_eqb_refl.
Qed.

Lemma joins_other (u v u' v' a b : N) (w : Q) :
  ~ same_pair u' v' u v ->
  joins u v (a, b, w) = true -> joins u' v' (a, b, w) = false.
Proof.
  intros Hne Hj. apply joins_same_pair in Hj.
  destruct (joins u' v' (a, b, w)) eqn:E; [| reflexivity].
  apply joins_same_pair in E. exfalso; apply Hne.
  unfold same_pair in *. intuition congruence.
Qed.

Lemma find_set_weight_same (es : list (N * N * Q)) (u v : N) (w : Q) :
  exists a b, find (joins u v) (set_weight es u v w) = Some (a, b, w).
Proof.
  induction es as [| [[a b] w0] es IH]; simpl.
  - exists u, v. unfold joins. now rewrite !key_eqb_refl.
  - destruct (joins u v (a, b, w0)) eqn:E; simpl.
    + exists a, b. change (joins u v (a, b, w)) with (joins u v (a, b, w0)).
      now rewrite E.
    + rewrite E. exact IH.
Qed.

Lemma find_set_weight_other (es : list (N * N * Q)) (u v u' v' : N) (w : Q) :
  ~ same_pair u' v' u v ->
  find (joins u' v') (set_weight es u v w) = find (joins u' v') es.
Proof.
  intros Hne. induction es as [| [[a b] w0] es IH]; simpl.
  - destruct (joins u' v' (u, v, w)) eqn:E; [| reflexivity].
    apply joins_same_pair in E. contradiction.
  - destruct (joins u v (a, b, w0)) eqn:E; simpl.
    + rewrite (joins_other u v u' v' a b w0 Hne E).
      now rewrite (joins_other u v u' v' a b w Hne E).
    + destruct (joins u' v' (a, b, w0)); [reflexivity | exact IH].
Qed.

Lemma edge_weight_add_node (g : Graph N) (n u v : N) :
  edge_weight (add_node g n) u v = edge_weight g u v.
Proof. unfold add_node, edge_weight. now destruct (has_node g n). Qed.

Lemma g_edges_add_node (g : Graph N) (n : N) : g_edges (add_node g n) = g_edges g.
Proof. unfold add_node. now destruct (has_node g n). Qed.

Lemma edge_weight_add_weight_same (g : Graph N) (u v : N) (w : Q) :
  edge_weight (add_weight g u v w) u v = Some (accumulated (edge_weight g u v) w).
Proof.
  unfold add_weight. destruct (edge_weight g u v) as [old |] eqn:E; simpl.
  - unfold edge_weight; simpl.
    destruct (find_set_weight_same (g_edges g) u v (old + w)) as [a [b ->]]. reflexivity.
  - unfold add_edge, edge_weight; simpl.
    destruct (find_set_weight_same
                (g_edges (add_node (add_node g u) v)) u v w) as [a [b ->]].
    reflexivity.
Qed.

Lemma edge_weight_add_weight_other (g : Graph N) (u v u' v' : N) (w : Q) :
  ~ same_pair u' v' u v ->
  edge_weight (add_weight g u v w) u' v' = edge_weight g u' v'.
Proof.
  intros Hne. unfold add_weight. destruct (edge_weight g u v) as [old |]; simpl.
  - unfold edge_weight; simpl. now rewrite find_set_weight_other.
  - unfold add_edge, edge_weight; simpl.
    rewrite find_set_weight_other by exact Hne. now rewrite !g_edges_add_node.
Qed.

Lemma edge_weight_sym (g : Graph N) (u v : N) : edge_weight g u v = edge_weight g v u.
Proof.
  unfold edge_weight.
  assert (Hj : forall e, joins u v e = joins v u e).
  { intros [[a b] w]; unfold joins.
    rewrite orb_comm, (andb_comm (key_eqb u b)), (andb_comm (key_eqb u a)). reflexivity. }
  induction (g_edges g) as [| e es IH]; simpl; [reflexivity |].
  rewrite Hj. destruct (joins v u e); [reflexivity | exact IH].
Qed.
End GraphFacts.

(** ** Accumulated weights as sums of contributions

    A contribution is (u, v, w): the weight [w] added onto the edge
    [u]-[v].  The edge list of a graph built by accumulation is the fold of
    [accumulate_edge] over the contributions made, and the weight it holds
    for a pair is the sum of the contributions made to that pair. *)

Section Contributions.
Context {N : Type} `{Hashable N}.

Lemma edge_weight_weight_in (g : Graph N) (u v : N) :
  edge_weight g u v = weight_in (g_edges g) u v.
Proof. reflexivity. Qed.

Lemma g_edges_add_weight (g : Graph N) (u v : N) (w : Q) :
  g_edges (add_weight g u v w) = accumulate_edge (g_edges g) (u, v, w).
Proof.
  unfold add_weight, accumulate_edge. rewrite edge_weight_weight_in.
  destruct (weight_in (g_edges g) u v); simpl; [reflexivity |].
  now rewrite !g_edges_add_node.
Qed.

Lemma weight_in_sym (es : list (N * N * Q)) (u v : N) :
  weight_in es u v = weight_in es v u.
Proof. exact (edge_weight_sym (mkGraph [] es) u v). Qed.

Lemma weight_in_accumulate_same (es : list (N * N * Q)) (u v : N) (c : N * N * Q) :
  joins u v c = true ->
  weight_in (accumulate_edge es c) u v = Some (accumulated (weight_in es u v) (snd c)).
Proof.
  destruct c as [[a b] w]; intros Hj; simpl.
  apply joins_same_pair in Hj as [[-> ->] | [-> ->]].
  - unfold weight_in at 1.
    destruct (find_set_weight_same es a b (accumulated (weight_in es a b) w))
      as [x [y ->]]. reflexivity.
  - rewrite weight_in_sym, (weight_in_sym es b a). unfold weight_in at 1.
    destruct (find_set_weight_same es a b (accumulated (weight_in es a b) w))
      as [x [y ->]]. reflexivity.
Qed.

Lemma weight_in_accumulate_other (es : list (N * N * Q)) (u v : N) (c : N * N * Q) :
  joins u v c = false ->
  weight_in (accumulate_edge es c) u v = weight_in es u v.
Proof.
  destruct c as [[a b] w]; intros Hj; simpl. unfold weight_in.
  rewrite find_set_weight_other; [reflexivity |].
  intros Hsp. apply (joins_same_pair u v a b w) in Hsp. congruence.
Qed.

(** The weight held for [u]-[v] after the contributions [cs], from the
    weight held before. *)
Lemma weight_in_fold (u v : N) (cs : list (N * N * Q)) :
  forall es,
    match weight_in es u v with
    | Some w0 =>
        exists w, weight_in (fold_left accumulate_edge cs es) u v = Some w
                  /\ (w == w0 + pair_total u v cs)%Q
    | None =>
        if pair_visited u v cs
        then exists w, weight_in (fold_left accumulate_edge cs es) u v = Some w
                       /\ (w == pair_total u v cs)%Q
        else weight_in (fold_left accumulate_edge cs es) u v = None
    end.
Proof.
  induction cs as [| c cs IH]; intros es; simpl.
  - destruct (weight_in es u v) as [w0 |]; [| reflexivity].
    exists w0; split; [reflexivity | ring].
  - specialize (IH (accumulate_edge es c)).
    destruct (joins u v c) eqn:Hj; simpl.
    + rewrite (weight_in_accumulate_same es u v c Hj) in IH.
      destruct IH as [w [Hw Heq]].
      destruct (weight_in es u v) as [w0 |]; simpl in Heq;
        exists w; (split; [exact Hw |]); rewrite Heq; ring.
    + rewrite (weight_in_accumulate_other es u v c Hj) in IH. exact IH.
Qed.

(** From no edges at all. *)
Lemma weight_in_contributions (u v : N) (cs : list (N * N * Q)) :
  if pair_visited u v cs
  then exists w, weight_in (fold_left accumulate_edge cs []) u v = Some w
                 /\ (w == pair_total u v cs)%Q
  else weight_in (fold_left accumulate_edge cs []) u v = None.
Proof. exact (weight_in_fold u v cs []). Qed.

Lemma weight_in_halved (es : list (N * N * Q)) (u v : N) :
  weight_in (map (fun e => (fst (fst e), snd (fst e), (snd e / 2)%Q)) es) u v
  = option_map (fun w => (w / 2)%Q) (weight_in es u v).
Proof.
  unfold weight_in. induction es as [| [[a b] w] es IH]; simpl; [reflexivity |].
  change (joins u v (a, b, (w / 2)%Q)) with (joins u v (a, b, w)).
  destruct (joins u v (a, b, w)); [reflexivity | exact IH].
Qed.

(** A loop that may raise, seen through the edge list of its state: when
    each step folds the contributions [h x] into the edges, the loop folds
    those of all the steps, in order. *)
Lemma for_each_edges {A S : Type} (E : S -> list (N * N * Q)) (h : A -> list (N * N * Q))
      (body : S -> A -> result S) (xs : list A) :
  (forall s x s', In x xs -> body s x = Ok s' ->
                  E s' = fold_left accumulate_edge (h x) (E s)) ->
  forall s s', for_each xs body s = Ok s' ->
               E s' = fold_left accumulate_edge (flat_map h xs) (E s).
Proof.
  induction xs as [| x xs IH]; intros Hstep s s'; simpl.
  - intros [= <-]. reflexivity.
  - destruct (body s x) as [s1 | e] eqn:Hb; simpl; [| discriminate].
    intros Hrest. rewrite fold_left_app.
    rewrite <- (Hstep s x s1 (or_introl eq_refl) Hb).
    apply IH; [| exact Hrest].
    intros t y t' Hy. apply Hstep. now right.
Qed.
End Contributions.

(** ** Block-to-block redistribution *)

Section BlockContributions.
Variable cellsGraph : Graph Z.
Variable cellsMap : dict Z (list (MilanSection CensusCodes)).

(** One visit: the weight of the edge from [SEZ] to the far block grows by
    the contribution (or the edge is created with it), and the other edges
    keep their weights. *)
Lemma visit_blockTo_adds SEZ cellFrom edgeWeight (g : Graph Z) blockTo :
  let destSEZ2011 := SEZ2011 (censusCodes blockTo) in
  let g' := visit_blockTo SEZ cellFrom edgeWeight g blockTo in
  edge_weight g' SEZ destSEZ2011
  = Some (accumulated (edge_weight g SEZ destSEZ2011)
                      (edgeWeight * censusAreaPercentage (copied cellFrom)
                       * censusAreaPercentage blockTo)%Q)
  /\ forall u v, ~ same_pair u v SEZ destSEZ2011 -> edge_weight g' u v = edge_weight g u v.
Proof.
  cbv zeta. unfold visit_blockTo. split.
  - rewrite edge_weight_add_weight_same. now rewrite !edge_weight_add_node.
  - intros u v Hne. rewrite edge_weight_add_weight_other by exact Hne.
    apply edge_weight_add_node.
Qed.

Lemma g_edges_visit_blockTo SEZ cellFrom edgeWeight g blockTo :
  g_edges (visit_blockTo SEZ cellFrom edgeWeight g blockTo)
  = accumulate_edge (g_edges g) (block_contribution SEZ cellFrom edgeWeight blockTo).
Proof.
  unfold visit_blockTo, block_contribution.
  now rewrite g_edges_add_weight, g_edges_add_node.
Qed.

Lemma g_edges_visit_blocksTo SEZ cellFrom edgeWeight blocksTo :
  forall g,
    g_edges (fold_left (visit_blockTo SEZ cellFrom edgeWeight) blocksTo g)
    = fold_left accumulate_edge
                (map (block_contribution SEZ cellFrom edgeWeight) blocksTo) (g_edges g).
Proof.
  induction blocksTo as [| b bs IH]; intros g; simpl; [reflexivity |].
  now rewrite IH, g_edges_visit_blockTo.
Qed.

Lemma g_edges_visit_edge SEZ cellFrom g edge g' :
  visit_edge cellsMap SEZ cellFrom g edge = Ok g' ->
  g_edges g'
  = fold_left accumulate_edge (edge_contributions cellsMap SEZ cellFrom edge) (g_edges g).
Proof.
  destruct edge as [[from to] w]. unfold visit_edge, edge_contributions, far_blocks, dict_index.
  simpl. destruct (dict_get cellsMap to) as [blocksTo |]; simpl; [| discriminate].
  intros [= <-]. apply g_edges_visit_blocksTo.
Qed.

Lemma g_edges_visit_cellFrom SEZ g cellFrom g' :
  visit_cellFrom cellsGraph cellsMap SEZ g cellFrom = Ok g' ->
  g_edges g'
  = fold_left accumulate_edge (cell_contributions cellsGraph cellsMap SEZ cellFrom)
              (g_edges g).
Proof.
  unfold visit_cellFrom, cell_contributions.
  apply (for_each_edges (@g_edges Z) (edge_contributions cellsMap SEZ cellFrom)).
  intros s x s' _. apply g_edges_visit_edge.
Qed.

Lemma g_edges_visit_block g item g' :
  visit_block cellsGraph cellsMap g item = Ok g' ->
  g_edges g' = fold_left accumulate_edge (block_contributions cellsGraph cellsMap item) (g_edges g).
Proof.
  unfold visit_block, block_contributions. intros Hv.
  rewrite <- (g_edges_add_node g (fst item)).
  revert Hv.
  apply (for_each_edges (@g_edges Z) (cell_contributions cellsGraph cellsMap (fst item))).
  intros s x s' _. apply g_edges_visit_cellFrom.
Qed.

Lemma g_edges_accumulate_blocks blocksMap g :
  accumulate_blocks cellsGraph cellsMap blocksMap = Ok g ->
  g_edges g = fold_left accumulate_edge (contributions cellsGraph cellsMap blocksMap) [].
Proof.
  unfold accumulate_blocks, contributions.
  apply (for_each_edges (@g_edges Z) (block_contributions cellsGraph cellsMap)
                        (visit_block cellsGraph cellsMap) blocksMap).
  intros s x s' _. apply g_edges_visit_block.
Qed.
End BlockContributions.

(** C1, as the code has it.  The weight [create_census_blocks_graph] leaves
    on a block-to-block edge is half the sum of the contributions made to
    that pair of blocks, one contribution per source edge reported from a
    cell of one block and per overlap entry of the far cell, and each
    contribution is the source edge's weight times the census-side
    percentage of the from-cell's entry (intersection area over the area of
    the from-block's polygon) times the census-side percentage of the
    to-cell's entry (intersection area over the area of the to-block's
    polygon).  A pair that receives no contribution has no edge. *)
Theorem block_edge_weight_is_halved_sum :
  forall (blocksMap : dict Z (list BlockCell)) (cellsGraph : Graph Z)
         (cellsMap : dict Z (list (MilanSection CensusCodes))) (g : Graph Z),
    create_census_blocks_graph blocksMap cellsGraph cellsMap = Ok g ->
    forall u v : Z,
      if pair_visited u v (contributions cellsGraph cellsMap blocksMap)
      then exists w,
          edge_weight g u v = Some w
          /\ (w == pair_total u v (contributions cellsGraph cellsMap blocksMap) / 2)%Q
      else edge_weight g u v = None.
Proof.
  intros blocksMap cellsGraph cellsMap g Hrun u v.
  unfold create_census_blocks_graph in Hrun.
  destruct (accumulate_blocks cellsGraph cellsMap blocksMap) as [g0 | e] eqn:Hacc;
    simpl in Hrun; [| discriminate].
  injection Hrun as <-.
  apply g_edges_accumulate_blocks in Hacc.
  rewrite edge_weight_weight_in. unfold halve_weights; simpl.
  rewrite weight_in_halved, Hacc.
  pose proof (weight_in_contributions u v (contributions cellsGraph cellsMap blocksMap)) as Hsum.
  destruct (pair_visited u v (contributions cellsGraph cellsMap blocksMap)).
  - destruct Hsum as [w [-> Hw]]. simpl. eexists; split; [reflexivity |].
    now rewrite Hw.
  - now rewrite Hsum.
Qed.

(** A loop returns when its body does. *)
Lemma for_each_returns {A S : Type} (xs : list A) (body : S -> A -> result S) :
  (forall s x, In x xs -> exists s', body s x = Ok s') ->
  forall s, exists s', for_each xs body s = Ok s'.
Proof.
  induction xs as [| x xs IH]; intros Hb s; simpl.
  - now exists s.
  - destruct (Hb s x (or_introl eq_refl)) as [s1 ->]; simpl.
    apply IH. intros t y Hy. apply Hb. now right.
Qed.

Lemma edges_of_In {N : Type} `{Hashable N} (g : Graph N) (n a b : N) (w : Q) :
  In (a, b, w) (edges_of g n) ->
  a = n /\ (In (n, b, w) (g_edges g) \/ In (b, n, w) (g_edges g)).
Proof.
  unfold edges_of. destruct (has_node g n); [| intros []].
  induction (g_edges g) as [| [[x y] w0] es IH]; simpl; [intros [] |].
  destruct (key_eqb_spec n x) as [-> | Hnx]; simpl.
  - intros [[= <- <- <-] | Hin]; [split; auto |].
    destruct (IH Hin) as [-> [Hl | Hr]]; auto.
  - destruct (key_eqb_spec n y) as [-> | Hny]; simpl.
    + intros [[= <- <- <-] | Hin]; [split; auto |].
      destruct (IH Hin) as [-> [Hl | Hr]]; auto.
    + intros Hin. destruct (IH Hin) as [-> [Hl | Hr]]; auto.
Qed.

(** The redistribution returns whenever every cell that ends an edge of the
    cell graph is a key of the cell-to-block map. *)
Lemma accumulate_blocks_returns (cellsGraph : Graph Z)
      (cellsMap : dict Z (list (MilanSection CensusCodes)))
      (blocksMap : dict Z (list BlockCell)) :
  (forall a b w, In (a, b, w) (g_edges cellsGraph) ->
                 dict_get cellsMap a <> None /\ dict_get cellsMap b <> None) ->
  exists g, accumulate_blocks cellsGraph cellsMap blocksMap = Ok g.
Proof.
  intros Hkeys. unfold accumulate_blocks. apply for_each_returns.
  intros g [SEZ cellsFrom] _. unfold visit_block; simpl. apply for_each_returns.
  intros g1 cellFrom _. unfold visit_cellFrom. apply for_each_returns.
  intros g2 [[from to] w] Hin. apply edges_of_In in Hin as [_ Hin].
  unfold visit_edge, dict_index.
  assert (Hto : dict_get cellsMap to <> None).
  { destruct Hin as [Hin | Hin]; apply Hkeys in Hin; tauto. }
  destruct (dict_get cellsMap to) as [blocksTo |]; [| contradiction].
  simpl. eauto.
Qed.

Section SingleEdge.
Variables A B : Z.
Variable W : Q.
Variables eA eB : MilanSection CensusCodes.
Hypothesis HAB : A <> B.

Lemma single_AB : (A =? B) = false.
Proof. now apply Z.eqb_neq. Qed.

Lemma single_BA : (B =? A) = false.
Proof. apply Z.eqb_neq; congruence. Qed.

Lemma single_edges : g_edges (single_cellsGraph A B W) = [(A, B, W)].
Proof.
  unfold single_cellsGraph, add_edge; simpl. now rewrite !g_edges_add_node.
Qed.

Lemma single_edges_of_A : edges_of (single_cellsGraph A B W) A = [(A, B, W)].
Proof.
  unfold edges_of, single_cellsGraph, add_edge, add_node, has_node, dict_has.
  cbn. rewrite single_BA. cbn. now rewrite !Z.eqb_refl.
Qed.

Lemma single_edges_of_B : edges_of (single_cellsGraph A B W) B = [(B, A, W)].
Proof.
  unfold edges_of, single_cellsGraph, add_edge, add_node, has_node, dict_has.
  cbn. rewrite single_BA. cbn. now rewrite !Z.eqb_refl, !single_BA.
Qed.

(** The edge is visited once from each endpoint, and both visits land on
    the edge between the two blocks. *)
Lemma single_contributions :
  contributions (single_cellsGraph A B W) (single_cellsMap A B eA eB)
                (single_blocksMap A B eA eB)
  = [block_contribution (SEZ2011 (censusCodes eA)) (mkBlockCell A eA) W eB;
     block_contribution (SEZ2011 (censusCodes eB)) (mkBlockCell B eB) W eA].
Proof.
  unfold contributions, single_blocksMap, milan_grid_census_blocks_map_reverse.
  cbn. unfold dict_append. cbn.
  destruct (Z.eqb_spec (SEZ2011 (censusCodes eB)) (SEZ2011 (censusCodes eA))) as [E | E];
    cbn; unfold cell_contributions; cbn [cellID];
    rewrite single_edges_of_A, single_edges_of_B;
    unfold edge_contributions, far_blocks; cbn;
    rewrite ?Z.eqb_refl, ?single_AB, ?single_BA; cbn.
  - now rewrite E.
  - reflexivity.
Qed.

Lemma single_accumulated (g0 : Graph Z) :
  accumulate_blocks (single_cellsGraph A B W) (single_cellsMap A B eA eB)
                    (single_blocksMap A B eA eB) = Ok g0 ->
  g_edges g0
  = [(SEZ2011 (censusCodes eA), SEZ2011 (censusCodes eB),
      (W * censusAreaPercentage eA * censusAreaPercentage eB
       + W * censusAreaPercentage eB * censusAreaPercentage eA)%Q)].
Proof.
  intros Hacc. apply g_edges_accumulate_blocks in Hacc.
  rewrite Hacc, single_contributions. unfold block_contribution; cbn.
  unfold weight_in, joins; cbn. rewrite !Z.eqb_refl. cbn.
  now rewrite orb_true_r.
Qed.

Lemma single_returns :
  exists g0,
    accumulate_blocks (single_cellsGraph A B W) (single_cellsMap A B eA eB)
                      (single_blocksMap A B eA eB) = Ok g0.
Proof.
  apply accumulate_blocks_returns. intros a b w Hin.
  rewrite single_edges in Hin. destruct Hin as [[= <- <- <-] | []].
  unfold single_cellsMap; cbn. rewrite Z.eqb_refl, single_BA, Z.eqb_refl.
  split; discriminate.
Qed.
End SingleEdge.

Lemma example_blocksGraph_run :
  create_census_blocks_graph example_blocksMap example_cellsGraph example_cellsMap
  = Ok example_blocksGraph.
Proof. vm_compute. reflexivity. Qed.

Lemma block_edge_weight_is_halved_sum_witness :
  exists w,
    edge_weight example_blocksGraph 10 20 = Some w
    /\ (w == pair_total 10%Z 20%Z
               (contributions example_cellsGraph example_cellsMap example_blocksMap) / 2)%Q.
Proof.
  exact (block_edge_weight_is_halved_sum
           example_blocksMap example_cellsGraph example_cellsMap example_blocksGraph
           example_blocksGraph_run 10 20).
Defined.

(** C1, as the specification words it, fails.  In the run above, the visit
    from block 10 through cell 1 to block 20 adds 8 * 1/4 * 1/2 = 1, the
    from-side factor being the share of block 10 that the overlap takes (1/4),
    not the share of cell 1 (1/2), which would make it 2. *)
Lemma block_contribution_is_not_source_side :
  let cellFrom := mkBlockCell 1 (strip_polygon (make_section cell_1 block_10)) in
  let blockTo := strip_polygon (make_section cell_2 block_20) in
  dict_get example_blocksMap 10 = Some [cellFrom]
  /\ edges_of example_cellsGraph 1 = [(1, 2, 8%Q)]
  /\ dict_get example_cellsMap 2 = Some [blockTo]
  /\ exists w,
      edge_weight (visit_blockTo 10 cellFrom 8 (add_node empty_graph 10) blockTo) 10 20
      = Some w
      /\ (w == 1)%Q
      /\ (claimed_block_contribution 8 cellFrom blockTo == 2)%Q
      /\ ~ (w == claimed_block_contribution 8 cellFrom blockTo)%Q.
Proof.
  cbv zeta. split; [reflexivity |]. split; [reflexivity |]. split; [reflexivity |].
  eexists. split; [vm_compute; reflexivity |].
  split; [reflexivity |]. split; [reflexivity |].
  intros Heq. vm_compute in Heq. discriminate.
Qed.

(** C2, as the code has it.  One edge of weight [W] between two cells, each
    with one overlap entry, and both entries with a census-side percentage
    of 1 (the overlap is the whole of the block): the edge is visited once
    from each cell, both visits land on the edge between the two blocks, the
    accumulated weight [W + W] is halved once, and the block graph has that
    one edge, of weight [W]. *)
Theorem single_edge_weight_conserved :
  forall (A B : Z) (W : Q) (eA eB : MilanSection CensusCodes),
    A <> B ->
    (censusAreaPercentage eA == 1)%Q ->
    (censusAreaPercentage eB == 1)%Q ->
    let X := SEZ2011 (censusCodes eA) in
    let Y := SEZ2011 (censusCodes eB) in
    let cellsGraph := single_cellsGraph A B W in
    let cellsMap := single_cellsMap A B eA eB in
    let blocksMap := single_blocksMap A B eA eB in
    contributions cellsGraph cellsMap blocksMap
    = [block_contribution X (mkBlockCell A eA) W eB;
       block_contribution Y (mkBlockCell B eB) W eA]
    /\ exists g0 w0 w,
        accumulate_blocks cellsGraph cellsMap blocksMap = Ok g0
        /\ g_edges g0 = [(X, Y, w0)] /\ (w0 == W + W)%Q
        /\ create_census_blocks_graph blocksMap cellsGraph cellsMap = Ok (halve_weights g0)
        /\ g_edges (halve_weights g0) = [(X, Y, w)] /\ (w == W)%Q.
Proof.
  intros A B W eA eB HAB HcA HcB X Y cellsGraph cellsMap blocksMap.
  split; [now apply single_contributions |].
  destruct (single_returns A B W eA eB HAB) as [g0 Hacc].
  pose proof (single_accumulated A B W eA eB HAB g0 Hacc) as Hedges.
  exists g0. eexists. eexists.
  split; [exact Hacc |]. split; [exact Hedges |].
  split; [rewrite HcA, HcB; ring |].
  split; [unfold create_census_blocks_graph; fold cellsGraph cellsMap blocksMap;
          unfold cellsGraph, cellsMap, blocksMap; now rewrite Hacc |].
  split; [unfold halve_weights; simpl; rewrite Hedges; reflexivity |].
  simpl. rewrite HcA, HcB. field.
Qed.

Lemma single_edge_weight_conserved_witness :
  contributions (single_cellsGraph 1 2 8)
                (single_cellsMap 1 2 (whole_block 10) (whole_block 20))
                (single_blocksMap 1 2 (whole_block 10) (whole_block 20))
  = [block_contribution 10 (mkBlockCell 1 (whole_block 10)) 8 (whole_block 20);
     block_contribution 20 (mkBlockCell 2 (whole_block 20)) 8 (whole_block 10)]
  /\ exists g0 w0 w,
      accumulate_blocks (single_cellsGraph 1 2 8)
                        (single_cellsMap 1 2 (whole_block 10) (whole_block 20))
                        (single_blocksMap 1 2 (whole_block 10) (whole_block 20)) = Ok g0
      /\ g_edges g0 = [(10, 20, w0)] /\ (w0 == 8 + 8)%Q
      /\ create_census_blocks_graph
           (single_blocksMap 1 2 (whole_block 10) (whole_block 20))
           (single_cellsGraph 1 2 8)
           (single_cellsMap 1 2 (whole_block 10) (whole_block 20))
         = Ok (halve_weights g0)
      /\ g_edges (halve_weights g0) = [(10, 20, w)] /\ (w == 8)%Q.
Proof.
  apply (single_edge_weight_conserved 1 2 8 (whole_block 10) (whole_block 20)).
  - discriminate.
  - reflexivity.
  - reflexivity.
Defined.

(** C2, as the specification words it, fails.  Each of the two cells is
    covered at 100% (its source-side percentage is 1) by exactly one block,
    each block is about twice its cell (its census-side percentage is
    99999/199999), and the one edge of weight 100 becomes one edge whose
    weight is not 100 but just under 100 * 1/2 * 1/2 = 25. *)
Lemma full_coverage_does_not_conserve_weight :
  (exists eA eB,
      covered_cellsMap = [(1, [eA]); (2, [eB])]
      /\ milanAreaPercentage eA = 1%Q /\ milanAreaPercentage eB = 1%Q
      /\ (censusAreaPercentage eA == 99999 # 199999)%Q
      /\ (censusAreaPercentage eB == 99999 # 199999)%Q
      /\ SEZ2011 (censusCodes eA) = 10 /\ SEZ2011 (censusCodes eB) = 20)
  /\ exists g w,
      create_census_blocks_graph
        (milan_grid_census_blocks_map_reverse covered_cellsMap)
        (add_edge empty_graph 1 2 100) covered_cellsMap = Ok g
      /\ g_edges g = [(10, 20, w)]
      /\ (24 < w < 25)%Q
      /\ ~ (w == 100)%Q.
Proof.
  split.
  - eexists. eexists. split; [vm_compute; reflexivity |]. repeat split.
  - eexists. eexists. split; [vm_compute; reflexivity |].
    split; [reflexivity |]. split; [split; reflexivity |].
    intros Heq. vm_compute in Heq. discriminate.
Qed.

(** ** Block-to-country redistribution *)

(** A property of the state that every step of a loop preserves holds at
    its end. *)
Lemma for_each_preserves {A S : Type} (Inv : S -> Prop) (body : S -> A -> result S)
      (xs : list A) :
  (forall s x s', In x xs -> Inv s -> body s x = Ok s' -> Inv s') ->
  forall s s', Inv s -> for_each xs body s = Ok s' -> Inv s'.
Proof.
  induction xs as [| x xs IH]; intros Hstep s s' Hs; simpl.
  - now intros [= <-].
  - destruct (body s x) as [s1 | e] eqn:Hb; simpl; [| discriminate].
    apply IH.
    + intros t y t' Hy. apply Hstep. now right.
    + exact (Hstep s x s1 (or_introl eq_refl) Hs Hb).
Qed.

Lemma g_edges_set_attr {N : Type} `{Hashable N} (g : Graph N) (n : N) key v :
  g_edges (set_attr g n key v) = g_edges g.
Proof. unfold set_attr. now destruct (dict_get (g_nodes g) n). Qed.

Lemma g_edges_set_attrs {N : Type} `{Hashable N} (record : Attrs) (n : N) :
  forall g : Graph N, g_edges (set_attrs g n record) = g_edges g.
Proof.
  unfold set_attrs. induction record as [| [k v] r IH]; intros g; simpl; [reflexivity |].
  now rewrite IH, g_edges_set_attr.
Qed.

Section CountryContributions.
Variable cellsGraph : Graph string.

Lemma g_edges_visit_country_edge SEZ cellFrom g edge g' :
  visit_country_edge SEZ cellFrom g edge = Ok g' ->
  g_edges g' = fold_left accumulate_edge [country_contribution SEZ cellFrom edge] (g_edges g).
Proof.
  destruct edge as [[from to] w]. unfold visit_country_edge, country_contribution.
  destruct (startswith from "m"); simpl; [| discriminate].
  destruct (startswith to "c"); simpl; [| discriminate].
  intros [= <-]. now rewrite g_edges_add_weight, g_edges_add_node.
Qed.

Lemma flat_map_singleton {A B : Type} (f : A -> B) (xs : list A) :
  flat_map (fun x => [f x]) xs = map f xs.
Proof. induction xs as [| x xs IH]; simpl; [reflexivity | now rewrite IH]. Qed.

Lemma g_edges_visit_country_cell SEZ g cellFrom g' :
  visit_country_cell cellsGraph SEZ g cellFrom = Ok g' ->
  g_edges g'
  = fold_left accumulate_edge (country_cell_contributions cellsGraph SEZ cellFrom)
              (g_edges g).
Proof.
  unfold visit_country_cell, country_cell_contributions.
  rewrite <- flat_map_singleton.
  apply (for_each_edges (@g_edges Node) (fun e => [country_contribution SEZ cellFrom e])).
  intros s x s' _. apply g_edges_visit_country_edge.
Qed.

Lemma g_edges_visit_country_block g item g' :
  visit_country_block cellsGraph g item = Ok g' ->
  g_edges g' = fold_left accumulate_edge (country_block_contributions cellsGraph item) (g_edges g).
Proof.
  unfold visit_country_block, country_block_contributions. intros Hv.
  rewrite <- (g_edges_add_node g (NInt (fst item))).
  revert Hv.
  apply (for_each_edges (@g_edges Node) (country_cell_contributions cellsGraph (fst item))).
  intros s x s' _. apply g_edges_visit_country_cell.
Qed.

Lemma g_edges_redistribute_to_countries blocksCellsMap g :
  redistribute_to_countries cellsGraph blocksCellsMap = Ok g ->
  g_edges g = fold_left accumulate_edge (country_contributions cellsGraph blocksCellsMap) [].
Proof.
  unfold redistribute_to_countries, country_contributions.
  apply (for_each_edges (@g_edges Node) (country_block_contributions cellsGraph)
                        (visit_country_block cellsGraph) blocksCellsMap).
  intros s x s' _. apply g_edges_visit_country_block.
Qed.
End CountryContributions.

(** The attribute pass leaves the edges as the redistribution made them. *)
Lemma g_edges_annotate censusAttributes countryCodesMap (g g' : Graph Node) :
  annotate censusAttributes countryCodesMap g = Ok g' -> g_edges g' = g_edges g.
Proof.
  unfold annotate.
  destruct (for_each (dict_keys (g_nodes g)) (attach censusAttributes countryCodesMap) (g, []))
    as [st | e] eqn:Hloop; simpl; [| discriminate].
  destruct (fill_blocks (snd st) (g_nodes (fst st))) as [nodes | e]; simpl; [| discriminate].
  intros [= <-]. simpl.
  apply (for_each_preserves (fun st => g_edges (fst st) = g_edges g)
                            (attach censusAttributes countryCodesMap)
                            (dict_keys (g_nodes g)) ) with (s := (g, [])); auto.
  intros [g1 keys] node [g2 keys2] _ Hinv. unfold attach. simpl in Hinv.
  destruct (startswith (node_str node) "c").
  - destruct (dict_index countryCodesMap (drop_first (node_str node))); simpl; [| discriminate].
    intros [= <- <-]. simpl. now rewrite !g_edges_set_attr.
  - destruct (dict_get censusAttributes (node_str node)).
    + intros [= <- <-]. simpl. now rewrite g_edges_set_attrs.
    + intros [= <- <-]. exact Hinv.
Qed.

(** C3, as the code has it.  The weight [get_block_graph] leaves on a
    (block, country) edge is the sum of the contributions made to that
    pair, one per cell-to-country edge reported from a cell of the block,
    each contribution being the edge's weight times the census-side
    percentage of the cell's entry (intersection area over the area of the
    block's polygon).  No percentage of the far end enters, and the sum is
    not halved. *)
Theorem country_edge_weight_is_sum :
  forall (blocksCellsMap : dict Z (list BlockCell)) (cellsGraph : Graph string)
         (censusAttributes : dict string Attrs) (countryCodesMap : dict string PyVal)
         (g : Graph Node),
    get_block_graph blocksCellsMap cellsGraph censusAttributes countryCodesMap = Ok g ->
    forall u v : Node,
      if pair_visited u v (country_contributions cellsGraph blocksCellsMap)
      then exists w,
          edge_weight g u v = Some w
          /\ (w == pair_total u v (country_contributions cellsGraph blocksCellsMap))%Q
      else edge_weight g u v = None.
Proof.
  intros blocksCellsMap cellsGraph censusAttributes countryCodesMap g Hrun u v.
  unfold get_block_graph in Hrun.
  destruct (redistribute_to_countries cellsGraph blocksCellsMap) as [g0 | e] eqn:Hred;
    simpl in Hrun; [| discriminate].
  apply g_edges_annotate in Hrun.
  apply g_edges_redistribute_to_countries in Hred.
  rewrite edge_weight_weight_in, Hrun, Hred.
  apply weight_in_contributions.
Qed.

Lemma example_countryBlocksGraph_run :
  get_block_graph example_blocksMap example_countryGraph
                  example_censusAttributes example_countryCodesMap
  = Ok example_countryBlocksGraph.
Proof. vm_compute. reflexivity. Qed.

Lemma country_edge_weight_is_sum_witness :
  exists w,
    edge_weight example_countryBlocksGraph (NInt 10) (NStr "c39"%string) = Some w
    /\ (w == pair_total (NInt 10) (NStr "c39"%string)
               (country_contributions example_countryGraph example_blocksMap))%Q.
Proof.
  exact (country_edge_weight_is_sum
           example_blocksMap example_countryGraph
           example_censusAttributes example_countryCodesMap example_countryBlocksGraph
           example_countryBlocksGraph_run (NInt 10) (NStr "c39"%string)).
Defined.

(** C3, as the specification words it, fails.  In the run above the edge
    from block 10 to the code 39 receives one contribution, 8 * 1/4 = 2: the
    factor is the share of block 10 that the overlap with cell 1 takes, not
    the share of cell 1 (1/2), which would make it 4. *)
Lemma country_contribution_is_not_source_side :
  let cellFrom := mkBlockCell 1 (strip_polygon (make_section cell_1 block_10)) in
  dict_get example_blocksMap 10 = Some [cellFrom]
  /\ edges_of example_countryGraph "m1"%string = [("m1", "c39", 8%Q)]%string
  /\ country_contributions example_countryGraph example_blocksMap
     = [country_contribution 10 cellFrom ("m1", "c39", 8%Q)]%string
  /\ exists g w,
      get_block_graph example_blocksMap example_countryGraph
                      example_censusAttributes example_countryCodesMap = Ok g
      /\ edge_weight g (NInt 10) (NStr "c39"%string) = Some w
      /\ (w == 2)%Q
      /\ (claimed_country_contribution 8 cellFrom == 4)%Q
      /\ ~ (w == claimed_country_contribution 8 cellFrom)%Q.
Proof.
  cbv zeta. split; [reflexivity |]. split; [reflexivity |]. split; [reflexivity |].
  eexists. eexists. split; [vm_compute; reflexivity |].
  split; [vm_compute; reflexivity |].
  split; [reflexivity |]. split; [reflexivity |].
  intros Heq. vm_compute in Heq. discriminate.
Qed.

(** ** Cell-to-country graphs *)

Lemma Zstr_inj (x y : Z) : Zstr x = Zstr y -> x = y.
Proof.
  unfold Zstr. intros Heq.
  apply DecimalZ.to_int_inj.
  assert (Hs : Some (Z.to_int x) = Some (Z.to_int y)).
  { rewrite <- (NilEmpty.isi (Z.to_int x)), <- (NilEmpty.isi (Z.to_int y)). now rewrite Heq. }
  now injection Hs.
Qed.

Lemma add_average_returns (weight sum : Q) (count : Z) :
  add_average weight sum count = Ok (averaged weight sum count).
Proof.
  unfold add_average, averaged, py_truediv.
  destruct (Z.ltb_spec 0 count) as [Hpos | Hle]; [| reflexivity].
  destruct (Z.eqb_spec count 0) as [-> | Hne]; [lia | reflexivity].
Qed.

Lemma averaged_average (weight sum : Q) (count : Z) :
  0 <= count -> (averaged weight sum count == weight + average sum count)%Q.
Proof.
  intros Hc. unfold averaged, average.
  destruct (Z.ltb_spec 0 count) as [Hpos | Hle];
    destruct (Z.eqb_spec count 0) as [-> | Hne]; try lia; ring.
Qed.

Lemma callWeight_returns (cd : ConnectDict) : callWeight cd = Ok (call_value cd).
Proof.
  unfold callWeight, call_value. rewrite add_average_returns; simpl.
  apply add_average_returns.
Qed.

Lemma smsWeight_returns (cd : ConnectDict) : smsWeight cd = Ok (sms_value cd).
Proof.
  unfold smsWeight, sms_value. rewrite add_average_returns; simpl.
  apply add_average_returns.
Qed.

Lemma tally_count (v : PyVal) (sum : Q) (count : Z) (r : Q * Z) :
  tally v sum count = Ok r -> 0 <= count -> 0 <= snd r.
Proof.
  unfold tally. destruct (py_truthy v).
  - destruct (py_iadd sum v); simpl; [| discriminate]. intros [= <-]; simpl; lia.
  - intros [= <-]; simpl; lia.
Qed.

Lemma accumulate_counts (local cd : ConnectDict) (tokens : list PyVal) :
  counts_nonneg local -> accumulate local tokens = Ok cd -> counts_nonneg cd.
Proof.
  intros (H1 & H2 & H3 & H4). unfold accumulate.
  destruct (tally (nth 3 tokens PNone) (smsIn local) (smsInCount local)) as [si |] eqn:E1;
    simpl; [| discriminate].
  destruct (tally (nth 4 tokens PNone) (smsOut local) (smsOutCount local)) as [so |] eqn:E2;
    simpl; [| discriminate].
  destruct (tally (nth 5 tokens PNone) (callIn local) (callInCount local)) as [ci |] eqn:E3;
    simpl; [| discriminate].
  destruct (tally (nth 6 tokens PNone) (callOut local) (callOutCount local)) as [co |] eqn:E4;
    simpl; [| discriminate].
  destruct (if py_truthy (nth 7 tokens PNone)
            then py_iadd (cdr local) (nth 7 tokens PNone) else Ok (cdr local));
    simpl; [| discriminate].
  intros [= <-]. unfold counts_nonneg; simpl.
  apply tally_count in E1, E2, E3, E4; auto.
Qed.

Lemma collect_counts (lines : list (list PyVal)) (cd : ConnectDict) :
  collect lines = Ok cd -> counts_nonneg cd.
Proof.
  unfold collect.
  apply (for_each_preserves counts_nonneg accumulate lines).
  - intros s x s' _ Hs Hacc. exact (accumulate_counts s s' x Hs Hacc).
  - unfold counts_nonneg, new_connect; simpl; lia.
Qed.

Lemma call_value_average (cd : ConnectDict) :
  counts_nonneg cd ->
  (call_value cd
   == average (callIn cd) (callInCount cd) + average (callOut cd) (callOutCount cd))%Q.
Proof.
  intros (_ & _ & H3 & H4). unfold call_value.
  rewrite (averaged_average _ _ _ H4), (averaged_average _ _ _ H3). ring.
Qed.

Lemma sms_value_average (cd : ConnectDict) :
  counts_nonneg cd ->
  (sms_value cd
   == average (smsIn cd) (smsInCount cd) + average (smsOut cd) (smsOutCount cd))%Q.
Proof.
  intros (H1 & H2 & _ & _). unfold sms_value.
  rewrite (averaged_average _ _ _ H2), (averaged_average _ _ _ H1). ring.
Qed.

Section PairTotals.
Context {N : Type} `{Hashable N}.

Lemma pair_untouched (u v : N) (cs : list (N * N * Q)) :
  (forall c, In c cs -> joins u v c = false) ->
  pair_visited u v cs = false /\ pair_total u v cs = 0%Q.
Proof.
  induction cs as [| c cs IH]; intros Hno; simpl; [auto |].
  rewrite (Hno c (or_introl eq_refl)). simpl.
  apply IH. intros x Hx. apply Hno. now right.
Qed.

(** A pair that exactly one of the contributions reaches holds that
    contribution. *)
Lemma pair_reached_once (u v : N) (l1 l2 : list (N * N * Q)) (c : N * N * Q) :
  (forall x, In x l1 -> joins u v x = false) ->
  (forall x, In x l2 -> joins u v x = false) ->
  joins u v c = true ->
  pair_visited u v (l1 ++ c :: l2) = true
  /\ (pair_total u v (l1 ++ c :: l2) == snd c)%Q.
Proof.
  intros H1 H2 Hc. induction l1 as [| x l1 IH]; simpl.
  - rewrite Hc. simpl. split; [reflexivity |].
    destruct (pair_untouched u v l2 H2) as [_ ->]. ring.
  - rewrite (H1 x (or_introl eq_refl)). simpl.
    apply IH. intros y Hy. apply H1. now right.
Qed.
End PairTotals.

Section CountryGraphs.
(** Which of the three weights is looked at: [call_value], [sms_value] or
    [cdr]. *)
Variable value : ConnectDict -> Q.

Lemma joins_connection (cell cell' : Z) (code : string) (entry : string * ConnectDict) :
  joins (cell_node cell) (country_node code) (connection value cell' entry) = true ->
  cell = cell' /\ code = fst entry.
Proof.
  unfold connection, cell_node, country_node. intros Hj.
  apply joins_same_pair in Hj as [[Hm Hc] | [Hm _]].
  - injection Hm as Hm. injection Hc as Hc. split; [now apply Zstr_inj | exact Hc].
  - discriminate.
Qed.

Lemma connection_once (graphDict : dict Z (dict string ConnectDict))
      (cell : Z) (inner : dict string ConnectDict) (code : string) (cd : ConnectDict) :
  NoDup (dict_keys graphDict) ->
  In (cell, inner) graphDict ->
  NoDup (dict_keys inner) ->
  In (code, cd) inner ->
  pair_visited (cell_node cell) (country_node code) (connections value graphDict) = true
  /\ (pair_total (cell_node cell) (country_node code) (connections value graphDict)
      == value cd)%Q.
Proof.
  intros Hnd Hin Hndi Hini.
  apply in_split in Hin as [d1 [d2 ->]].
  apply in_split in Hini as [i1 [i2 ->]].
  assert (Hshape :
            connections value (d1 ++ (cell, i1 ++ (code, cd) :: i2) :: d2)
            = (flat_map (cell_connections value) d1 ++ map (connection value cell) i1)
                ++ connection value cell (code, cd)
                :: (map (connection value cell) i2 ++ flat_map (cell_connections value) d2)).
  { unfold connections. rewrite flat_map_app. simpl.
    unfold cell_connections at 2. simpl. rewrite map_app. simpl.
    now rewrite <- !app_assoc. }
  unfold dict in *. rewrite Hshape.
  change (value cd) with (snd (connection value cell (code, cd))).
  unfold dict_keys in Hnd, Hndi. rewrite map_app in Hnd, Hndi. simpl in Hnd, Hndi.
  apply NoDup_remove_2 in Hnd. apply NoDup_remove_2 in Hndi.
  assert (Hcells : forall d x,
             (forall inner', ~ In (cell, inner') d) ->
             In x (flat_map (cell_connections value) d) ->
             joins (cell_node cell) (country_node code) x = false).
  { intros d x Hd Hx. apply in_flat_map in Hx as [[cell' inner'] [Hitem Hx]].
    unfold cell_connections in Hx. apply in_map_iff in Hx as [entry [<- _]].
    cbn [fst].
    destruct (joins (cell_node cell) (country_node code) (connection value cell' entry)) eqn:E;
      [| reflexivity].
    apply joins_connection in E as [-> _]. exfalso. exact (Hd inner' Hitem). }
  assert (Hcodes : forall i x,
             (forall cd', ~ In (code, cd') i) ->
             In x (map (connection value cell) i) ->
             joins (cell_node cell) (country_node code) x = false).
  { intros i x Hi Hx. apply in_map_iff in Hx as [[code' cd'] [<- Hentry]].
    destruct (joins (cell_node cell) (country_node code)
                    (connection value cell (code', cd'))) eqn:E;
      [| reflexivity].
    apply joins_connection in E as [_ E]. simpl in E. subst code'.
    exfalso. exact (Hi cd' Hentry). }
  apply (pair_reached_once (cell_node cell) (country_node code)
                           (flat_map (cell_connections value) d1 ++ map (connection value cell) i1)
                           (map (connection value cell) i2 ++ flat_map (cell_connections value) d2)
                           (connection value cell (code, cd))).
  - intros x Hx. apply in_app_or in Hx as [Hx | Hx].
    + apply (Hcells d1 x); [| exact Hx].
      intros inner' Hi. apply Hnd. apply in_or_app. left.
      apply in_map_iff. now exists (cell, inner').
    + apply (Hcodes i1 x); [| exact Hx].
      intros cd' Hi. apply Hndi. apply in_or_app. left.
      apply in_map_iff. now exists (code, cd').
  - intros x Hx. apply in_app_or in Hx as [Hx | Hx].
    + apply (Hcodes i2 x); [| exact Hx].
      intros cd' Hi. apply Hndi. apply in_or_app. right.
      apply in_map_iff. now exists (code, cd').
    + apply (Hcells d2 x); [| exact Hx].
      intros inner' Hi. apply Hnd. apply in_or_app. right.
      apply in_map_iff. now exists (cell, inner').
  - unfold connection. apply joins_same_pair. left; split; reflexivity.
Qed.
End CountryGraphs.

Lemma connect_returns (node1 : string) (gs : Graphs) (entry : string * ConnectDict) :
  connect node1 gs entry
  = Ok (mkGraphs
          (add_weight (add_node (graphCall gs) (country_node (fst entry)))
                      node1 (country_node (fst entry)) (call_value (snd entry)))
          (add_weight (add_node (graphSMS gs) (country_node (fst entry)))
                      node1 (country_node (fst entry)) (sms_value (snd entry)))
          (add_weight (add_node (graphInternet gs) (country_node (fst entry)))
                      node1 (country_node (fst entry)) (cdr (snd entry)))).
Proof.
  unfold connect. now rewrite callWeight_returns, smsWeight_returns.
Qed.

Lemma connect_cell_returns (gs : Graphs) (item : Z * dict string ConnectDict) :
  exists gs', connect_cell gs item = Ok gs'.
Proof.
  unfold connect_cell. apply for_each_returns.
  intros s x _. rewrite connect_returns. eauto.
Qed.

(** No division by zero, nor any other exception: the conversion returns. *)
Lemma json_to_networkx_returns (graphDict : dict Z (dict string ConnectDict)) :
  exists gs, json_to_networkx graphDict = Ok gs.
Proof.
  unfold json_to_networkx. apply for_each_returns.
  intros s x _. apply connect_cell_returns.
Qed.

Section GraphOfConnections.
(** One of the three graphs, with the weight it is given. *)
Variable proj : Graphs -> Graph string.
Variable value : ConnectDict -> Q.
Hypothesis proj_connect :
  forall node1 gs entry gs',
    connect node1 gs entry = Ok gs' ->
    g_edges (proj gs')
    = accumulate_edge (g_edges (proj gs))
                      (node1, country_node (fst entry), value (snd entry)).
Hypothesis proj_nodes :
  forall gs n,
    g_edges (proj (mkGraphs (add_node (graphCall gs) n) (add_node (graphSMS gs) n)
                            (add_node (graphInternet gs) n)))
    = g_edges (proj gs).
Hypothesis proj_empty :
  g_edges (proj (mkGraphs empty_graph empty_graph empty_graph)) = [].

Lemma g_edges_connect_cell gs item gs' :
  connect_cell gs item = Ok gs' ->
  g_edges (proj gs')
  = fold_left accumulate_edge (cell_connections value item) (g_edges (proj gs)).
Proof.
  unfold connect_cell, cell_connections. intros Hc.
  rewrite <- (proj_nodes gs (String "m" (Zstr (fst item)))).
  rewrite <- flat_map_singleton.
  revert Hc.
  apply (for_each_edges (fun s => g_edges (proj s))
                        (fun e => [connection value (fst item) e])).
  intros s x s' _ Hx. simpl. exact (proj_connect _ _ _ _ Hx).
Qed.

Lemma g_edges_json_to_networkx graphDict gs :
  json_to_networkx graphDict = Ok gs ->
  g_edges (proj gs) = fold_left accumulate_edge (connections value graphDict) [].
Proof.
  unfold json_to_networkx, connections. rewrite <- proj_empty.
  apply (for_each_edges (fun s => g_edges (proj s)) (cell_connections value)
                        connect_cell graphDict).
  intros s x s' _. apply g_edges_connect_cell.
Qed.

(** With the keys of the JSON objects distinct, each connection is one
    edge, and the edge holds the connection's own weight. *)
Lemma connection_weight graphDict gs cell inner code cd :
  json_to_networkx graphDict = Ok gs ->
  NoDup (dict_keys graphDict) ->
  In (cell, inner) graphDict ->
  NoDup (dict_keys inner) ->
  In (code, cd) inner ->
  exists w, edge_weight (proj gs) (cell_node cell) (country_node code) = Some w
            /\ (w == value cd)%Q.
Proof.
  intros Hrun Hnd Hin Hndi Hini.
  apply g_edges_json_to_networkx in Hrun.
  rewrite edge_weight_weight_in, Hrun.
  pose proof (weight_in_contributions (cell_node cell) (country_node code)
                                      (connections value graphDict)) as Hsum.
  destruct (connection_once value graphDict cell inner code cd Hnd Hin Hndi Hini)
    as [Hv Ht].
  rewrite Hv in Hsum. destruct Hsum as [w [Hw Heq]].
  exists w. split; [exact Hw | now rewrite Heq].
Qed.
End GraphOfConnections.

(** C9.  On a graph dictionary whose records were kept by [collect_json],
    [json_to_networkx] returns (no division by a zero count, no exception),
    and the call edge and the SMS edge of every (cell, country) connection
    hold the sum of the two directional averages: each direction's sum
    divided by its own count when the count is not zero, and 0 for a
    direction whose count is zero. *)
Theorem connection_weight_is_sum_of_directional_averages :
  forall graphDict : dict Z (dict string ConnectDict),
    NoDup (dict_keys graphDict) ->
    (forall cell inner, In (cell, inner) graphDict -> NoDup (dict_keys inner)) ->
    (forall cell inner code cd,
        In (cell, inner) graphDict -> In (code, cd) inner ->
        exists lines, collect lines = Ok cd) ->
    exists gs,
      json_to_networkx graphDict = Ok gs
      /\ forall cell inner code cd,
          In (cell, inner) graphDict -> In (code, cd) inner ->
          exists cw sw,
            edge_weight (graphCall gs) (cell_node cell) (country_node code) = Some cw
            /\ (cw == average (callIn cd) (callInCount cd)
                      + average (callOut cd) (callOutCount cd))%Q
            /\ edge_weight (graphSMS gs) (cell_node cell) (country_node code) = Some sw
            /\ (sw == average (smsIn cd) (smsInCount cd)
                      + average (smsOut cd) (smsOutCount cd))%Q.
Proof.
  intros graphDict Hnd Hndi Hcollected.
  destruct (json_to_networkx_returns graphDict) as [gs Hrun].
  exists gs. split; [exact Hrun |].
  intros cell inner code cd Hin Hini.
  destruct (Hcollected cell inner code cd Hin Hini) as [lines Hlines].
  apply collect_counts in Hlines.
  destruct (connection_weight graphCall call_value) with
    (graphDict := graphDict) (gs := gs) (cell := cell) (inner := inner)
    (code := code) (cd := cd) as [cw [Hcw Hcv]]; eauto.
  { intros node1 s entry s' Hc. rewrite connect_returns in Hc. injection Hc as <-.
    simpl. now rewrite g_edges_add_weight, g_edges_add_node. }
  { intros s n. simpl. apply g_edges_add_node. }
  destruct (connection_weight graphSMS sms_value) with
    (graphDict := graphDict) (gs := gs) (cell := cell) (inner := inner)
    (code := code) (cd := cd) as [sw [Hsw Hsv]]; eauto.
  { intros node1 s entry s' Hc. rewrite connect_returns in Hc. injection Hc as <-.
    simpl. now rewrite g_edges_add_weight, g_edges_add_node. }
  { intros s n. simpl. apply g_edges_add_node. }
  exists cw, sw. split; [exact Hcw |]. split.
  - rewrite Hcv. now apply call_value_average.
  - split; [exact Hsw |]. rewrite Hsv. now apply sms_value_average.
Qed.

(** A direction that was silent contributes nothing and takes nothing from
    the other direction's average. *)
Lemma silent_direction_keeps_full_average (sum_in sum_out : Q) (count_in : Z) :
  count_in <> 0 ->
  (average sum_in count_in + average sum_out 0 == sum_in / inject_Z count_in)%Q.
Proof.
  intros Hc. unfold average.
  destruct (Z.eqb_spec count_in 0); [contradiction |]. simpl. ring.
Qed.

Lemma connection_weight_is_sum_of_directional_averages_witness :
  exists gs,
    json_to_networkx example_graphDict = Ok gs
    /\ forall cell inner code cd,
        In (cell, inner) example_graphDict -> In (code, cd) inner ->
        exists cw sw,
          edge_weight (graphCall gs) (cell_node cell) (country_node code) = Some cw
          /\ (cw == average (callIn cd) (callInCount cd)
                    + average (callOut cd) (callOutCount cd))%Q
          /\ edge_weight (graphSMS gs) (cell_node cell) (country_node code) = Some sw
          /\ (sw == average (smsIn cd) (smsInCount cd)
                    + average (smsOut cd) (smsOutCount cd))%Q.
Proof.
  apply (connection_weight_is_sum_of_directional_averages example_graphDict).
  - simpl. constructor; [intros [] | constructor].
  - intros cell inner [Heq | []]. injection Heq as _ <-.
    simpl. constructor; [intros [] | constructor].
  - intros cell inner code cd [Heq | []] Hin. injection Heq as _ <-.
    destruct Hin as [Heq | []]. injection Heq as _ <-.
    exists example_lines. reflexivity.
Defined.

(** ** Census attributes and country names *)

Lemma dict_keys_set_present {K V : Type} `{Hashable K} (d : dict K V) k v :
  dict_get d k <> None -> dict_keys (dict_set d k v) = dict_keys d.
Proof.
  induction d as [| [k' v'] d IH]; simpl; [congruence |].
  destruct (key_eqb k k') eqn:E; simpl; [reflexivity |].
  intros Hg. now rewrite IH.
Qed.

Section NodeAttributes.
Context {N : Type} `{Hashable N}.

Lemma g_nodes_keys_set_attr (g : Graph N) (n : N) key v :
  dict_keys (g_nodes (set_attr g n key v)) = dict_keys (g_nodes g).
Proof.
  unfold set_attr. destruct (dict_get (g_nodes g) n) eqn:E; simpl; [| reflexivity].
  apply dict_keys_set_present. congruence.
Qed.

Lemma g_nodes_keys_set_attrs (record : Attrs) (n : N) :
  forall g : Graph N, dict_keys (g_nodes (set_attrs g n record)) = dict_keys (g_nodes g).
Proof.
  unfold set_attrs. induction record as [| [k v] r IH]; intros g; simpl; [reflexivity |].
  now rewrite IH, g_nodes_keys_set_attr.
Qed.

Lemma node_attrs_set_attr_other (g : Graph N) (n m : N) key v :
  m <> n -> node_attrs (set_attr g n key v) m = node_attrs g m.
Proof.
  intros Hne. unfold set_attr, node_attrs.
  destruct (dict_get (g_nodes g) n); simpl; [| reflexivity].
  now rewrite dict_get_set_other.
Qed.

Lemma node_attrs_set_attr_same (g : Graph N) (n : N) key v :
  In n (dict_keys (g_nodes g)) ->
  node_attrs (set_attr g n key v) n = dict_set (node_attrs g n) key v.
Proof.
  intros Hin. unfold set_attr, node_attrs.
  destruct (dict_get (g_nodes g) n) eqn:E; simpl.
  - now rewrite dict_get_set_same.
  - apply dict_get_None_keys in E. contradiction.
Qed.

Lemma node_attrs_set_attrs_other (record : Attrs) (n m : N) :
  m <> n -> forall g : Graph N, node_attrs (set_attrs g n record) m = node_attrs g m.
Proof.
  intros Hne. unfold set_attrs.
  induction record as [| [k v] r IH]; intros g; simpl; [reflexivity |].
  now rewrite IH, node_attrs_set_attr_other.
Qed.

End NodeAttributes.

Lemma add_census_attributes_fold (blocksGraph : Graph Z) (blocksAttr : dict string Attrs) :
  add_census_attributes blocksGraph blocksAttr
  = fold_left (merge_step blocksAttr) (dict_keys (g_nodes blocksGraph)) (blocksGraph, []).
Proof.
  unfold add_census_attributes.
  generalize (blocksGraph, @nil string) as st.
  induction (dict_keys (g_nodes blocksGraph)) as [| n ns IH]; intros st; simpl; [reflexivity |].
  rewrite IH. f_equal. unfold merge_step. destruct st as [g m]; simpl.
  now destruct (dict_get blocksAttr (Zstr n)).
Qed.

Lemma str_set_add_In (s : list string) (x y : string) :
  In y (str_set_add s x) <-> y = x \/ In y s.
Proof.
  unfold str_set_add. destruct (existsb (String.eqb x) s) eqn:E.
  - split; [auto | intros [-> | Hin]; [| exact Hin]].
    apply existsb_exists in E as [z [Hz Hxz]]. apply String.eqb_eq in Hxz. now subst.
  - rewrite in_app_iff; simpl. intuition.
Qed.

Lemma merge_fold (blocksAttr : dict string Attrs) (nodes : list Z) :
  forall st,
    let st' := fold_left (merge_step blocksAttr) nodes st in
    dict_keys (g_nodes (fst st')) = dict_keys (g_nodes (fst st))
    /\ (forall s, In s (snd st') <->
                  In s (snd st)
                  \/ exists node, In node nodes /\ s = node_str node
                                  /\ dict_get blocksAttr (node_str node) = None).
Proof.
  induction nodes as [| n ns IH]; intros st; simpl.
  - split; [reflexivity |]. intros s. split; [auto | intros [Hs | [node [[] _]]]; exact Hs].
  - destruct (IH (merge_step blocksAttr st n)) as [Hkeys Hmiss]. split.
    + rewrite Hkeys. unfold merge_step.
      destruct (dict_get blocksAttr (node_str n)); simpl; [| reflexivity].
      apply g_nodes_keys_set_attrs.
    + intros s. rewrite Hmiss. unfold merge_step.
      destruct (dict_get blocksAttr (node_str n)) as [record |] eqn:E; simpl.
      * split.
        -- intros [Hs | [node [Hin Hn]]]; [now left | right; exists node; auto].
        -- intros [Hs | [node [[<- | Hin] [Hs Hn]]]];
             [now left | simpl in Hn, E; congruence | right; exists node; auto].
      * rewrite str_set_add_In. split.
        -- intros [[-> | Hs] | [node [Hin Hn]]];
             [right; exists n; auto | now left | right; exists node; auto].
        -- intros [Hs | [node [[<- | Hin] [Hs Hn]]]];
             [left; now right | left; now left | right; exists node; auto].
Qed.

(** A property that the visit of [x] establishes and every step keeps
    holds at the end of a loop that visits [x]. *)
Lemma for_each_establishes {A S : Type} (Pre Inv : S -> Prop) (body : S -> A -> result S)
      (xs : list A) (x : A) :
  In x xs ->
  (forall s y s', Pre s -> body s y = Ok s' -> Pre s') ->
  (forall s s', Pre s -> body s x = Ok s' -> Inv s') ->
  (forall s y s', Pre s -> Inv s -> body s y = Ok s' -> Inv s') ->
  forall s s', Pre s -> for_each xs body s = Ok s' -> Inv s'.
Proof.
  intros Hin Hpre Hvisit Hkeep.
  induction xs as [| y ys IH]; [destruct Hin |].
  intros s s' Hs. simpl.
  destruct (body s y) as [s1 | e] eqn:Hb; simpl; [| discriminate].
  destruct Hin as [-> | Hin].
  - intros Hrest.
    apply (for_each_preserves (fun t => Pre t /\ Inv t) body ys) with (s := s1) (s' := s');
      [| split; [exact (Hpre _ _ _ Hs Hb) | exact (Hvisit _ _ Hs Hb)] | exact Hrest].
    intros t z t' _ [Ht Hi] Hz. split; [exact (Hpre _ _ _ Ht Hz) | exact (Hkeep _ _ _ Ht Hi Hz)].
  - apply IH; [exact Hin | exact (Hpre _ _ _ Hs Hb)].
Qed.

Section CountryNames.
Variable censusAttributes : dict string Attrs.
Variable countryCodesMap : dict string PyVal.

Lemma attach_keys (st st' : Graph Node * list string) (m : Node) :
  attach censusAttributes countryCodesMap st m = Ok st' ->
  dict_keys (g_nodes (fst st')) = dict_keys (g_nodes (fst st)).
Proof.
  destruct st as [g keys]. unfold attach.
  destruct (startswith (node_str m) "c").
  - destruct (dict_index countryCodesMap (drop_first (node_str m))); simpl; [| discriminate].
    intros [= <-]. simpl. now rewrite !g_nodes_keys_set_attr.
  - destruct (dict_get censusAttributes (node_str m)); intros [= <-]; simpl;
      [apply g_nodes_keys_set_attrs | reflexivity].
Qed.

Lemma attach_other (st st' : Graph Node * list string) (m n : Node) :
  n <> m ->
  attach censusAttributes countryCodesMap st m = Ok st' ->
  node_attrs (fst st') n = node_attrs (fst st) n.
Proof.
  intros Hne. destruct st as [g keys]. unfold attach.
  destruct (startswith (node_str m) "c").
  - destruct (dict_index countryCodesMap (drop_first (node_str m))); simpl; [| discriminate].
    intros [= <-]. simpl. now rewrite !node_attrs_set_attr_other.
  - destruct (dict_get censusAttributes (node_str m)); intros [= <-]; simpl;
      [now apply node_attrs_set_attrs_other | reflexivity].
Qed.

(** The visit of a country node whose code the name table lists. *)
Lemma attach_country (g : Graph Node) (keys : list string) (n : Node) (name : PyVal) :
  startswith (node_str n) "c" = true ->
  dict_get countryCodesMap (drop_first (node_str n)) = Some name ->
  attach censusAttributes countryCodesMap (g, keys) n
  = Ok (set_attr (set_attr g n "CountryCode" (PStr (drop_first (node_str n))))
                 n "CountryName" name, keys).
Proof.
  intros Hc Hname. unfold attach, dict_index. now rewrite Hc, Hname.
Qed.

Lemma attach_country_name (st st' : Graph Node * list string) (n : Node) (name : PyVal) :
  startswith (node_str n) "c" = true ->
  dict_get countryCodesMap (drop_first (node_str n)) = Some name ->
  In n (dict_keys (g_nodes (fst st))) ->
  attach censusAttributes countryCodesMap st n = Ok st' ->
  dict_get (node_attrs (fst st') n) "CountryName"%string = Some name.
Proof.
  intros Hc Hname Hin. destruct st as [g keys].
  rewrite (attach_country g keys n name Hc Hname). intros [= <-]. simpl.
  rewrite node_attrs_set_attr_same by (now rewrite g_nodes_keys_set_attr).
  apply dict_get_set_same.
Qed.

Lemma Node_eq_dec (a b : Node) : {a = b} + {a <> b}.
Proof. destruct (key_eqb_spec a b); [now left | now right]. Qed.

Lemma attach_loop_country_name (g : Graph Node) (st : Graph Node * list string)
      (n : Node) (name : PyVal) :
  startswith (node_str n) "c" = true ->
  dict_get countryCodesMap (drop_first (node_str n)) = Some name ->
  In n (dict_keys (g_nodes g)) ->
  for_each (dict_keys (g_nodes g)) (attach censusAttributes countryCodesMap) (g, []) = Ok st ->
  dict_keys (g_nodes (fst st)) = dict_keys (g_nodes g)
  /\ dict_get (node_attrs (fst st) n) "CountryName"%string = Some name.
Proof.
  intros Hc Hname Hin Hloop.
  pose (Pre := fun t : Graph Node * list string =>
                 dict_keys (g_nodes (fst t)) = dict_keys (g_nodes g)).
  assert (Hpre : forall s y s', Pre s -> attach censusAttributes countryCodesMap s y = Ok s'
                                -> Pre s').
  { intros s y s' Hs Hy. unfold Pre in *. now rewrite (attach_keys s s' y Hy). }
  split.
  - apply (for_each_preserves Pre (attach censusAttributes countryCodesMap)
                              (dict_keys (g_nodes g))) with (s := (g, [])) (s' := st);
      [| reflexivity | exact Hloop].
    intros s y s' _. apply Hpre.
  - apply (for_each_establishes
             Pre (fun t => dict_get (node_attrs (fst t) n) "CountryName"%string = Some name)
             (attach censusAttributes countryCodesMap) (dict_keys (g_nodes g)) n Hin Hpre)
      with (s := (g, [])) (s' := st); [| | reflexivity | exact Hloop].
    + intros s s' Hs Hn. apply (attach_country_name s s' n name Hc Hname); [| exact Hn].
      unfold Pre in Hs. now rewrite Hs.
    + intros s y s' Hs Hi Hy. destruct (Node_eq_dec n y) as [<- | Hne].
      * apply (attach_country_name s s' n name Hc Hname); [| exact Hy].
        unfold Pre in Hs. now rewrite Hs.
      * now rewrite (attach_other s s' y n Hne Hy).
Qed.

(** The filling pass leaves the country nodes as they are. *)
Lemma fill_blocks_country (keys : list string) (nodes nodes' : dict Node Attrs) (n : Node) :
  startswith (node_str n) "c" = true ->
  fill_blocks keys nodes = Ok nodes' ->
  dict_get nodes' n = dict_get nodes n.
Proof.
  intros Hc. revert nodes'.
  induction nodes as [| [m attrs] nodes IH]; intros nodes'; cbn [fill_blocks].
  - now intros [= <-].
  - destruct (Node_eq_dec n m) as [<- | Hne].
    + rewrite Hc. cbn [bind].
      destruct (fill_blocks keys nodes); cbn [bind]; [| discriminate].
      intros [= <-]. cbn [dict_get]. now rewrite key_eqb_refl.
    + destruct (if startswith (node_str m) "c" then Ok attrs else fill_node keys m attrs);
        cbn [bind]; [| discriminate].
      destruct (fill_blocks keys nodes) as [rest |]; cbn [bind]; [| discriminate].
      intros [= <-]. cbn [dict_get]. rewrite (key_eqb_neq n m Hne).
      now apply IH.
Qed.

Lemma annotate_country_name (g g' : Graph Node) (n : Node) (name : PyVal) :
  startswith (node_str n) "c" = true ->
  dict_get countryCodesMap (drop_first (node_str n)) = Some name ->
  In n (dict_keys (g_nodes g)) ->
  annotate censusAttributes countryCodesMap g = Ok g' ->
  has_node g' n = true /\ dict_get (node_attrs g' n) "CountryName"%string = Some name.
Proof.
  intros Hc Hname Hin. unfold annotate.
  destruct (for_each (dict_keys (g_nodes g)) (attach censusAttributes countryCodesMap) (g, []))
    as [st | e] eqn:Hloop; simpl; [| discriminate].
  destruct (fill_blocks (snd st) (g_nodes (fst st))) as [nodes |] eqn:Hfill;
    simpl; [| discriminate].
  intros [= <-].
  destruct (attach_loop_country_name g st n name Hc Hname Hin Hloop) as [Hkeys Hnamed].
  pose proof (fill_blocks_country _ _ _ n Hc Hfill) as Hsame.
  assert (Hpresent : dict_get (g_nodes (fst st)) n <> None).
  { intros Hnone. apply dict_get_None_keys in Hnone. apply Hnone. now rewrite Hkeys. }
  split.
  - unfold has_node, dict_has; simpl. rewrite Hsame.
    destruct (dict_get (g_nodes (fst st)) n); congruence.
  - unfold node_attrs in *; simpl. now rewrite Hsame.
Qed.
End CountryNames.

Lemma for_each_raises {A S : Type} (e0 : exn) (body : S -> A -> result S)
      (xs : list A) (x : A) :
  In x xs ->
  (forall s y e, body s y = Raise e -> e = e0) ->
  (forall s, body s x = Raise e0) ->
  forall s, for_each xs body s = Raise e0.
Proof.
  intros Hin Honly Hx. induction xs as [| y ys IH]; [destruct Hin |].
  intros s. simpl. destruct (body s y) as [s1 | e] eqn:Hy; simpl.
  - destruct Hin as [-> | Hin]; [rewrite Hx in Hy; discriminate | now apply IH].
  - now rewrite (Honly s y e Hy).
Qed.

Section UnlistedCodes.
Variable censusAttributes : dict string Attrs.
Variable countryCodesMap : dict string PyVal.

Lemma attach_unlisted (st : Graph Node * list string) (node : Node) :
  startswith (node_str node) "c" = true ->
  dict_get countryCodesMap (drop_first (node_str node)) = None ->
  attach censusAttributes countryCodesMap st node = Raise KeyError.
Proof.
  intros Hc Hnone. destruct st as [g keys]. unfold attach, dict_index.
  now rewrite Hc, Hnone.
Qed.

Lemma attach_raises_KeyError (st : Graph Node * list string) (node : Node) (e : exn) :
  attach censusAttributes countryCodesMap st node = Raise e -> e = KeyError.
Proof.
  destruct st as [g keys]. unfold attach, dict_index.
  destruct (startswith (node_str node) "c").
  - destruct (dict_get countryCodesMap (drop_first (node_str node))); simpl; congruence.
  - destruct (dict_get censusAttributes (node_str node)); discriminate.
Qed.

Lemma annotate_unlisted (g : Graph Node) (node : Node) :
  In node (dict_keys (g_nodes g)) ->
  startswith (node_str node) "c" = true ->
  dict_get countryCodesMap (drop_first (node_str node)) = None ->
  annotate censusAttributes countryCodesMap g = Raise KeyError.
Proof.
  intros Hin Hc Hnone. unfold annotate.
  rewrite (for_each_raises KeyError (attach censusAttributes countryCodesMap)
                           (dict_keys (g_nodes g)) node Hin).
  - reflexivity.
  - intros st y e. apply attach_raises_KeyError.
  - intros st. now apply attach_unlisted.
Qed.
End UnlistedCodes.


Lemma example_redistributed_run :
  redistribute_to_countries example_countryGraph example_blocksMap = Ok example_redistributed.
Proof. vm_compute. reflexivity. Qed.



(** ** Filling the holes *)

Lemma Ok_inj {A : Type} (a b : A) : Ok a = Ok b -> a = b.
Proof. now intros [= ->]. Qed.

Lemma nulls_keys (keys : list string) :
  forall attrs k, In k (dict_keys (nulls keys attrs)) <-> In k keys \/ In k (dict_keys attrs).
Proof.
  unfold nulls. induction keys as [| key keys IH]; intros attrs k; simpl.
  - tauto.
  - rewrite IH, dict_keys_set. intuition.
Qed.

Lemma nulls_values (keys : list string) :
  forall attrs,
    (forall k v, dict_get attrs k = Some v -> v = PNone) ->
    forall k v, dict_get (nulls keys attrs) k = Some v -> v = PNone.
Proof.
  unfold nulls. induction keys as [| key keys IH]; intros attrs Hall; simpl.
  - exact Hall.
  - apply IH. intros k v.
    destruct (string_dec k key) as [-> | Hne].
    + rewrite dict_get_set_same. now intros [= <-].
    + rewrite dict_get_set_other by exact Hne. apply Hall.
Qed.

Lemma fill_node_spec {N : Type} `{PyNode N} (keys : list string) (node : N)
      (attrs attrs' : Attrs) :
  node_val node <> PNone ->
  fill_node keys node attrs = Ok attrs' ->
  (attrs = [] -> null_filled keys (node_val node) attrs')
  /\ (attrs <> [] -> record_kept attrs attrs').
Proof.
  intros Hid. unfold fill_node, dict_index. destruct attrs as [| kv attrs]; cbn [attrs_nonempty].
  - fold (nulls keys []).
    destruct (dict_get (nulls keys []) "SEZ2011"%string) as [sez |] eqn:Hsez;
      simpl; [| discriminate].
    assert (Hnull : sez = PNone).
    { apply (nulls_values keys []) with (k := "SEZ2011"%string); [| exact Hsez].
      intros k v; simpl; discriminate. }
    subst sez. simpl. intros [= <-]. split; [intros _ | congruence].
    unfold null_filled. split; [| split].
    + intros k. rewrite dict_keys_set, nulls_keys. simpl. split.
      * intros [-> | [Hk | []]]; [| exact Hk].
        assert (Hin : dict_get (nulls keys []) "SEZ2011"%string <> None) by congruence.
        destruct (in_dec string_dec "SEZ2011"%string keys) as [Hi | Hn]; [exact Hi |].
        exfalso. apply Hin. apply dict_get_None_keys. rewrite nulls_keys. simpl. tauto.
      * intros Hk. right. now left.
    + apply dict_get_set_same.
    + intros k v Hne. rewrite dict_get_set_other by exact Hne.
      apply (nulls_values keys []). intros k0 v0; simpl; discriminate.
  - destruct (dict_get (kv :: attrs) "SEZ2011"%string) as [sez |] eqn:Hsez;
      cbn [bind]; [| discriminate].
    intros Heq. apply Ok_inj in Heq. subst attrs'.
    split; [intros Hnil; discriminate Hnil | intros _].
    unfold record_kept. destruct (is_None sez) eqn:Hn.
    + split; [apply dict_keys_set_present; congruence |]. split.
      * exists (node_val node). split; [apply dict_get_set_same | exact Hid].
      * intros k Hne. now apply dict_get_set_other.
    + split; [reflexivity |]. split; [| reflexivity].
      exists sez. split; [exact Hsez |]. intros ->. discriminate.
Qed.

Lemma fill_nodes_spec (keys : list string) (nodes : dict Z Attrs) :
  forall nodes',
    fill_nodes keys nodes = Ok nodes' ->
    Forall2 (fun old new => fst new = fst old
                            /\ fill_node keys (fst old) (snd old) = Ok (snd new))
            nodes nodes'.
Proof.
  induction nodes as [| [node attrs] nodes IH]; intros nodes'; cbn [fill_nodes].
  - intros Heq. apply Ok_inj in Heq. subst. constructor.
  - destruct (fill_node keys node attrs) as [attrs' |] eqn:Hnode; cbn [bind]; [| discriminate].
    destruct (fill_nodes keys nodes) as [rest |]; cbn [bind]; [| discriminate].
    intros Heq. apply Ok_inj in Heq. subst nodes'.
    constructor; [split; [reflexivity | exact Hnode] | now apply IH].
Qed.

Lemma check_from (nodes : dict Z Attrs) :
  forall L L',
    0 <= L ->
    for_each nodes length_step L = Ok L' ->
    forall item, In item nodes -> Z.of_nat (List.length (snd item)) = L.
Proof.
  induction nodes as [| it nodes IH]; intros L L' HL; simpl; [intros _ item [] |].
  unfold length_step at 1.
  destruct (Z.ltb_spec L 0) as [Hneg | _]; [lia |].
  destruct (Z.eqb_spec L (Z.of_nat (List.length (snd it)))) as [Heq | Hne];
    simpl; [| discriminate].
  intros Hrest item [<- | Hin]; [now symmetry | exact (IH L L' HL Hrest item Hin)].
Qed.

(** The filling pass of [get_block_graph] does the same to its block
    nodes, with the keys of the first census record found, and leaves the
    country nodes alone. *)
Lemma fill_blocks_spec (keys : list string) (nodes : dict Node Attrs) :
  forall nodes',
    fill_blocks keys nodes = Ok nodes' ->
    Forall2 (fun old new =>
               fst new = fst old
               /\ if startswith (node_str (fst old)) "c"
                  then snd new = snd old
                  else (snd old = [] -> null_filled keys (node_val (fst old)) (snd new))
                       /\ (snd old <> [] -> record_kept (snd old) (snd new)))
            nodes nodes'.
Proof.
  induction nodes as [| [node attrs] nodes IH]; intros nodes'; cbn [fill_blocks].
  - intros Heq. apply Ok_inj in Heq. subst. constructor.
  - destruct (startswith (node_str node) "c") eqn:Hc.
    + cbn [bind]. destruct (fill_blocks keys nodes) as [rest |]; cbn [bind]; [| discriminate].
      intros Heq. apply Ok_inj in Heq. subst nodes'.
      constructor; [cbn [fst snd]; rewrite Hc; auto | now apply IH].
    + destruct (fill_node keys node attrs) as [attrs' |] eqn:Hnode; cbn [bind]; [| discriminate].
      destruct (fill_blocks keys nodes) as [rest |]; cbn [bind]; [| discriminate].
      intros Heq. apply Ok_inj in Heq. subst nodes'.
      constructor; [| now apply IH].
      cbn [fst snd]. rewrite Hc. split; [reflexivity |].
      apply fill_node_spec; [| exact Hnode]. destruct node; discriminate.
Qed.

(** The sanity check accepts a graph only when all its nodes have the same
    number of attributes. *)
Lemma check_lengths_spec (nodes : dict Z Attrs) (L : Z) :
  check_lengths nodes = Ok L ->
  forall a b, In a nodes -> In b nodes -> List.length (snd a) = List.length (snd b).
Proof.
  unfold check_lengths.
  destruct nodes as [| first rest]; simpl; [intros _ a b [] |].
  intros Hrest.
  assert (Hall : forall item, In item (first :: rest) ->
                              Z.of_nat (List.length (snd item))
                              = Z.of_nat (List.length (snd first))).
  { intros item [<- | Hin]; [reflexivity |].
    apply (check_from rest _ L (Zle_0_nat _) Hrest item Hin). }
  intros a b Ha Hb. apply Nat2Z.inj. now rewrite (Hall a Ha), (Hall b Hb).
Qed.




(** * Further properties of the code *)

(** ** The overlap mapper: keys, lists, range of the percentages *)

Lemma dict_set_keys_NoDup {K V : Type} `{Hashable K} (d : dict K V) k v :
  NoDup (dict_keys d) -> NoDup (dict_keys (dict_set d k v)).
Proof.
  induction d as [| [k' v'] d IH]; simpl; intros Hnd.
  - constructor; [intros [] | constructor].
  - inversion Hnd as [| ? ? Hnot Hnd']; subst.
    destruct (key_eqb_spec k k') as [-> | Hne]; simpl.
    + now constructor.
    + constructor; [| now apply IH].
      intros Hin. apply dict_keys_set in Hin as [Heq | Hin]; [congruence | contradiction].
Qed.

Lemma snap_range (p : Q) :
  snap p = 0%Q \/ snap p = 1%Q \/ (1 # 10000 <= snap p <= 9999 # 10000)%Q.
Proof.
  unfold snap. cbn [float_1e_4 float_0_9999 exact_arith].
  destruct (Qltb p (1 # 10000)) eqn:Hlo; [now left |].
  destruct (Qltb (9999 # 10000) p) eqn:Hhi; [right; now left |].
  right; right. apply Qltb_ge in Hlo, Hhi. split; assumption.
Qed.

Section MapperKeys.
Context {P : Type} `{Geometry P}.

Lemma overlap_grid_keys_from (ms : list (MilanPolygon P)) (cs : list (CensusPolygon P)) :
  forall grid0 : dict Z (list (MilanSection (CensusPolygon P))),
    NoDup (dict_keys grid0) ->
    let grid := fold_left (fun grid m => dict_set grid (cellId m) (cell_sections m cs))
                          ms grid0 in
    NoDup (dict_keys grid)
    /\ forall id, In id (dict_keys grid) <-> In id (dict_keys grid0) \/ In id (map cellId ms).
Proof.
  induction ms as [| m ms IH]; intros grid0 Hnd; simpl.
  - split; [exact Hnd | intros id; tauto].
  - destruct (IH (dict_set grid0 (cellId m) (cell_sections m cs))
                 (dict_set_keys_NoDup _ _ _ Hnd)) as [Hnd' Hkeys].
    split; [exact Hnd' |].
    intros id. rewrite Hkeys, dict_keys_set. intuition.
Qed.

Lemma stripped_grid_keys (grid : dict Z (list (MilanSection (CensusPolygon P)))) :
  dict_keys (map (fun kv => (fst kv, map strip_polygon (snd kv))) grid) = dict_keys grid.
Proof.
  unfold dict_keys. rewrite map_map. reflexivity.
Qed.

(** The list of the last polygon that carries a cell id. *)
Lemma overlap_grid_last (ms1 ms2 : list (MilanPolygon P)) (m : MilanPolygon P)
      (cs : list (CensusPolygon P)) :
  ~ In (cellId m) (map cellId ms2) ->
  dict_get (overlap_grid (ms1 ++ m :: ms2) cs) (cellId m) = Some (cell_sections m cs).
Proof.
  intros Hlast. unfold overlap_grid. rewrite fold_left_app. simpl.
  rewrite overlap_grid_untouched by exact Hlast. apply dict_get_set_same.
Qed.
End MapperKeys.

(** Every cell of the input, overlapped or not, is a key of the persisted
    map, the map has no other key, and no key twice. *)
Theorem mapper_keys_are_the_cells :
  forall (P : Type) (G : Geometry P)
         (ms : list (MilanPolygon P)) (cs : list (CensusPolygon P)),
    NoDup (dict_keys (create_sezioni_censimento_millan_grid_map ms cs))
    /\ forall id,
        In id (dict_keys (create_sezioni_censimento_millan_grid_map ms cs))
        <-> In id (map cellId ms).
Proof.
  intros P G ms cs. unfold create_sezioni_censimento_millan_grid_map.
  rewrite stripped_grid_keys. unfold overlap_grid.
  destruct (overlap_grid_keys_from ms cs [] (NoDup_nil Z)) as [Hnd Hkeys].
  split; [exact Hnd |].
  intros id. rewrite Hkeys. simpl. tauto.
Qed.

(** The list persisted under a cell id is that of the last polygon of the
    input with this id (an earlier one is overwritten): one entry for each
    census polygon that overlaps it, in the order of the census polygons,
    and so the empty list when none does. *)
Theorem mapper_list_of_a_cell :
  forall (P : Type) (G : Geometry P)
         (ms1 ms2 : list (MilanPolygon P)) (m : MilanPolygon P)
         (cs : list (CensusPolygon P)),
    ~ In (cellId m) (map cellId ms2) ->
    dict_get (create_sezioni_censimento_millan_grid_map (ms1 ++ m :: ms2) cs) (cellId m)
    = Some (map (fun c => strip_polygon (make_section m c))
                (filter (fun c => overlaps (mp_polygon m) (cp_polygon c)) cs)).
Proof.
  intros P G ms1 ms2 m cs Hlast. unfold create_sezioni_censimento_millan_grid_map.
  rewrite stripped_grid_get, overlap_grid_last by exact Hlast. simpl.
  now rewrite cell_sections_filter, map_map.
Qed.

Lemma mapper_list_of_a_cell_witness :
  dict_get (create_sezioni_censimento_millan_grid_map
              ([mkMilanPolygon 1 (mkRect 50 50 51 51)] ++ cell_1 :: [cell_2])
              [block_10; block_20]) (cellId cell_1)
  = Some (map (fun c => strip_polygon (make_section cell_1 c))
              (filter (fun c => overlaps (mp_polygon cell_1) (cp_polygon c))
                      [block_10; block_20])).
Proof.
  apply (mapper_list_of_a_cell Rect Rect_Geometry
           [mkMilanPolygon 1 (mkRect 50 50 51 51)] [cell_2] cell_1 [block_10; block_20]).
  simpl. intros [Heq | []]. discriminate.
Defined.



(** ** The block-to-cell map *)

Lemma entries_of_append {K V : Type} `{Hashable K} (d : dict K (list V)) (k k' : K) (v : V) :
  entries_of (dict_append d k v) k'
  = if key_eqb k' k then entries_of d k ++ [v] else entries_of d k'.
Proof.
  unfold entries_of, dict_append.
  destruct (key_eqb_spec k' k) as [-> | Hne].
  - destruct (dict_get d k); now rewrite dict_get_set_same.
  - destruct (dict_get d k); now rewrite dict_get_set_other.
Qed.

Lemma dict_append_keys {K V : Type} `{Hashable K} (d : dict K (list V)) (k : K) (v : V) :
  NoDup (dict_keys d) ->
  (forall k' l, dict_get d k' = Some l -> l <> []) ->
  NoDup (dict_keys (dict_append d k v))
  /\ (forall k' l, dict_get (dict_append d k v) k' = Some l -> l <> [])
  /\ (forall x, In x (dict_keys (dict_append d k v)) <-> x = k \/ In x (dict_keys d)).
Proof.
  intros Hnd Hne. unfold dict_append.
  assert (Hgen : forall l0, l0 <> [] ->
             NoDup (dict_keys (dict_set d k l0))
             /\ (forall k' l, dict_get (dict_set d k l0) k' = Some l -> l <> [])
             /\ (forall x, In x (dict_keys (dict_set d k l0)) <-> x = k \/ In x (dict_keys d))).
  { intros l0 Hl0. split; [now apply dict_set_keys_NoDup |]. split.
    - intros k' l. destruct (key_eqb_spec k' k) as [-> | Hk].
      + rewrite dict_get_set_same. now intros [= <-].
      + rewrite dict_get_set_other by exact Hk. apply Hne.
    - intros x. apply dict_keys_set. }
  destruct (dict_get d k) as [l |]; apply Hgen.
  - intros Happ. apply app_eq_nil in Happ as [_ Hv]. discriminate.
  - discriminate.
Qed.

Lemma reverse_cell_entries (cell : Z) (sez : Z) (blocks : list (MilanSection CensusCodes)) :
  forall blockMap : dict Z (list BlockCell),
    entries_of
      (fold_left
         (fun bm block =>
            dict_append bm (SEZ2011 (censusCodes block)) (mkBlockCell cell block))
         blocks blockMap) sez
    = entries_of blockMap sez
      ++ map (mkBlockCell cell)
             (filter (fun block => SEZ2011 (censusCodes block) =? sez) blocks).
Proof.
  induction blocks as [| b bs IH]; intros blockMap; simpl.
  - now rewrite app_nil_r.
  - rewrite IH, entries_of_append. simpl. rewrite (Z.eqb_sym (SEZ2011 (censusCodes b)) sez).
    destruct (Z.eqb_spec sez (SEZ2011 (censusCodes b))) as [<- | _]; simpl.
    + now rewrite <- app_assoc.
    + reflexivity.
Qed.

Lemma reverse_entries :
  forall (cellMap : dict Z (list (MilanSection CensusCodes))) (sez : Z),
    entries_of (milan_grid_census_blocks_map_reverse cellMap) sez
    = cells_of_block cellMap sez.
Proof.
  intros cellMap sez. unfold milan_grid_census_blocks_map_reverse, cells_of_block.
  assert (Hgen : forall blockMap : dict Z (list BlockCell),
             entries_of
               (fold_left
                  (fun blockMap item =>
                     fold_left
                       (fun bm block =>
                          dict_append bm (SEZ2011 (censusCodes block))
                                      (mkBlockCell (fst item) block))
                       (snd item) blockMap)
                  cellMap blockMap) sez
             = entries_of blockMap sez
               ++ flat_map
                    (fun item =>
                       map (mkBlockCell (fst item))
                           (filter (fun block => SEZ2011 (censusCodes block) =? sez)
                                   (snd item)))
                    cellMap).
  { induction cellMap as [| item cellMap IH]; intros blockMap; simpl.
    - now rewrite app_nil_r.
    - rewrite IH, reverse_cell_entries. now rewrite <- app_assoc. }
  apply Hgen.
Qed.

(** The list the block-to-cell map holds for a block: the entries of the
    cell-to-block map that point at the block, each under the id of its
    cell, in the order of the cell-to-block map; nothing is lost, added or
    repeated. *)
Theorem reverse_map_lists :
  forall (cellMap : dict Z (list (MilanSection CensusCodes))) (sez : Z),
    entries_of (milan_grid_census_blocks_map_reverse cellMap) sez
    = cells_of_block cellMap sez.
Proof. exact reverse_entries. Qed.

Lemma reverse_fold_keys (cellMap : dict Z (list (MilanSection CensusCodes))) :
  forall blockMap : dict Z (list BlockCell),
    NoDup (dict_keys blockMap) ->
    (forall k l, dict_get blockMap k = Some l -> l <> []) ->
    let result :=
      fold_left
        (fun blockMap item =>
           fold_left
             (fun bm block =>
                dict_append bm (SEZ2011 (censusCodes block)) (mkBlockCell (fst item) block))
             (snd item) blockMap)
        cellMap blockMap in
    NoDup (dict_keys result)
    /\ (forall k l, dict_get result k = Some l -> l <> []).
Proof.
  induction cellMap as [| [cell blocks] cellMap IH]; intros blockMap Hnd Hne; simpl.
  - split; assumption.
  - apply IH.
    + clear IH. revert blockMap Hnd Hne.
      induction blocks as [| b bs IHb]; intros blockMap Hnd Hne; simpl; [exact Hnd |].
      destruct (dict_append_keys blockMap (SEZ2011 (censusCodes b)) (mkBlockCell cell b)
                                 Hnd Hne) as [H1 [H2 _]].
      now apply IHb.
    + clear IH. revert blockMap Hnd Hne.
      induction blocks as [| b bs IHb]; intros blockMap Hnd Hne; simpl; [exact Hne |].
      destruct (dict_append_keys blockMap (SEZ2011 (censusCodes b)) (mkBlockCell cell b)
                                 Hnd Hne) as [H1 [H2 _]].
      now apply IHb.
Qed.

(** A block is a key of the block-to-cell map exactly when some cell has an
    entry for it: no key holds an empty list, no key occurs twice, and a cell
    without entries leaves no trace. *)
Theorem reverse_map_keys :
  forall cellMap : dict Z (list (MilanSection CensusCodes)),
    let blockMap := milan_grid_census_blocks_map_reverse cellMap in
    NoDup (dict_keys blockMap)
    /\ (forall sez cells, dict_get blockMap sez = Some cells -> cells <> [])
    /\ (forall sez,
           In sez (dict_keys blockMap)
           <-> exists cell blocks block,
               In (cell, blocks) cellMap /\ In block blocks
               /\ SEZ2011 (censusCodes block) = sez).
Proof.
  intros cellMap blockMap.
  destruct (reverse_fold_keys cellMap [] (NoDup_nil Z)) as [Hnd Hne];
    [intros k l; simpl; discriminate |].
  fold (milan_grid_census_blocks_map_reverse cellMap) in Hnd, Hne. fold blockMap in Hnd, Hne.
  split; [exact Hnd |]. split; [exact Hne |].
  intros sez.
  assert (Hlist : entries_of blockMap sez = cells_of_block cellMap sez)
    by apply reverse_entries.
  split.
  - intros Hin.
    destruct (dict_get blockMap sez) as [cells |] eqn:Hget.
    + pose proof (Hne sez cells Hget) as Hcells.
      unfold entries_of in Hlist. rewrite Hget in Hlist.
      destruct cells as [| bc rest]; [congruence |].
      assert (Hbc : In bc (cells_of_block cellMap sez)) by (rewrite <- Hlist; now left).
      unfold cells_of_block in Hbc. apply in_flat_map in Hbc as [[cell blocks] [Hitem Hbc]].
      apply in_map_iff in Hbc as [block [_ Hblock]].
      apply filter_In in Hblock as [Hblock Hsez]. apply Z.eqb_eq in Hsez.
      exists cell, blocks, block. auto.
    + apply dict_get_None_keys in Hget. contradiction.
  - intros [cell [blocks [block [Hitem [Hblock Hsez]]]]].
    assert (Hbc : In (mkBlockCell cell block) (cells_of_block cellMap sez)).
    { unfold cells_of_block. apply in_flat_map. exists (cell, blocks). split; [exact Hitem |].
      apply in_map. apply filter_In. split; [exact Hblock | now apply Z.eqb_eq]. }
    rewrite <- Hlist in Hbc. unfold entries_of in Hbc.
    destruct (dict_get blockMap sez) as [cells |] eqn:Hget; [| destruct Hbc].
    destruct (in_dec Z.eq_dec sez (dict_keys blockMap)) as [Hin | Hnot]; [exact Hin |].
    apply dict_get_None_keys in Hnot. congruence.
Qed.

(** ** The block graph: errors, self-loops, nodes *)

Lemma for_each_outcome {A S : Type} (ok : A -> bool) (e : exn) (body : S -> A -> result S)
      (xs : list A) :
  (forall s x, In x xs ->
               if ok x then exists s', body s x = Ok s' else body s x = Raise e) ->
  forall s,
    if forallb ok xs then exists s', for_each xs body s = Ok s'
    else for_each xs body s = Raise e.
Proof.
  induction xs as [| x xs IH]; intros Hbody s; simpl.
  - eauto.
  - pose proof (Hbody s x (or_introl eq_refl)) as Hx.
    destruct (ok x); simpl.
    + destruct Hx as [s1 ->]. simpl. apply IH. intros s0 y Hy. apply Hbody. now right.
    + now rewrite Hx.
Qed.

Lemma forallb_of_flat_map {A B : Type} (p : B -> bool) (f : A -> list B) (xs : list A) :
  forallb p (flat_map f xs) = forallb (fun x => forallb p (f x)) xs.
Proof.
  induction xs as [| x xs IH]; simpl; [reflexivity |].
  now rewrite forallb_app, IH.
Qed.

Lemma forallb_of_map {A B : Type} (p : B -> bool) (f : A -> B) (xs : list A) :
  forallb p (map f xs) = forallb (fun x => p (f x)) xs.
Proof.
  induction xs as [| x xs IH]; simpl; [reflexivity |]. now rewrite IH.
Qed.

Section BlockGraphErrors.
Variable cellsGraph : Graph Z.
Variable cellsMap : dict Z (list (MilanSection CensusCodes)).

Lemma visit_edge_outcome SEZ cellFrom (g : Graph Z) (edge : Z * Z * Q) :
  if dict_has cellsMap (snd (fst edge))
  then exists g', visit_edge cellsMap SEZ cellFrom g edge = Ok g'
  else visit_edge cellsMap SEZ cellFrom g edge = Raise KeyError.
Proof.
  destruct edge as [[a b] w]. unfold visit_edge, dict_index, dict_has. simpl.
  destruct (dict_get cellsMap b); simpl; eauto.
Qed.

Lemma visit_cellFrom_outcome SEZ (g : Graph Z) cellFrom :
  if forallb (dict_has cellsMap)
             (map (fun edge => snd (fst edge)) (edges_of cellsGraph (cellID cellFrom)))
  then exists g', visit_cellFrom cellsGraph cellsMap SEZ g cellFrom = Ok g'
  else visit_cellFrom cellsGraph cellsMap SEZ g cellFrom = Raise KeyError.
Proof.
  rewrite forallb_of_map. unfold visit_cellFrom.
  apply for_each_outcome with (ok := fun edge : Z * Z * Q => dict_has cellsMap (snd (fst edge))).
  intros s x _. apply visit_edge_outcome.
Qed.

Lemma visit_block_outcome (g : Graph Z) (item : Z * list BlockCell) :
  if forallb (dict_has cellsMap)
             (flat_map
                (fun cellFrom =>
                   map (fun edge => snd (fst edge)) (edges_of cellsGraph (cellID cellFrom)))
                (snd item))
  then exists g', visit_block cellsGraph cellsMap g item = Ok g'
  else visit_block cellsGraph cellsMap g item = Raise KeyError.
Proof.
  rewrite forallb_of_flat_map. unfold visit_block.
  apply for_each_outcome
    with (ok := fun cellFrom =>
                  forallb (dict_has cellsMap)
                          (map (fun edge : Z * Z * Q => snd (fst edge))
                               (edges_of cellsGraph (cellID cellFrom)))).
  intros s x _. apply visit_cellFrom_outcome.
Qed.
End BlockGraphErrors.

(** The block graph is built exactly when every cell at the far end of a
    visited cell-graph edge is a key of the cell-to-block map; otherwise the
    construction stops with a [KeyError], and with no other error. *)
Theorem block_graph_fails_on_unmapped_cell :
  forall (blocksMap : dict Z (list BlockCell)) (cellsGraph : Graph Z)
         (cellsMap : dict Z (list (MilanSection CensusCodes))),
    if forallb (dict_has cellsMap) (visited_cells cellsGraph blocksMap)
    then exists g, create_census_blocks_graph blocksMap cellsGraph cellsMap = Ok g
    else create_census_blocks_graph blocksMap cellsGraph cellsMap = Raise KeyError.
Proof.
  intros blocksMap cellsGraph cellsMap.
  unfold visited_cells. rewrite forallb_of_flat_map.
  pose proof (for_each_outcome
                (fun item : Z * list BlockCell =>
                   forallb (dict_has cellsMap)
                           (flat_map
                              (fun cellFrom =>
                                 map (fun edge : Z * Z * Q => snd (fst edge))
                                     (edges_of cellsGraph (cellID cellFrom)))
                              (snd item)))
                KeyError (visit_block cellsGraph cellsMap) blocksMap
                (fun s x _ => visit_block_outcome cellsGraph cellsMap s x)
                empty_graph) as Hloop.
  unfold create_census_blocks_graph, accumulate_blocks.
  destruct (forallb _ blocksMap).
  - destruct Hloop as [g ->]. simpl. eauto.
  - now rewrite Hloop.
Qed.

(** A cell with a self-loop of weight [W], overlapping one block with
    census-side percentage p: the self-loop is visited once, and the block's
    self-loop still gets half of W * p * p. *)
Theorem self_loop_is_halved :
  forall (A : Z) (W : Q) (eA : MilanSection CensusCodes),
    let X := SEZ2011 (censusCodes eA) in
    let cellsMap := [(A, [eA])] in
    create_census_blocks_graph (milan_grid_census_blocks_map_reverse cellsMap)
                               (add_edge empty_graph A A W) cellsMap
    = Ok (mkGraph [(X, [])]
                  [(X, X, (W * censusAreaPercentage eA * censusAreaPercentage eA / 2)%Q)]).
Proof.
  intros A W eA X cellsMap.
  unfold create_census_blocks_graph, accumulate_blocks, cellsMap,
    milan_grid_census_blocks_map_reverse, dict_append.
  simpl.
  unfold visit_block, visit_cellFrom, edges_of, add_edge, add_node, has_node, dict_has.
  simpl. rewrite !Z.eqb_refl. simpl. rewrite !Z.eqb_refl. simpl.
  unfold visit_edge, dict_index. simpl. rewrite !Z.eqb_refl. simpl.
  unfold visit_blockTo, add_weight, edge_weight, add_edge, add_node, has_node, dict_has.
  simpl. fold X. repeat (rewrite Z.eqb_refl; simpl).
  unfold halve_weights. simpl. reflexivity.
Qed.

Lemma dict_has_In {K V : Type} `{Hashable K} (d : dict K V) (k : K) :
  dict_has d k = true <-> In k (dict_keys d).
Proof.
  unfold dict_has. induction d as [| [k' v'] d IH]; simpl.
  - split; [discriminate | tauto].
  - destruct (key_eqb_spec k k') as [-> | Hne].
    + split; auto.
    + rewrite IH. split; [auto | intros [E | Hin]; [congruence | exact Hin]].
Qed.

Lemma for_each_members {A S X : Type} (M : S -> X -> Prop) (Inv : S -> Prop)
      (h : A -> list X) (body : S -> A -> result S) (xs : list A) :
  (forall s x s', In x xs -> Inv s -> body s x = Ok s' ->
                  Inv s' /\ forall n, M s' n <-> M s n \/ In n (h x)) ->
  forall s s', Inv s -> for_each xs body s = Ok s' ->
               Inv s' /\ forall n, M s' n <-> M s n \/ In n (flat_map h xs).
Proof.
  induction xs as [| x xs IH]; intros Hbody s s' Hinv Hrun; simpl in *.
  - injection Hrun as <-. split; [exact Hinv | intros n; tauto].
  - destruct (body s x) as [s1 | e] eqn:Hx; simpl in Hrun; [| discriminate].
    destruct (Hbody s x s1 (or_introl eq_refl) Hinv Hx) as [Hinv1 Hm1].
    destruct (IH (fun s0 y s0' Hy => Hbody s0 y s0' (or_intror Hy)) s1 s' Hinv1 Hrun)
      as [Hinv' Hm'].
    split; [exact Hinv' |]. intros n. rewrite Hm', Hm1, in_app_iff. tauto.
Qed.

Section NodeSets.
Context {N : Type} `{Hashable N}.

Lemma nodes_add_node (g : Graph N) (n x : N) :
  In x (dict_keys (g_nodes (add_node g n))) <-> x = n \/ In x (dict_keys (g_nodes g)).
Proof.
  unfold add_node. destruct (has_node g n) eqn:E.
  - apply dict_has_In in E. split; [auto | intros [-> | Hx]; auto].
  - simpl. unfold dict_keys. rewrite map_app, in_app_iff. simpl.
    split; [intros [Hx | [Hx | []]]; auto | intros [Hx | Hx]; auto].
Qed.

Lemma nodes_add_weight (g : Graph N) (u v : N) (w : Q) :
  In u (dict_keys (g_nodes g)) -> In v (dict_keys (g_nodes g)) ->
  g_nodes (add_weight g u v w) = g_nodes g.
Proof.
  intros Hu Hv. unfold add_weight. destruct (edge_weight g u v); [reflexivity |].
  assert (Hpresent : forall n, In n (dict_keys (g_nodes g)) -> add_node g n = g).
  { intros n Hn. apply dict_has_In in Hn. unfold add_node, has_node. now rewrite Hn. }
  unfold add_edge. cbn [g_nodes]. now rewrite (Hpresent u Hu), (Hpresent v Hv).
Qed.
End NodeSets.

Section BlockGraphNodes.
Variable cellsGraph : Graph Z.
Variable cellsMap : dict Z (list (MilanSection CensusCodes)).

Let nodes_of (g : Graph Z) (n : Z) : Prop := In n (dict_keys (g_nodes g)).

Let far_end (c : Z * Z * Q) : Z := snd (fst c).

Lemma nodes_visit_blockTo SEZ cellFrom edgeWeight (g : Graph Z) blockTo :
  nodes_of g SEZ ->
  forall n, nodes_of (visit_blockTo SEZ cellFrom edgeWeight g blockTo) n
            <-> nodes_of g n \/ n = SEZ2011 (censusCodes blockTo).
Proof.
  intros HSEZ n. unfold nodes_of, visit_blockTo in *.
  rewrite nodes_add_weight.
  - rewrite nodes_add_node. tauto.
  - apply nodes_add_node. now right.
  - apply nodes_add_node. now left.
Qed.

Lemma nodes_visit_blocksTo SEZ cellFrom edgeWeight blocksTo :
  forall g : Graph Z,
    nodes_of g SEZ ->
    forall n, nodes_of (fold_left (visit_blockTo SEZ cellFrom edgeWeight) blocksTo g) n
              <-> nodes_of g n
                  \/ In n (map far_end (map (block_contribution SEZ cellFrom edgeWeight)
                                            blocksTo)).
Proof.
  induction blocksTo as [| b bs IH]; intros g HSEZ n; simpl.
  - tauto.
  - rewrite IH.
    + rewrite (nodes_visit_blockTo SEZ cellFrom edgeWeight g b HSEZ).
      unfold far_end at 2. simpl. intuition congruence.
    + apply nodes_visit_blockTo; [exact HSEZ | now left].
Qed.

Lemma nodes_visit_edge SEZ cellFrom (g : Graph Z) edge g' :
  nodes_of g SEZ ->
  visit_edge cellsMap SEZ cellFrom g edge = Ok g' ->
  nodes_of g' SEZ
  /\ forall n, nodes_of g' n
               <-> nodes_of g n \/ In n (map far_end (edge_contributions cellsMap SEZ cellFrom edge)).
Proof.
  intros HSEZ Hrun. destruct edge as [[a b] w].
  unfold visit_edge, dict_index in Hrun. unfold edge_contributions, far_blocks. simpl in *.
  destruct (dict_get cellsMap b) as [blocksTo |]; simpl in Hrun; [| discriminate].
  injection Hrun as <-.
  pose proof (nodes_visit_blocksTo SEZ cellFrom w blocksTo g HSEZ) as Hn.
  split; [apply Hn; now left | exact Hn].
Qed.

Lemma nodes_visit_cellFrom SEZ (g : Graph Z) cellFrom g' :
  nodes_of g SEZ ->
  visit_cellFrom cellsGraph cellsMap SEZ g cellFrom = Ok g' ->
  nodes_of g' SEZ
  /\ forall n, nodes_of g' n
               <-> nodes_of g n
                   \/ In n (map far_end (cell_contributions cellsGraph cellsMap SEZ cellFrom)).
Proof.
  intros HSEZ Hrun. unfold visit_cellFrom in Hrun.
  destruct (for_each_members nodes_of (fun g0 => nodes_of g0 SEZ)
              (fun edge => map far_end (edge_contributions cellsMap SEZ cellFrom edge))
              (visit_edge cellsMap SEZ cellFrom)
              (edges_of cellsGraph (cellID cellFrom))
              (fun s x s' _ Hs Hx => nodes_visit_edge SEZ cellFrom s x s' Hs Hx)
              g g' HSEZ Hrun) as [Hinv Hm].
  split; [exact Hinv |]. intros n. rewrite Hm. unfold cell_contributions.
  rewrite !in_flat_map, in_map_iff. split; (intros [Hn | Hn]; [now left | right]).
  - destruct Hn as [edge [He Hn]]. apply in_map_iff in Hn as [c [Hc Hin]].
    exists c. split; [exact Hc |]. apply in_flat_map. eauto.
  - destruct Hn as [c [Hc Hin]]. apply in_flat_map in Hin as [edge [He Hin]].
    exists edge. split; [exact He |]. apply in_map_iff. eauto.
Qed.

Lemma nodes_visit_block (g : Graph Z) (item : Z * list BlockCell) g' :
  visit_block cellsGraph cellsMap g item = Ok g' ->
  forall n, nodes_of g' n
            <-> nodes_of g n
                \/ In n (fst item :: map far_end (block_contributions cellsGraph cellsMap item)).
Proof.
  intros Hrun. unfold visit_block in Hrun.
  assert (HSEZ : nodes_of (add_node g (fst item)) (fst item))
    by (apply nodes_add_node; now left).
  destruct (for_each_members nodes_of (fun g0 => nodes_of g0 (fst item))
              (fun cellFrom =>
                 map far_end (cell_contributions cellsGraph cellsMap (fst item) cellFrom))
              (visit_cellFrom cellsGraph cellsMap (fst item))
              (snd item)
              (fun s x s' _ Hs Hx => nodes_visit_cellFrom (fst item) s x s' Hs Hx)
              (add_node g (fst item)) g' HSEZ Hrun) as [_ Hm].
  intros n. rewrite Hm. unfold nodes_of at 1. rewrite nodes_add_node.
  unfold block_contributions. simpl.
  rewrite !in_flat_map, in_map_iff.
  split.
  - intros [[Hn | Hn] | Hn]; [right; left; congruence | now left | right; right].
    destruct Hn as [cf [Hcf Hn]]. apply in_map_iff in Hn as [c [Hc Hin]].
    exists c. split; [exact Hc |]. apply in_flat_map. eauto.
  - intros [Hn | [Hn | Hn]]; [left; now right | left; left; congruence | right].
    destruct Hn as [c [Hc Hin]]. apply in_flat_map in Hin as [cf [Hcf Hin]].
    exists cf. split; [exact Hcf |]. apply in_map_iff. eauto.
Qed.

Lemma nodes_accumulate_blocks (blocksMap : dict Z (list BlockCell)) (g : Graph Z) :
  accumulate_blocks cellsGraph cellsMap blocksMap = Ok g ->
  forall n, nodes_of g n
            <-> In n (dict_keys blocksMap)
                \/ In n (map far_end (contributions cellsGraph cellsMap blocksMap)).
Proof.
  intros Hrun. unfold accumulate_blocks in Hrun.
  destruct (for_each_members nodes_of (fun _ => True)
              (fun item =>
                 fst item :: map far_end (block_contributions cellsGraph cellsMap item))
              (visit_block cellsGraph cellsMap) blocksMap
              (fun s x s' _ _ Hx => conj I (nodes_visit_block s x s' Hx))
              empty_graph g I Hrun) as [_ Hm].
  intros n. rewrite Hm. unfold nodes_of at 1. simpl.
  unfold contributions, dict_keys. rewrite !in_flat_map, !in_map_iff.
  split.
  - intros [[] | [item [Hitem [Hn | Hn]]]].
    + left. exists item. auto.
    + right. apply in_map_iff in Hn as [c [Hc Hin]].
      exists c. split; [exact Hc |]. apply in_flat_map. eauto.
  - intros [[item [Hn Hitem]] | [c [Hc Hin]]]; right.
    + exists item. split; [exact Hitem | now left].
    + apply in_flat_map in Hin as [item [Hitem Hin]].
      exists item. split; [exact Hitem |]. right. apply in_map_iff. eauto.
Qed.
End BlockGraphNodes.

(** The nodes of the block graph are the blocks of the block-to-cell map,
    with or without an edge, and the blocks at the far end of a contribution;
    there is no other node. *)
Theorem block_graph_nodes :
  forall (blocksMap : dict Z (list BlockCell)) (cellsGraph : Graph Z)
         (cellsMap : dict Z (list (MilanSection CensusCodes))) (g : Graph Z),
    create_census_blocks_graph blocksMap cellsGraph cellsMap = Ok g ->
    forall n : Z,
      In n (dict_keys (g_nodes g))
      <-> In n (dict_keys blocksMap)
          \/ exists u w, In (u, n, w) (contributions cellsGraph cellsMap blocksMap).
Proof.
  intros blocksMap cellsGraph cellsMap g Hrun n.
  unfold create_census_blocks_graph in Hrun.
  destruct (accumulate_blocks cellsGraph cellsMap blocksMap) as [g0 | e] eqn:Hacc;
    simpl in Hrun; [| discriminate].
  injection Hrun as <-. simpl.
  rewrite (nodes_accumulate_blocks cellsGraph cellsMap blocksMap g0 Hacc n).
  rewrite in_map_iff.
  split; (intros [Hn | Hn]; [now left | right]).
  - destruct Hn as [[[u v] w] [Hv Hin]]. simpl in Hv. subst v. eauto.
  - destruct Hn as [u [w Hin]]. exists (u, n, w). auto.
Qed.

Lemma block_graph_nodes_witness :
  In 20 (dict_keys (g_nodes example_blocksGraph))
  <-> In 20 (dict_keys example_blocksMap)
      \/ exists u w,
        In (u, 20, w) (contributions example_cellsGraph example_cellsMap example_blocksMap).
Proof.
  exact (block_graph_nodes example_blocksMap example_cellsGraph example_cellsMap
                           example_blocksGraph example_blocksGraph_run 20).
Defined.

(** ** The aggregate cell graph *)

Lemma set_mem_In (s : list Z) (x : Z) : set_mem s x = true <-> In x s.
Proof.
  unfold set_mem. rewrite existsb_exists. split.
  - intros [y [Hy E]]. apply Z.eqb_eq in E. now subst.
  - intros Hx. exists x. split; [exact Hx | apply Z.eqb_refl].
Qed.

Lemma NoDup_snoc {A : Type} (l : list A) (x : A) :
  NoDup l -> ~ In x l -> NoDup (l ++ [x]).
Proof.
  induction l as [| y l IH]; simpl; intros Hnd Hx.
  - constructor; [intros [] | constructor].
  - inversion Hnd as [| ? ? Hy Hl]; subst. constructor.
    + rewrite in_app_iff. simpl. intros [Hin | [E | []]]; [contradiction |].
      apply Hx. now left.
    + apply IH; [exact Hl | intros Hin; apply Hx; now right].
Qed.

Lemma milanNodes_NoDup {E : Type} (grid : dict Z (list E)) : NoDup (milanNodes grid).
Proof.
  unfold milanNodes.
  assert (Hgen : forall acc, NoDup acc ->
             NoDup (fold_left
                      (fun nodes item =>
                         if (1 <? Z.of_nat (List.length (snd item)))
                         then set_add nodes (fst item) else nodes) grid acc)).
  { induction grid as [| [k bs] grid IH]; intros acc Hacc; simpl; [exact Hacc |].
    apply IH. destruct (1 <? Z.of_nat (List.length bs)); [| exact Hacc].
    unfold set_add. simpl. destruct (existsb (Z.eqb k) acc) eqn:Hk; [exact Hacc |].
    apply NoDup_snoc; [exact Hacc |]. intros Hin. apply set_mem_In in Hin.
    unfold set_mem in Hin. congruence. }
  apply Hgen. constructor.
Qed.

Section AggregateFacts.

Lemma nodes_fold_add_node (l : list Z) :
  forall g : Graph Z,
    (NoDup (dict_keys (g_nodes g)) -> NoDup (dict_keys (g_nodes (fold_left add_node l g))))
    /\ forall x, In x (dict_keys (g_nodes (fold_left add_node l g)))
                 <-> In x (dict_keys (g_nodes g)) \/ In x l.
Proof.
  induction l as [| n l IH]; intros g; simpl.
  - split; [auto | intros x; tauto].
  - destruct (IH (add_node g n)) as [Hnd Hin]. split.
    + intros Hg. apply Hnd. unfold add_node. destruct (has_node g n) eqn:E; [exact Hg |].
      simpl. unfold dict_keys. rewrite map_app. simpl. apply NoDup_snoc; [exact Hg |].
      intros Hx. apply dict_has_In in Hx. unfold has_node in E. congruence.
    + intros x. rewrite Hin, nodes_add_node. intuition.
Qed.

Lemma g_edges_fold_add_node (l : list Z) :
  forall g : Graph Z, g_edges (fold_left add_node l g) = g_edges g.
Proof.
  induction l as [| n l IH]; intros g; simpl; [reflexivity |].
  now rewrite IH, g_edges_add_node.
Qed.

Variable nodes : list Z.

Lemma g_edges_aggregate_extract (dictionary : dict Z (dict Z Q)) :
  forall g : Graph Z,
    g_edges (aggregate_extract nodes g dictionary)
    = fold_left accumulate_edge (kept_entries nodes dictionary) (g_edges g).
Proof.
  unfold aggregate_extract, kept_entries.
  induction dictionary as [| [node1 innerDict] dictionary IH]; intros g; simpl;
    [reflexivity |].
  rewrite IH, fold_left_app. f_equal.
  destruct (set_mem nodes node1); simpl; [| reflexivity].
  clear IH. revert g.
  induction innerDict as [| [node2 w] innerDict IHi]; intros g; simpl; [reflexivity |].
  rewrite IHi, fold_left_app. f_equal.
  destruct (set_mem nodes node2); simpl; [| reflexivity].
  apply g_edges_add_weight.
Qed.

Lemma g_nodes_aggregate_extract (dictionary : dict Z (dict Z Q)) :
  forall g : Graph Z,
    (forall n, set_mem nodes n = true -> In n (dict_keys (g_nodes g))) ->
    g_nodes (aggregate_extract nodes g dictionary) = g_nodes g.
Proof.
  unfold aggregate_extract.
  induction dictionary as [| [node1 innerDict] dictionary IH]; intros g Hg; simpl;
    [reflexivity |].
  assert (Hinner :
            g_nodes
              (if negb (set_mem nodes node1) then g
               else fold_left
                      (fun g' entry =>
                         if negb (set_mem nodes (fst entry)) then g'
                         else add_weight g' node1 (fst entry) (snd entry))
                      innerDict g)
            = g_nodes g).
  { destruct (set_mem nodes node1) eqn:E1; simpl; [| reflexivity].
    clear IH. revert g Hg.
    induction innerDict as [| [node2 w] innerDict IHi]; intros g Hg; simpl; [reflexivity |].
    assert (Hstep : g_nodes (if negb (set_mem nodes node2) then g
                             else add_weight g node1 node2 w) = g_nodes g).
    { destruct (set_mem nodes node2) eqn:E2; simpl; [| reflexivity].
      apply nodes_add_weight; apply Hg; assumption. }
    rewrite IHi; [exact Hstep |]. intros n Hn. rewrite Hstep. now apply Hg. }
  rewrite IH; [exact Hinner |]. intros n Hn. rewrite Hinner. now apply Hg.
Qed.

Lemma kept_entries_ends (dictionary : dict Z (dict Z Q)) (a b : Z) (w : Q) :
  In (a, b, w) (kept_entries nodes dictionary) -> In a nodes /\ In b nodes.
Proof.
  unfold kept_entries. intros Hin.
  apply in_flat_map in Hin as [[node1 innerDict] [_ Hin]]. simpl in Hin.
  destruct (set_mem nodes node1) eqn:E1; [| destruct Hin].
  apply in_flat_map in Hin as [[node2 w'] [_ Hin]]. simpl in Hin.
  destruct (set_mem nodes node2) eqn:E2; [| destruct Hin].
  destruct Hin as [Heq | []]. injection Heq as <- <- _.
  split; now apply set_mem_In.
Qed.
End AggregateFacts.

Lemma set_weight_ends {N : Type} `{Hashable N} (es : list (N * N * Q)) (u v : N) (w : Q)
      (e : N * N * Q) :
  In e (set_weight es u v w) ->
  fst e = (u, v) \/ exists e0, In e0 es /\ fst e0 = fst e.
Proof.
  induction es as [| e1 es IH]; simpl.
  - intros [<- | []]. now left.
  - destruct (joins u v e1).
    + intros [<- | Hin]; right.
      * exists e1. split; [now left | now destruct e1 as [[a b] w1]].
      * exists e. split; [now right | reflexivity].
    + intros [<- | Hin].
      * right. exists e1. split; [now left | reflexivity].
      * destruct (IH Hin) as [Heq | [e0 [H0 Heq]]]; [now left |].
        right. exists e0. split; [now right | exact Heq].
Qed.

Lemma accumulated_ends {N : Type} `{Hashable N} (cs : list (N * N * Q)) :
  forall (es : list (N * N * Q)) (e : N * N * Q),
    In e (fold_left accumulate_edge cs es) ->
    exists e0, (In e0 es \/ In e0 cs) /\ fst e0 = fst e.
Proof.
  induction cs as [| c cs IH]; intros es e Hin; simpl in *.
  - exists e. auto.
  - destruct (IH _ _ Hin) as [e0 [[H0 | H0] Heq]].
    + destruct c as [[u v] w]. unfold accumulate_edge in H0.
      apply set_weight_ends in H0 as [Hc | [e1 [H1 Heq1]]].
      * exists (u, v, w). split; [right; now left | simpl; congruence].
      * exists e1. split; [now left | congruence].
    + exists e0. split; [right; now right | exact Heq].
Qed.

(** The nodes of the aggregate graph are the cells with two or more entries
    in the cell-to-block map, each once, whatever the extracts hold; every
    edge joins two of them. *)
Theorem aggregate_nodes_are_the_kept_cells :
  forall (E : Type) (grid : dict Z (list E)) (extracts : list (dict Z (dict Z Q))),
    let graph := aggregate_dates grid extracts in
    NoDup (dict_keys (g_nodes graph))
    /\ (forall n, In n (dict_keys (g_nodes graph))
                  <-> exists blocks, In (n, blocks) grid /\ (1 < List.length blocks)%nat)
    /\ (forall a b w, In (a, b, w) (g_edges graph) ->
                      In a (dict_keys (g_nodes graph)) /\ In b (dict_keys (g_nodes graph))).
Proof.
  intros E grid extracts graph.
  set (nodes := milanNodes grid).
  set (graph0 := fold_left add_node nodes (@empty_graph Z)).
  destruct (nodes_fold_add_node nodes empty_graph) as [Hnd0 Hin0].
  fold graph0 in Hnd0, Hin0.
  assert (Hgen : forall g, g_nodes g = g_nodes graph0 ->
             g_nodes (fold_left (aggregate_extract nodes) extracts g) = g_nodes graph0
             /\ forall e, In e (g_edges (fold_left (aggregate_extract nodes) extracts g)) ->
                          exists e0, (In e0 (g_edges g)
                                      \/ In e0 (flat_map (kept_entries nodes) extracts))
                                     /\ fst e0 = fst e).
  { induction extracts as [| dictionary extracts IH]; intros g Hg; simpl.
    - split; [exact Hg |]. intros e He. exists e. auto.
    - assert (Hstep : g_nodes (aggregate_extract nodes g dictionary) = g_nodes graph0).
      { rewrite g_nodes_aggregate_extract; [exact Hg |].
        intros n Hn. rewrite Hg. apply Hin0. right. now apply set_mem_In. }
      destruct (IH _ Hstep) as [Hnodes Hedges]. split; [exact Hnodes |].
      intros e He. destruct (Hedges e He) as [e0 [[H0 | H0] Heq]].
      + rewrite g_edges_aggregate_extract in H0.
        apply accumulated_ends in H0 as [e1 [[H1 | H1] Heq1]].
        * exists e1. split; [now left | congruence].
        * exists e1. split; [right; apply in_or_app; now left | congruence].
      + exists e0. split; [right; apply in_or_app; now right | exact Heq]. }
  destruct (Hgen graph0 eq_refl) as [Hnodes Hedges].
  change (fold_left (aggregate_extract nodes) extracts graph0) with graph in Hnodes, Hedges.
  rewrite Hnodes.
  assert (Hkeys : forall n, In n (dict_keys (g_nodes graph0)) <-> In n nodes).
  { intros n. rewrite Hin0. simpl. tauto. }
  split; [apply Hnd0; constructor |]. split.
  - intros n. rewrite Hkeys, <- set_mem_In. apply milanNodes_spec.
  - intros a b w Hin. destruct (Hedges _ Hin) as [[[a0 b0] w0] [[H0 | H0] Heq]].
    + unfold graph0 in H0. rewrite g_edges_fold_add_node in H0. destruct H0.
    + simpl in Heq. injection Heq as -> ->.
      apply in_flat_map in H0 as [dictionary [_ H0]].
      apply kept_entries_ends in H0 as [Ha Hb].
      split; now apply Hkeys.
Qed.

Lemma aggregate_edges {E : Type} (grid : dict Z (list E))
      (extracts : list (dict Z (dict Z Q))) :
  g_edges (aggregate_dates grid extracts)
  = fold_left accumulate_edge (flat_map (kept_entries (milanNodes grid)) extracts) [].
Proof.
  unfold aggregate_dates.
  assert (Hgen : forall g,
             g_edges (fold_left (aggregate_extract (milanNodes grid)) extracts g)
             = fold_left accumulate_edge
                         (flat_map (kept_entries (milanNodes grid)) extracts)
                         (g_edges g)).
  { induction extracts as [| dictionary extracts IH]; intros g; simpl; [reflexivity |].
    now rewrite IH, fold_left_app, g_edges_aggregate_extract. }
  cbv zeta. rewrite Hgen. now rewrite g_edges_fold_add_node.
Qed.

(** The weight the aggregate graph holds for a pair of cells is the sum,
    over all the extracts and both orientations, of the entries whose two
    ends are kept cells; a pair without such an entry has no edge. *)
Theorem aggregate_edge_weight_is_sum :
  forall (E : Type) (grid : dict Z (list E)) (extracts : list (dict Z (dict Z Q)))
         (u v : Z),
    let kept := flat_map (kept_entries (milanNodes grid)) extracts in
    if pair_visited u v kept
    then exists w, edge_weight (aggregate_dates grid extracts) u v = Some w
                   /\ (w == pair_total u v kept)%Q
    else edge_weight (aggregate_dates grid extracts) u v = None.
Proof.
  intros E grid extracts u v kept.
  rewrite edge_weight_weight_in, aggregate_edges.
  apply weight_in_contributions.
Qed.

(** ** The daily relation graph *)

Lemma dd_get_add_same (graph : dict Z (dict Z Q)) (a b : Z) (x : Q) :
  dd_get (dd_add graph a b x) a b
  = Some (match dd_get graph a b with Some q => q | None => 0 end + x)%Q.
Proof.
  unfold dd_get, dd_add. rewrite dict_get_set_same.
  destruct (dict_get graph a) as [inner |]; now rewrite dict_get_set_same.
Qed.

Lemma dd_get_add_other (graph : dict Z (dict Z Q)) (a b a' b' : Z) (x : Q) :
  (a', b') <> (a, b) ->
  dd_get (dd_add graph a b x) a' b' = dd_get graph a' b'.
Proof.
  intros Hne. unfold dd_get, dd_add.
  destruct (Z.eq_dec a' a) as [-> | Ha].
  - rewrite dict_get_set_same.
    assert (Hb : b' <> b) by congruence.
    rewrite dict_get_set_other by exact Hb.
    now destruct (dict_get graph a).
  - now rewrite dict_get_set_other by exact Ha.
Qed.

Section RelationGraphFacts.
Variable py_int : string -> option Z.
Variable py_float : string -> option Q.

Lemma relation_line_fields (graph : dict Z (dict Z Q)) (line : string) :
  match line_fields py_int py_float line with
  | Some (a, b, x) =>
      relation_line py_int py_float graph line
      = inr (dd_add graph (Z.min a b) (Z.max a b) x)
  | None => exists e, relation_line py_int py_float graph line = inl e
  end.
Proof.
  unfold line_fields, relation_line.
  destruct (nth_error (split_on tab line) 1) as [t1 |] eqn:E1; [| simpl; eauto].
  destruct (nth_error (split_on tab line) 2) as [t2 |] eqn:E2;
    [| destruct (py_int t1); simpl; eauto].
  destruct (nth_error (split_on tab line) 3) as [t3 |] eqn:E3.
  - destruct (py_int t1) as [a |]; [| eauto].
    destruct (py_int t2) as [b |]; [| eauto].
    destruct (Z.ltb_spec b a) as [Hlt | Hge].
    + destruct (py_float t3) as [x |]; [| eauto].
      now rewrite Z.min_r, Z.max_l by lia.
    + destruct (py_float t3) as [x |]; [| eauto].
      now rewrite Z.min_l, Z.max_r by lia.
  - destruct (py_int t1) as [a |]; [| eauto].
    destruct (py_int t2) as [b |]; [| eauto].
    destruct (b <? a); eauto.
Qed.

Lemma relation_line_error (graph graph' : dict Z (dict Z Q)) (line : string) (e : line_exn) :
  relation_line py_int py_float graph line = inl e ->
  relation_line py_int py_float graph' line = inl e.
Proof.
  unfold relation_line.
  destruct (nth_error (split_on tab line) 1) as [t1 |]; [| auto].
  destruct (py_int t1) as [a |]; [| auto].
  destruct (nth_error (split_on tab line) 2) as [t2 |]; [| auto].
  destruct (py_int t2) as [b |]; [| auto].
  destruct (b <? a); (destruct (nth_error (split_on tab line) 3) as [t3 |]; [| auto]);
    (destruct (py_float t3); [discriminate | auto]).
Qed.

Lemma relation_lines_outcome (lines : list string) :
  forall graph : dict Z (dict Z Q),
    match find (fun line => negb (line_parses py_int py_float line)) lines with
    | None => exists graph', relation_lines py_int py_float lines graph = inr graph'
    | Some line =>
        exists e, relation_line py_int py_float [] line = inl e
                  /\ relation_lines py_int py_float lines graph = inl e
    end.
Proof.
  induction lines as [| line lines IH]; intros graph; simpl; [eauto |].
  pose proof (relation_line_fields graph line) as Hline. unfold line_parses at 1.
  destruct (line_fields py_int py_float line) as [[[a b] x] |]; simpl.
  - rewrite Hline. apply IH.
  - destruct Hline as [e He]. exists e. rewrite He.
    split; [exact (relation_line_error graph [] line e He) | reflexivity].
Qed.

Lemma relation_lines_oriented (lines : list string) :
  forall graph0 graph : dict Z (dict Z Q),
    relation_lines py_int py_float lines graph0 = inr graph ->
    (forall a b, b < a -> dd_get graph0 a b = None) ->
    forall a b, b < a -> dd_get graph a b = None.
Proof.
  induction lines as [| line lines IH]; intros graph0 graph Hrun Hinv; simpl in Hrun.
  - now injection Hrun as <-.
  - pose proof (relation_line_fields graph0 line) as Hline.
    destruct (line_fields py_int py_float line) as [[[x y] q] |].
    + rewrite Hline in Hrun. apply (IH _ _ Hrun).
      intros a b Hlt. rewrite dd_get_add_other; [now apply Hinv |].
      intros Heq. injection Heq as -> ->. lia.
    + destruct Hline as [e He]. rewrite He in Hrun. discriminate.
Qed.

Lemma relation_lines_value (lines : list string) :
  forall graph0 graph : dict Z (dict Z Q),
    relation_lines py_int py_float lines graph0 = inr graph ->
    forall a b, a <= b ->
      let entries := file_entries py_int py_float lines in
      match dd_get graph0 a b with
      | Some w0 =>
          exists w, dd_get graph a b = Some w /\ (w == w0 + pair_total a b entries)%Q
      | None =>
          if pair_visited a b entries
          then exists w, dd_get graph a b = Some w /\ (w == pair_total a b entries)%Q
          else dd_get graph a b = None
      end.
Proof.
  induction lines as [| line lines IH]; intros graph0 graph Hrun a b Hab; simpl in *.
  - injection Hrun as <-. destruct (dd_get graph0 a b) as [w0 |]; [| reflexivity].
    exists w0. split; [reflexivity | ring].
  - pose proof (relation_line_fields graph0 line) as Hline.
    destruct (line_fields py_int py_float line) as [[[x y] q] |];
      [| destruct Hline as [e He]; rewrite He in Hrun; discriminate].
    rewrite Hline in Hrun. specialize (IH _ _ Hrun a b Hab). simpl.
    unfold pair_visited in *. simpl.
    destruct (joins a b (x, y, q)) eqn:Hj; simpl.
    + apply joins_same_pair in Hj.
      assert (Ha : a = Z.min x y) by (destruct Hj as [[-> ->] | [-> ->]]; lia).
      assert (Hb : b = Z.max x y) by (destruct Hj as [[-> ->] | [-> ->]]; lia).
      rewrite <- Ha, <- Hb in IH. rewrite dd_get_add_same in IH.
      destruct IH as [w [Hw Hsum]].
      destruct (dd_get graph0 a b) as [w0 |]; exists w; (split; [exact Hw |]);
        rewrite Hsum; ring.
    + rewrite dd_get_add_other in IH; [exact IH |].
      intros Heq. injection Heq as Ha Hb.
      assert (Hj' : joins a b (x, y, q) = true); [| congruence].
      apply joins_same_pair.
      destruct (Z.le_ge_cases x y); [left | right]; lia.
Qed.
End RelationGraphFacts.

(** A file is turned into a dictionary exactly when each of its lines has
    four fields or more and its second, third and fourth fields parse;
    otherwise the function stops at the first line that does not, with the
    exception of that line. *)
Theorem relation_graph_needs_every_line :
  forall (py_int : string -> option Z) (py_float : string -> option Q)
         (lines : list string),
    match find (fun line => negb (line_parses py_int py_float line)) lines with
    | None => exists graph, relation_graph py_int py_float lines = inr graph
    | Some line =>
        exists e, relation_line py_int py_float [] line = inl e
                  /\ relation_graph py_int py_float lines = inl e
    end.
Proof.
  intros py_int py_float lines. apply relation_lines_outcome.
Qed.

(** The dictionary of a file is keyed from the smaller cell id to the
    larger: nothing is stored under a pair whose first id is larger than its
    second. *)
Theorem relation_graph_is_oriented :
  forall (py_int : string -> option Z) (py_float : string -> option Q)
         (lines : list string) (graph : dict Z (dict Z Q)),
    relation_graph py_int py_float lines = inr graph ->
    forall a b : Z, b < a -> dd_get graph a b = None.
Proof.
  intros py_int py_float lines graph Hrun.
  apply (relation_lines_oriented py_int py_float lines [] graph Hrun).
  intros a b _. reflexivity.
Qed.

Lemma example_relation_run :
  relation_graph int_of_decimal float_of_decimal example_file = inr example_relation.
Proof. vm_compute. reflexivity. Qed.

Lemma relation_graph_is_oriented_witness : dd_get example_relation 5 3 = None.
Proof.
  apply (relation_graph_is_oriented int_of_decimal float_of_decimal example_file
                                    example_relation example_relation_run 5 3).
  lia.
Defined.

(** The value a file's dictionary holds for two cells a <= b is the sum of
    the strengths of the lines between the two cells, in either direction;
    the direction of a line is forgotten, and a pair no line mentions has no
    entry. *)
Theorem relation_graph_value_is_sum :
  forall (py_int : string -> option Z) (py_float : string -> option Q)
         (lines : list string) (graph : dict Z (dict Z Q)),
    relation_graph py_int py_float lines = inr graph ->
    forall a b : Z,
      a <= b ->
      let entries := file_entries py_int py_float lines in
      if pair_visited a b entries
      then exists w, dd_get graph a b = Some w /\ (w == pair_total a b entries)%Q
      else dd_get graph a b = None.
Proof.
  intros py_int py_float lines graph Hrun a b Hab.
  exact (relation_lines_value py_int py_float lines [] graph Hrun a b Hab).
Qed.

Lemma relation_graph_value_is_sum_witness :
  exists w,
    dd_get example_relation 3 5 = Some w
    /\ (w == pair_total 3%Z 5%Z (file_entries int_of_decimal float_of_decimal example_file))%Q.
Proof.
  assert (Hle : 3 <= 5) by lia.
  exact (relation_graph_value_is_sum int_of_decimal float_of_decimal example_file
                                     example_relation example_relation_run 3 5 Hle).
Defined.

(** ** Validation and accumulation of a line *)

Section LineFacts.
Variable py_int : string -> option Z.
Variable py_float : string -> option Q.

Lemma validate_from_converted (tokens : list string) :
  forall i, validate_from py_int py_float i tokens = Ok (converted py_int py_float i tokens).
Proof.
  induction tokens as [| t ts IH]; intros i; simpl; [reflexivity |].
  now rewrite validate_token_value, IH.
Qed.

Lemma tally_is_float (token : string) (sum : Q) (count : Z) :
  tally (is_float py_float token) sum count = Ok (counted py_float sum count token).
Proof.
  unfold tally, is_float, counted, field_amount.
  destruct (String.eqb_spec token "") as [-> | Hne]; [reflexivity |].
  destruct (py_float token) as [q |]; simpl; [| reflexivity].
  now destruct (Qeq_bool q 0).
Qed.
End LineFacts.

Lemma validate_eight_fields (py_int : string -> option Z)
      (py_float : string -> option Q) (t0 t1 t2 t3 t4 t5 t6 t7 : string) :
  validate py_int py_float [t0; t1; t2; t3; t4; t5; t6; t7]
  = Ok (converted py_int py_float 0 [t0; t1; t2; t3; t4; t5; t6; t7]).
Proof. unfold validate. cbn [List.length Nat.eqb negb]. apply validate_from_converted. Qed.

Lemma validate_rejects_only_the_length_eq (py_int : string -> option Z)
      (py_float : string -> option Q) (tokens : list string) :
  validate py_int py_float tokens
  = if Nat.eqb (List.length tokens) 8
    then Ok (converted py_int py_float 0 tokens)
    else Raise ValueError.
Proof.
  unfold validate.
  destruct (Nat.eqb (List.length tokens) 8); simpl; [| reflexivity].
  apply validate_from_converted.
Qed.

(** [validate] raises for a line that does not have eight fields and for
    nothing else: whatever the fields hold, a line of eight fields comes back
    converted, a field that does not parse as [False]. *)
Theorem validate_rejects_only_the_length :
  forall (py_int : string -> option Z) (py_float : string -> option Q)
         (tokens : list string),
    validate py_int py_float tokens
    = if Nat.eqb (List.length tokens) 8
      then Ok (converted py_int py_float 0 tokens)
      else Raise ValueError.
Proof.
  intros py_int py_float tokens. unfold validate.
  destruct (Nat.eqb (List.length tokens) 8); simpl; [| reflexivity].
  apply validate_from_converted.
Qed.

(** The update [collect_json] makes for a line of eight fields never
    raises.  An activity field adds its amount to the sum and one to the
    count of its direction only when it is a non-zero number; an empty field,
    a field that is not a number and a zero leave both as they are. *)
Theorem line_update_never_raises :
  forall (py_int : string -> option Z) (py_float : string -> option Q)
         (local : ConnectDict) (t0 t1 t2 t3 t4 t5 t6 t7 : string),
    (tokens <- validate py_int py_float [t0; t1; t2; t3; t4; t5; t6; t7] ;;
     accumulate local tokens)
    = let si := counted py_float (smsIn local) (smsInCount local) t3 in
      let so := counted py_float (smsOut local) (smsOutCount local) t4 in
      let ci := counted py_float (callIn local) (callInCount local) t5 in
      let co := counted py_float (callOut local) (callOutCount local) t6 in
      Ok (mkConnect (fst si) (snd si) (fst so) (snd so)
                    (fst ci) (snd ci) (fst co) (snd co)
                    (fst (counted py_float (cdr local) 0 t7))).
Proof.
  intros py_int py_float local t0 t1 t2 t3 t4 t5 t6 t7.
  rewrite validate_eight_fields. cbn [bind].
  unfold accumulate. cbn [nth converted Nat.eqb Nat.ltb Nat.leb].
  rewrite !tally_is_float. cbn [bind].
  assert (Hcdr : (if py_truthy (is_float py_float t7)
                  then py_iadd (cdr local) (is_float py_float t7)
                  else Ok (cdr local))
                 = Ok (fst (counted py_float (cdr local) 0 t7))).
  { pose proof (tally_is_float py_float t7 (cdr local) 0) as Ht. unfold tally in Ht.
    destruct (py_truthy (is_float py_float t7)).
    - destruct (py_iadd (cdr local) (is_float py_float t7)); simpl in Ht.
      + injection Ht as <-. reflexivity.
      + discriminate.
    - injection Ht as <-. reflexivity. }
  rewrite Hcdr. reflexivity.
Qed.

(** ** The three cell-to-country graphs *)

Section ShapeFacts.
Context {N : Type} `{Hashable N}.

Lemma same_shape_refl (g : Graph N) : same_shape g g.
Proof. split; reflexivity. Qed.

Lemma add_node_same_shape (g1 g2 : Graph N) (n : N) :
  same_shape g1 g2 -> same_shape (add_node g1 n) (add_node g2 n).
Proof.
  intros [Hn He]. unfold add_node, has_node. rewrite Hn.
  destruct (dict_has (g_nodes g2) n); split; simpl; congruence.
Qed.

Lemma joins_ends (u v : N) (e1 e2 : N * N * Q) :
  fst e1 = fst e2 -> joins u v e1 = joins u v e2.
Proof.
  destruct e1 as [[a1 b1] w1], e2 as [[a2 b2] w2]. simpl. intros [= -> ->]. reflexivity.
Qed.

Lemma set_weight_same_shape (u v : N) (w1 w2 : Q) (es1 : list (N * N * Q)) :
  forall es2,
    map fst es1 = map fst es2 ->
    map fst (set_weight es1 u v w1) = map fst (set_weight es2 u v w2).
Proof.
  induction es1 as [| e1 es1 IH]; intros [| e2 es2] Heq; simpl in *; try discriminate.
  - reflexivity.
  - injection Heq as Hh Ht. rewrite (joins_ends u v e1 e2 Hh).
    destruct (joins u v e2); simpl.
    + destruct e1 as [[a1 b1] x1], e2 as [[a2 b2] x2]. simpl in *. congruence.
    + now rewrite Hh, (IH es2 Ht).
Qed.

Lemma edge_present_same_shape (u v : N) (es1 : list (N * N * Q)) :
  forall es2,
    map fst es1 = map fst es2 ->
    (find (joins u v) es1 = None <-> find (joins u v) es2 = None).
Proof.
  induction es1 as [| e1 es1 IH]; intros [| e2 es2] Heq; simpl in *; try discriminate.
  - tauto.
  - injection Heq as Hh Ht. rewrite (joins_ends u v e1 e2 Hh).
    destruct (joins u v e2); [split; discriminate | now apply IH].
Qed.

Lemma add_weight_same_shape (g1 g2 : Graph N) (u v : N) (w1 w2 : Q) :
  same_shape g1 g2 -> same_shape (add_weight g1 u v w1) (add_weight g2 u v w2).
Proof.
  intros Hs. pose proof Hs as [Hn He]. unfold add_weight, edge_weight.
  pose proof (edge_present_same_shape u v (g_edges g1) (g_edges g2) He) as Hfind.
  destruct (find (joins u v) (g_edges g1)) as [[[a1 b1] x1] |] eqn:E1;
    destruct (find (joins u v) (g_edges g2)) as [[[a2 b2] x2] |] eqn:E2.
  - split; simpl; [exact Hn | now apply set_weight_same_shape].
  - destruct Hfind as [_ Hfind]. specialize (Hfind eq_refl). discriminate.
  - destruct Hfind as [Hfind _]. specialize (Hfind eq_refl). discriminate.
  - unfold add_edge.
    pose proof (add_node_same_shape _ _ v (add_node_same_shape _ _ u Hs)) as [Hn' He'].
    split; simpl; [exact Hn' | now apply set_weight_same_shape].
Qed.
End ShapeFacts.

Lemma graphs_same_shape :
  forall (graphDict : dict Z (dict string ConnectDict)) (gs : Graphs),
    json_to_networkx graphDict = Ok gs ->
    same_shape (graphCall gs) (graphSMS gs)
    /\ same_shape (graphCall gs) (graphInternet gs).
Proof.
  intros graphDict gs. unfold json_to_networkx.
  apply (for_each_preserves
           (fun s => same_shape (graphCall s) (graphSMS s)
                     /\ same_shape (graphCall s) (graphInternet s))
           connect_cell graphDict).
  - intros s item s' _ [Hsms Hint]. unfold connect_cell.
    apply (for_each_preserves
             (fun s => same_shape (graphCall s) (graphSMS s)
                       /\ same_shape (graphCall s) (graphInternet s))
             (connect (String "m" (Zstr (fst item)))) (snd item)).
    + intros s0 entry s0' _ [H1 H2] Hc. rewrite connect_returns in Hc.
      injection Hc as <-. simpl.
      split; apply add_weight_same_shape; now apply add_node_same_shape.
    + simpl. split; now apply add_node_same_shape.
  - simpl. split; apply same_shape_refl.
Qed.

(** The three graphs have the same nodes and the same edges, weights apart:
    a connection is an edge of the call graph, of the SMS graph and of the
    internet graph whether or not it had any activity of that kind. *)
Theorem country_graphs_share_their_shape :
  forall (graphDict : dict Z (dict string ConnectDict)) (gs : Graphs),
    json_to_networkx graphDict = Ok gs ->
    same_shape (graphCall gs) (graphSMS gs)
    /\ same_shape (graphCall gs) (graphInternet gs).
Proof. exact graphs_same_shape. Qed.

Lemma example_countryGraphs_run : json_to_networkx example_traffic = Ok example_countryGraphs.
Proof. vm_compute. reflexivity. Qed.

Lemma country_graphs_share_their_shape_witness :
  same_shape (graphCall example_countryGraphs) (graphSMS example_countryGraphs)
  /\ same_shape (graphCall example_countryGraphs) (graphInternet example_countryGraphs).
Proof.
  exact (country_graphs_share_their_shape example_traffic example_countryGraphs
                                          example_countryGraphs_run).
Defined.

(** With the keys of the JSON objects distinct, the internet edge of a
    connection holds the record's [cdr] total as it is: it is not divided by
    a number of periods as the call and SMS weights are. *)
Theorem internet_edge_is_cdr_total :
  forall (graphDict : dict Z (dict string ConnectDict)) (gs : Graphs)
         (cell : Z) (inner : dict string ConnectDict) (code : string) (cd : ConnectDict),
    json_to_networkx graphDict = Ok gs ->
    NoDup (dict_keys graphDict) ->
    In (cell, inner) graphDict ->
    NoDup (dict_keys inner) ->
    In (code, cd) inner ->
    exists w,
      edge_weight (graphInternet gs) (cell_node cell) (country_node code) = Some w
      /\ (w == cdr cd)%Q.
Proof.
  intros graphDict gs cell inner code cd Hrun Hnd Hin Hndi Hini.
  apply (connection_weight graphInternet cdr) with (graphDict := graphDict) (inner := inner);
    auto.
  - intros node1 s entry s' Hc. rewrite connect_returns in Hc. injection Hc as <-.
    simpl. now rewrite g_edges_add_weight, g_edges_add_node.
  - intros s n. simpl. apply g_edges_add_node.
Qed.

Lemma internet_edge_is_cdr_total_witness :
  exists w,
    edge_weight (graphInternet example_countryGraphs) (cell_node 1) (country_node "0")
    = Some w
    /\ (w == 3)%Q.
Proof.
  apply (internet_edge_is_cdr_total
           example_traffic example_countryGraphs 1
           [("39"%string, mkConnect 0 0 0 0 8 2 0 0 12);
            ("0"%string, mkConnect 1 1 0 0 0 0 0 0 3)]
           "0"%string (mkConnect 1 1 0 0 0 0 0 0 3)).
  - exact example_countryGraphs_run.
  - simpl. repeat constructor; simpl; intuition discriminate.
  - left. reflexivity.
  - simpl. repeat constructor; simpl; intuition discriminate.
  - right. left. reflexivity.
Defined.

Section CountryGraphNodes.

Let call_nodes (gs : Graphs) (n : string) : Prop := In n (dict_keys (g_nodes (graphCall gs))).

Lemma nodes_connect (node1 : string) (gs : Graphs) (entry : string * ConnectDict) gs' :
  call_nodes gs node1 ->
  connect node1 gs entry = Ok gs' ->
  call_nodes gs' node1
  /\ forall n, call_nodes gs' n <-> call_nodes gs n \/ In n [country_node (fst entry)].
Proof.
  intros Hnode1 Hc. rewrite connect_returns in Hc. injection Hc as <-.
  unfold call_nodes in *. cbn [graphCall].
  rewrite nodes_add_weight.
  - split; [apply nodes_add_node; now right |].
    intros n. rewrite nodes_add_node. simpl. intuition.
  - apply nodes_add_node. now right.
  - apply nodes_add_node. now left.
Qed.

Lemma nodes_connect_cell (gs : Graphs) (item : Z * dict string ConnectDict) gs' :
  connect_cell gs item = Ok gs' ->
  forall n, call_nodes gs' n
            <-> call_nodes gs n
                \/ In n (cell_node (fst item)
                           :: map (fun entry => country_node (fst entry)) (snd item)).
Proof.
  unfold connect_cell. intros Hc.
  set (gs1 := mkGraphs (add_node (graphCall gs) (String "m" (Zstr (fst item))))
                       (add_node (graphSMS gs) (String "m" (Zstr (fst item))))
                       (add_node (graphInternet gs) (String "m" (Zstr (fst item))))) in *.
  assert (Hnode1 : call_nodes gs1 (String "m" (Zstr (fst item))))
    by (unfold call_nodes, gs1; cbn [graphCall]; apply nodes_add_node; now left).
  destruct (for_each_members call_nodes
              (fun s => call_nodes s (String "m" (Zstr (fst item))))
              (fun entry : string * ConnectDict => [country_node (fst entry)])
              (connect (String "m" (Zstr (fst item)))) (snd item)
              (fun s x s' _ Hs Hx => nodes_connect _ s x s' Hs Hx)
              gs1 gs' Hnode1 Hc) as [_ Hm].
  intros n. rewrite Hm. unfold call_nodes at 1, gs1. cbn [graphCall].
  rewrite nodes_add_node. rewrite flat_map_singleton. simpl. unfold cell_node. intuition.
Qed.
End CountryGraphNodes.

Lemma call_graph_nodes :
  forall (graphDict : dict Z (dict string ConnectDict)) (gs : Graphs),
    json_to_networkx graphDict = Ok gs ->
    forall n : string,
      In n (dict_keys (g_nodes (graphCall gs)))
      <-> (exists cell, In cell (dict_keys graphDict) /\ n = cell_node cell)
          \/ (exists cell inner code cd,
                 In (cell, inner) graphDict /\ In (code, cd) inner
                 /\ n = country_node code).
Proof.
  intros graphDict gs Hrun n. unfold json_to_networkx in Hrun.
  destruct (for_each_members
              (fun s n => In n (dict_keys (g_nodes (graphCall s)))) (fun _ => True)
              (fun item : Z * dict string ConnectDict =>
                 cell_node (fst item)
                   :: map (fun entry => country_node (fst entry)) (snd item))
              connect_cell graphDict
              (fun s x s' _ _ Hx => conj I (nodes_connect_cell s x s' Hx))
              (mkGraphs empty_graph empty_graph empty_graph) gs I Hrun) as [_ Hm].
  rewrite Hm. simpl. rewrite in_flat_map. unfold dict_keys. split.
  - intros [[] | [[cell inner] [Hitem [Hn | Hn]]]]; simpl in Hn.
    + left. exists cell. split; [| now symmetry].
      apply in_map_iff. exists (cell, inner). auto.
    + right. apply in_map_iff in Hn as [[code cd] [Hn Hentry]].
      exists cell, inner, code, cd. auto.
  - intros [[cell [Hcell ->]] | [cell [inner [code [cd [Hitem [Hentry ->]]]]]]]; right.
    + apply in_map_iff in Hcell as [[cell' inner] [Heq Hitem]]. simpl in Heq. subst cell'.
      exists (cell, inner). split; [exact Hitem | now left].
    + exists (cell, inner). split; [exact Hitem |]. right.
      apply in_map_iff. exists (code, cd). auto.
Qed.

Lemma any_graph_nodes :
  forall (graphDict : dict Z (dict string ConnectDict)) (gs : Graphs),
    json_to_networkx graphDict = Ok gs ->
    forall g : Graph string,
      g = graphCall gs \/ g = graphSMS gs \/ g = graphInternet gs ->
      forall n : string,
        In n (dict_keys (g_nodes g))
        <-> (exists cell, In cell (dict_keys graphDict) /\ n = cell_node cell)
            \/ (exists cell inner code cd,
                   In (cell, inner) graphDict /\ In (code, cd) inner
                   /\ n = country_node code).
Proof.
  intros graphDict gs Hrun g Hg n.
  destruct (graphs_same_shape graphDict gs Hrun) as [[Hsms _] [Hint _]].
  assert (Hnodes : g_nodes g = g_nodes (graphCall gs)).
  { destruct Hg as [-> | [-> | ->]]; [reflexivity | now symmetry | now symmetry]. }
  rewrite Hnodes. exact (call_graph_nodes graphDict gs Hrun n).
Qed.

(** The nodes of each of the three cell-to-country graphs (call, SMS and
    internet) are the cells of the graph dictionary, also a cell without any
    connection, under ['m' + id], and the country codes of its connections
    under ['c' + code]; there is no other node. *)
Theorem country_graph_nodes :
  forall (graphDict : dict Z (dict string ConnectDict)) (gs : Graphs),
    json_to_networkx graphDict = Ok gs ->
    forall g : Graph string,
      g = graphCall gs \/ g = graphSMS gs \/ g = graphInternet gs ->
      forall n : string,
        In n (dict_keys (g_nodes g))
        <-> (exists cell, In cell (dict_keys graphDict) /\ n = cell_node cell)
            \/ (exists cell inner code cd,
                   In (cell, inner) graphDict /\ In (code, cd) inner
                   /\ n = country_node code).
Proof.
  intros graphDict gs Hrun g Hg n.
  destruct (graphs_same_shape graphDict gs Hrun) as [[Hsms _] [Hint _]].
  assert (Hnodes : g_nodes g = g_nodes (graphCall gs)).
  { destruct Hg as [-> | [-> | ->]]; [reflexivity | now symmetry | now symmetry]. }
  rewrite Hnodes. exact (call_graph_nodes graphDict gs Hrun n).
Qed.

Lemma country_graph_nodes_witness :
  In "m2"%string (dict_keys (g_nodes (graphInternet example_countryGraphs)))
  <-> (exists cell, In cell (dict_keys example_traffic) /\ "m2"%string = cell_node cell)
      \/ (exists cell inner code cd,
             In (cell, inner) example_traffic /\ In (code, cd) inner
             /\ "m2"%string = country_node code).
Proof.
  exact (country_graph_nodes example_traffic example_countryGraphs
                             example_countryGraphs_run
                             (graphInternet example_countryGraphs)
                             (or_intror (or_intror eq_refl)) "m2"%string).
Defined.

(** ** The block-to-country graph: the sanity check *)

Section CountryRedistributionErrors.
Variable cellsGraph : Graph string.

Lemma visit_country_edge_outcome SEZ cellFrom (g : Graph Node) (n : string)
      (edge : string * string * Q) :
  In edge (edges_of cellsGraph (String "m" n)) ->
  if startswith (snd (fst edge)) "c"
  then exists g', visit_country_edge SEZ cellFrom g edge = Ok g'
  else visit_country_edge SEZ cellFrom g edge = Raise ValueError.
Proof.
  destruct edge as [[a b] w]. intros Hin. apply edges_of_In in Hin as [-> _].
  unfold visit_country_edge. simpl.
  destruct (startswith b "c"); simpl; eauto.
Qed.

Lemma visit_country_cell_outcome SEZ (g : Graph Node) cellFrom :
  if forallb (fun n => startswith n "c")
             (map (fun edge => snd (fst edge))
                  (edges_of cellsGraph (String "m" (Zstr (cellID cellFrom)))))
  then exists g', visit_country_cell cellsGraph SEZ g cellFrom = Ok g'
  else visit_country_cell cellsGraph SEZ g cellFrom = Raise ValueError.
Proof.
  rewrite forallb_of_map. unfold visit_country_cell.
  apply for_each_outcome
    with (ok := fun edge : string * string * Q => startswith (snd (fst edge)) "c").
  intros s x Hx. exact (visit_country_edge_outcome SEZ cellFrom s _ x Hx).
Qed.

Lemma visit_country_block_outcome (g : Graph Node) (item : Z * list BlockCell) :
  if forallb (fun n => startswith n "c")
             (flat_map
                (fun cellFrom =>
                   map (fun edge => snd (fst edge))
                       (edges_of cellsGraph (String "m" (Zstr (cellID cellFrom)))))
                (snd item))
  then exists g', visit_country_block cellsGraph g item = Ok g'
  else visit_country_block cellsGraph g item = Raise ValueError.
Proof.
  rewrite forallb_of_flat_map. unfold visit_country_block.
  apply for_each_outcome
    with (ok := fun cellFrom =>
                  forallb (fun n => startswith n "c")
                          (map (fun edge : string * string * Q => snd (fst edge))
                               (edges_of cellsGraph
                                         (String "m" (Zstr (cellID cellFrom)))))).
  intros s x _. apply visit_country_cell_outcome.
Qed.

Lemma redistribute_outcome (blocksCellsMap : dict Z (list BlockCell)) :
  if forallb (fun n => startswith n "c") (visited_far_nodes cellsGraph blocksCellsMap)
  then exists g, redistribute_to_countries cellsGraph blocksCellsMap = Ok g
  else redistribute_to_countries cellsGraph blocksCellsMap = Raise ValueError.
Proof.
  unfold visited_far_nodes. rewrite forallb_of_flat_map. unfold redistribute_to_countries.
  apply for_each_outcome
    with (ok := fun item : Z * list BlockCell =>
                  forallb (fun n => startswith n "c")
                          (flat_map
                             (fun cellFrom =>
                                map (fun edge : string * string * Q => snd (fst edge))
                                    (edges_of cellsGraph
                                              (String "m" (Zstr (cellID cellFrom)))))
                             (snd item))).
  intros s x _. apply visit_country_block_outcome.
Qed.

Lemma redistribute_returns (blocksCellsMap : dict Z (list BlockCell)) :
  (forall a b w, In (a, b, w) (g_edges cellsGraph) ->
                 startswith a "m" = true /\ startswith b "c" = true) ->
  exists g, redistribute_to_countries cellsGraph blocksCellsMap = Ok g.
Proof.
  intros Hedges. pose proof (redistribute_outcome blocksCellsMap) as Hout.
  assert (Hall : forallb (fun n => startswith n "c")
                         (visited_far_nodes cellsGraph blocksCellsMap) = true).
  { apply forallb_forall. intros n Hn. unfold visited_far_nodes in Hn.
    apply in_flat_map in Hn as [item [_ Hn]].
    apply in_flat_map in Hn as [cellFrom [_ Hn]].
    apply in_map_iff in Hn as [[[a b] w] [Hb He]]. simpl in Hb. subst b.
    apply edges_of_In in He as [-> [He | He]].
    - now apply Hedges in He.
    - apply Hedges in He as [_ He]. simpl in He. discriminate. }
  now rewrite Hall in Hout.
Qed.
End CountryRedistributionErrors.

(** The sanity check of [get_block_graph]: the function goes on to the
    attributes exactly when every edge it visits leads to a node whose name
    starts with 'c', and stops with a [ValueError] otherwise; the check of
    the from-node never fails. *)
Theorem block_country_graph_checks_far_ends :
  forall (blocksCellsMap : dict Z (list BlockCell)) (cellsGraph : Graph string)
         (censusAttributes : dict string Attrs) (countryCodesMap : dict string PyVal),
    if forallb (fun n => startswith n "c") (visited_far_nodes cellsGraph blocksCellsMap)
    then exists g,
        redistribute_to_countries cellsGraph blocksCellsMap = Ok g
        /\ get_block_graph blocksCellsMap cellsGraph censusAttributes countryCodesMap
           = annotate censusAttributes countryCodesMap g
    else get_block_graph blocksCellsMap cellsGraph censusAttributes countryCodesMap
         = Raise ValueError.
Proof.
  intros blocksCellsMap cellsGraph censusAttributes countryCodesMap.
  pose proof (redistribute_outcome cellsGraph blocksCellsMap) as Hout.
  unfold get_block_graph.
  destruct (forallb _ (visited_far_nodes cellsGraph blocksCellsMap)).
  - destruct Hout as [g Hg]. exists g. split; [exact Hg |]. now rewrite Hg.
  - now rewrite Hout.
Qed.

Lemma connection_graph_edges (proj : Graphs -> Graph string) (value : ConnectDict -> Q)
      (graphDict : dict Z (dict string ConnectDict)) (gs : Graphs) :
  g_edges (proj gs) = fold_left accumulate_edge (connections value graphDict) [] ->
  forall a b w, In (a, b, w) (g_edges (proj gs)) ->
                startswith a "m" = true /\ startswith b "c" = true.
Proof.
  intros Hedges a b w Hin. rewrite Hedges in Hin.
  apply accumulated_ends in Hin as [e0 [[[] | H0] Heq]].
  unfold connections in H0. apply in_flat_map in H0 as [item [_ H0]].
  unfold cell_connections in H0. apply in_map_iff in H0 as [entry [<- _]].
  simpl in Heq. injection Heq as <- <-. split; reflexivity.
Qed.

(** The graphs built by [json_to_networkx] always pass the sanity check of
    [get_block_graph]: whatever the block-to-cell map, the redistribution of
    the call, SMS or internet graph raises nothing. *)
Theorem country_graphs_pass_the_check :
  forall (graphDict : dict Z (dict string ConnectDict)) (gs : Graphs)
         (blocksCellsMap : dict Z (list BlockCell)),
    json_to_networkx graphDict = Ok gs ->
    (exists g, redistribute_to_countries (graphCall gs) blocksCellsMap = Ok g)
    /\ (exists g, redistribute_to_countries (graphSMS gs) blocksCellsMap = Ok g)
    /\ (exists g, redistribute_to_countries (graphInternet gs) blocksCellsMap = Ok g).
Proof.
  intros graphDict gs blocksCellsMap Hrun.
  assert (Hcall : g_edges (graphCall gs)
                  = fold_left accumulate_edge (connections call_value graphDict) []).
  { apply (g_edges_json_to_networkx graphCall call_value); [| | reflexivity | exact Hrun].
    - intros node1 s entry s' Hc. rewrite connect_returns in Hc. injection Hc as <-.
      simpl. now rewrite g_edges_add_weight, g_edges_add_node.
    - intros s n. simpl. apply g_edges_add_node. }
  assert (Hsms : g_edges (graphSMS gs)
                 = fold_left accumulate_edge (connections sms_value graphDict) []).
  { apply (g_edges_json_to_networkx graphSMS sms_value); [| | reflexivity | exact Hrun].
    - intros node1 s entry s' Hc. rewrite connect_returns in Hc. injection Hc as <-.
      simpl. now rewrite g_edges_add_weight, g_edges_add_node.
    - intros s n. simpl. apply g_edges_add_node. }
  assert (Hint : g_edges (graphInternet gs)
                 = fold_left accumulate_edge (connections cdr graphDict) []).
  { apply (g_edges_json_to_networkx graphInternet cdr); [| | reflexivity | exact Hrun].
    - intros node1 s entry s' Hc. rewrite connect_returns in Hc. injection Hc as <-.
      simpl. now rewrite g_edges_add_weight, g_edges_add_node.
    - intros s n. simpl. apply g_edges_add_node. }
  split; [| split]; apply redistribute_returns.
  - exact (connection_graph_edges graphCall call_value graphDict gs Hcall).
  - exact (connection_graph_edges graphSMS sms_value graphDict gs Hsms).
  - exact (connection_graph_edges graphInternet cdr graphDict gs Hint).
Qed.

Lemma country_graphs_pass_the_check_witness :
  (exists g, redistribute_to_countries (graphCall example_countryGraphs) example_blocksMap
             = Ok g)
  /\ (exists g, redistribute_to_countries (graphSMS example_countryGraphs) example_blocksMap
                = Ok g)
  /\ (exists g, redistribute_to_countries (graphInternet example_countryGraphs)
                                          example_blocksMap = Ok g).
Proof.
  exact (country_graphs_pass_the_check example_traffic example_countryGraphs
                                       example_blocksMap example_countryGraphs_run).
Defined.

(** ** The country code map *)

Lemma country_name_of_returns (abbrToNames : dict string PyVal)
      (codesToAbbr : dict string string) (code : string) :
  country_name_of abbrToNames codesToAbbr code
  = Ok (country_name abbrToNames codesToAbbr code).
Proof.
  unfold country_name_of, country_name, dict_index.
  destruct (dict_get codesToAbbr code) as [abbr |]; simpl; [| reflexivity].
  destruct (dict_get abbrToNames abbr); reflexivity.
Qed.

Lemma country_codes_In (gs : Graphs) (code : string) :
  In code (country_codes gs)
  <-> exists node,
      (In node (dict_keys (g_nodes (graphCall gs)))
       \/ In node (dict_keys (g_nodes (graphInternet gs)))
       \/ In node (dict_keys (g_nodes (graphSMS gs))))
      /\ startswith node "c" = true /\ drop_first node = code.
Proof.
  unfold country_codes.
  set (nodes := dict_keys (g_nodes (graphCall gs))
                  ++ dict_keys (g_nodes (graphInternet gs))
                  ++ dict_keys (g_nodes (graphSMS gs))).
  assert (Hgen : forall codes,
             In code (fold_left
                        (fun codes node =>
                           if startswith node "c"
                           then str_set_add codes (drop_first node) else codes)
                        nodes codes)
             <-> In code codes
                 \/ exists node, In node nodes /\ startswith node "c" = true
                                 /\ drop_first node = code).
  { induction nodes as [| n nodes IH]; intros codes; simpl.
    - split; [auto | intros [Hc | [node [[] _]]]; exact Hc].
    - rewrite IH. destruct (startswith n "c") eqn:E.
      + rewrite str_set_add_In. split.
        * intros [[-> | Hc] | [node [Hn Hnode]]]; [right; exists n; auto | now left |].
          right. exists node. split; [now right | exact Hnode].
        * intros [Hc | [node [[<- | Hn] [Hs Hd]]]]; [left; now right | left; left; auto |].
          right. exists node. auto.
      + split.
        * intros [Hc | [node [Hn Hnode]]]; [now left |].
          right. exists node. split; [now right | exact Hnode].
        * intros [Hc | [node [[<- | Hn] [Hs Hd]]]]; [now left | congruence |].
          right. exists node. auto. }
  rewrite Hgen. unfold nodes. simpl. split.
  - intros [[] | [node [Hn Hnode]]]. exists node. split; [| exact Hnode].
    rewrite !in_app_iff in Hn. exact Hn.
  - intros [node [Hn Hnode]]. right. exists node. split; [| exact Hnode].
    rewrite !in_app_iff. exact Hn.
Qed.

Lemma add_country_codes (abbrToNames : dict string PyVal) (codesToAbbr : dict string string)
      (codes : list string) :
  forall m0 : dict string PyVal,
  exists m,
    for_each codes (add_country_code abbrToNames codesToAbbr) m0 = Ok m
    /\ forall code,
        (In code codes ->
         dict_get m code = Some (country_name abbrToNames codesToAbbr code))
        /\ (~ In code codes -> dict_get m code = dict_get m0 code).
Proof.
  induction codes as [| c codes IH]; intros m0; simpl.
  - exists m0. split; [reflexivity |]. intros code. split; [intros [] | reflexivity].
  - unfold add_country_code at 1. rewrite country_name_of_returns. cbn [bind].
    destruct (IH (dict_set m0 c (country_name abbrToNames codesToAbbr c)))
      as [m [Hrun Hm]].
    exists m. split; [exact Hrun |]. intros code.
    destruct (Hm code) as [Hin Hout]. split.
    + intros [<- | Hc]; [| now apply Hin].
      destruct (in_dec string_dec c codes) as [Hc | Hc]; [now apply Hin |].
      rewrite (Hout Hc). apply dict_get_set_same.
    + intros Hnot. rewrite Hout by (intros Hc; apply Hnot; now right).
      apply dict_get_set_other. intros ->. apply Hnot. now left.
Qed.

(** [create_country_code_map] raises nothing and loses no code: the keys
    of its map are exactly the names, without the 'c', of the country nodes
    of the three graphs, and each code is given the country's name, or the
    abbreviation when the name table does not list it, or [None] when no
    abbreviation has the code. *)
Theorem country_code_map_keeps_every_code :
  forall (gs : Graphs) (abbrToNames : dict string PyVal)
         (abbrToCodes : dict string string),
  exists countryCodeMap,
    create_country_code_map gs abbrToNames abbrToCodes = Ok countryCodeMap
    /\ forall code : string,
        (exists node,
            (In node (dict_keys (g_nodes (graphCall gs)))
             \/ In node (dict_keys (g_nodes (graphInternet gs)))
             \/ In node (dict_keys (g_nodes (graphSMS gs))))
            /\ startswith node "c" = true /\ drop_first node = code)
        <-> dict_get countryCodeMap code
            = Some (country_name abbrToNames (codes_to_abbr abbrToCodes) code)
            /\ In code (dict_keys countryCodeMap).
Proof.
  intros gs abbrToNames abbrToCodes. unfold create_country_code_map.
  destruct (add_country_codes abbrToNames (codes_to_abbr abbrToCodes)
                              (country_codes gs) []) as [m [Hrun Hm]].
  exists m. split; [exact Hrun |]. intros code.
  rewrite <- country_codes_In. destruct (Hm code) as [Hin Hout]. split.
  - intros Hc. split; [now apply Hin |].
    destruct (in_dec string_dec code (dict_keys m)) as [Hk | Hk]; [exact Hk |].
    apply dict_get_None_keys in Hk. rewrite (Hin Hc) in Hk. discriminate.
  - intros [_ Hk].
    destruct (in_dec string_dec code (country_codes gs)) as [Hc | Hc]; [exact Hc |].
    exfalso. apply Hout in Hc. simpl in Hc. apply dict_get_None_keys in Hc. contradiction.
Qed.

Lemma keep_code_chars_chars (val : string) (x : ascii) :
  In x (list_ascii_of_string (keep_code_chars val)) -> is_code_char x = true.
Proof.
  induction val as [| y val IH]; simpl; [intros [] |].
  destruct (is_code_char y) eqn:E; simpl; [| exact IH].
  intros [<- | Hin]; [exact E | now apply IH].
Qed.

Lemma split_on_pieces (sep : ascii) (s : string) :
  forall w x, In w (split_on sep s) -> In x (list_ascii_of_string w) ->
              In x (list_ascii_of_string s) /\ x <> sep.
Proof.
  induction s as [| c s IH]; intros w x Hw Hx; simpl in *.
  - destruct Hw as [<- | []]. destruct Hx.
  - destruct (Ascii.eqb_spec c sep) as [-> | Hne].
    + destruct Hw as [<- | Hw]; [destruct Hx |].
      destruct (IH w x Hw Hx) as [Hin Hsep]. split; [now right | exact Hsep].
    + destruct (split_on sep s) as [| w0 ws] eqn:E.
      * destruct Hw as [<- | []]. destruct Hx as [<- | []]. split; [now left | exact Hne].
      * destruct Hw as [<- | Hw].
        -- destruct Hx as [<- | Hx]; [split; [now left | exact Hne] |].
           destruct (IH w0 x (or_introl eq_refl) Hx) as [Hin Hsep].
           split; [now right | exact Hsep].
        -- destruct (IH w x (or_intror Hw) Hx) as [Hin Hsep].
           split; [now right | exact Hsep].
Qed.

Lemma code_char_not_space (x : ascii) :
  is_code_char x = true -> x <> " "%char -> is_digit x = true.
Proof.
  unfold is_code_char, is_digit. simpl. intros Hc Hsp.
  destruct (Ascii.eqb_spec x " "); [contradiction | exact Hc].
Qed.

(** A calling code of the reference table is stored under its digits alone:
    a key of [codesToAbbr] is never empty and holds nothing but digits (the
    signs and letters of the entry are dropped, a space separates two
    codes), and its value is an abbreviation whose entry yields that key. *)
Theorem codes_are_stored_as_digits :
  forall (abbrToCodes : dict string string) (code abbr : string),
    dict_get (codes_to_abbr abbrToCodes) code = Some abbr ->
    code <> ""%string
    /\ (forall x, In x (list_ascii_of_string code) -> is_digit x = true)
    /\ exists val, In (abbr, val) abbrToCodes
                   /\ In code (split_on " " (keep_code_chars val)).
Proof.
  intros abbrToCodes code abbr Hget.
  assert (Hsrc : exists val, In (abbr, val) abbrToCodes
                             /\ In code (split_on " " (keep_code_chars val))
                             /\ code <> ""%string).
  { unfold codes_to_abbr in Hget.
    assert (Hgen : forall m0 : dict string string,
               dict_get
                 (fold_left
                    (fun codesToAbbr item =>
                       fold_left
                         (fun codesToAbbr code =>
                            if negb (String.eqb code "")
                            then dict_set codesToAbbr code (fst item)
                            else codesToAbbr)
                         (split_on " " (keep_code_chars (snd item)))
                         codesToAbbr)
                    abbrToCodes m0) code = Some abbr ->
               dict_get m0 code = Some abbr
               \/ exists val, In (abbr, val) abbrToCodes
                              /\ In code (split_on " " (keep_code_chars val))
                              /\ code <> ""%string).
    { clear Hget.
      induction abbrToCodes as [| [key val] rest IH]; intros m0 Hm; simpl in *;
        [now left |].
      destruct (IH _ Hm) as [Hinner | [val' [Hin Hcode]]];
        [| right; exists val'; split; [now right | exact Hcode]].
      clear IH Hm.
      assert (Hpieces : forall pieces m1,
                 dict_get
                   (fold_left
                      (fun codesToAbbr code =>
                         if negb (String.eqb code "")
                         then dict_set codesToAbbr code key
                         else codesToAbbr)
                      pieces m1) code = Some abbr ->
                 dict_get m1 code = Some abbr
                 \/ (abbr = key /\ In code pieces /\ code <> ""%string)).
      { induction pieces as [| p pieces IHp]; intros m1 Hm1; simpl in *; [now left |].
        destruct (IHp _ Hm1) as [Hstep | [Hk [Hp Hne]]]; [| right; auto].
        destruct (String.eqb_spec p "") as [-> | Hp]; simpl in Hstep; [now left |].
        destruct (string_dec code p) as [-> | Hcp].
        - rewrite dict_get_set_same in Hstep. injection Hstep as <-. right. auto.
        - rewrite dict_get_set_other in Hstep by exact Hcp. now left. }
      destruct (Hpieces _ _ Hinner) as [H0 | [-> [Hp Hne]]]; [now left |].
      right. exists val. split; [now left | auto]. }
    destruct (Hgen [] Hget) as [H0 | Hsrc]; [discriminate | exact Hsrc]. }
  destruct Hsrc as [val [Hin [Hpiece Hne]]].
  split; [exact Hne |]. split; [| exists val; auto].
  intros x Hx. destruct (split_on_pieces " " _ code x Hpiece Hx) as [Hkept Hsp].
  apply code_char_not_space; [| exact Hsp].
  now apply keep_code_chars_chars with (val := val).
Qed.

Lemma codes_are_stored_as_digits_witness :
  "1684"%string <> ""%string
  /\ (forall x, In x (list_ascii_of_string "1684") -> is_digit x = true)
  /\ exists val, In ("AS"%string, val) example_abbrToCodes
                 /\ In "1684"%string (split_on " " (keep_code_chars val)).
Proof.
  apply (codes_are_stored_as_digits example_abbrToCodes "1684" "AS").
  vm_compute. reflexivity.
Defined.

Section CountryBlockNodes.
Variable cellsGraph : Graph string.

Let block_nodes (g : Graph Node) (n : Node) : Prop := In n (dict_keys (g_nodes g)).

Lemma nodes_visit_country_edge SEZ cellFrom (g : Graph Node) edge g' :
  block_nodes g (NInt SEZ) ->
  visit_country_edge SEZ cellFrom g edge = Ok g' ->
  block_nodes g' (NInt SEZ)
  /\ forall n, block_nodes g' n <-> block_nodes g n \/ In n [NStr (snd (fst edge))].
Proof.
  intros HSEZ Hrun. destruct edge as [[a b] w]. unfold visit_country_edge in Hrun.
  destruct (negb (startswith a "m")); [discriminate |].
  destruct (negb (startswith b "c")); [discriminate |].
  injection Hrun as <-. unfold block_nodes in *. rewrite nodes_add_weight.
  - split; [apply nodes_add_node; now right |].
    intros n. rewrite nodes_add_node. simpl. intuition.
  - apply nodes_add_node. now right.
  - apply nodes_add_node. now left.
Qed.

Lemma nodes_visit_country_cell SEZ (g : Graph Node) cellFrom g' :
  block_nodes g (NInt SEZ) ->
  visit_country_cell cellsGraph SEZ g cellFrom = Ok g' ->
  block_nodes g' (NInt SEZ)
  /\ forall n, block_nodes g' n
               <-> block_nodes g n
                   \/ In n (map (fun edge => NStr (snd (fst edge)))
                                (edges_of cellsGraph (String "m" (Zstr (cellID cellFrom))))).
Proof.
  intros HSEZ Hrun. unfold visit_country_cell in Hrun.
  rewrite <- flat_map_singleton.
  exact (for_each_members block_nodes (fun g0 => block_nodes g0 (NInt SEZ))
           (fun edge : string * string * Q => [NStr (snd (fst edge))])
           (visit_country_edge SEZ cellFrom) _
           (fun s x s' _ Hs Hx => nodes_visit_country_edge SEZ cellFrom s x s' Hs Hx)
           g g' HSEZ Hrun).
Qed.

Lemma nodes_visit_country_block (g : Graph Node) (item : Z * list BlockCell) g' :
  visit_country_block cellsGraph g item = Ok g' ->
  forall n, block_nodes g' n
            <-> block_nodes g n
                \/ In n (NInt (fst item)
                           :: flat_map
                                (fun cellFrom =>
                                   map (fun edge => NStr (snd (fst edge)))
                                       (edges_of cellsGraph
                                                 (String "m" (Zstr (cellID cellFrom)))))
                                (snd item)).
Proof.
  intros Hrun. unfold visit_country_block in Hrun.
  assert (HSEZ : block_nodes (add_node g (NInt (fst item))) (NInt (fst item)))
    by (apply nodes_add_node; now left).
  destruct (for_each_members block_nodes (fun g0 => block_nodes g0 (NInt (fst item)))
              (fun cellFrom =>
                 map (fun edge : string * string * Q => NStr (snd (fst edge)))
                     (edges_of cellsGraph (String "m" (Zstr (cellID cellFrom)))))
              (visit_country_cell cellsGraph (fst item)) (snd item)
              (fun s x s' _ Hs Hx => nodes_visit_country_cell (fst item) s x s' Hs Hx)
              (add_node g (NInt (fst item))) g' HSEZ Hrun) as [_ Hm].
  intros n. rewrite Hm. unfold block_nodes at 1. rewrite nodes_add_node. simpl. intuition.
Qed.

Lemma nodes_redistribute (blocksCellsMap : dict Z (list BlockCell)) (g : Graph Node) :
  redistribute_to_countries cellsGraph blocksCellsMap = Ok g ->
  forall n, block_nodes g n
            <-> In n (map NInt (dict_keys blocksCellsMap))
                \/ In n (map NStr (visited_far_nodes cellsGraph blocksCellsMap)).
Proof.
  intros Hrun. unfold redistribute_to_countries in Hrun.
  destruct (for_each_members block_nodes (fun _ => True)
              (fun item : Z * list BlockCell =>
                 NInt (fst item)
                   :: flat_map
                        (fun cellFrom =>
                           map (fun edge : string * string * Q => NStr (snd (fst edge)))
                               (edges_of cellsGraph (String "m" (Zstr (cellID cellFrom)))))
                        (snd item))
              (visit_country_block cellsGraph) blocksCellsMap
              (fun s x s' _ _ Hx => conj I (nodes_visit_country_block s x s' Hx))
              empty_graph g I Hrun) as [_ Hm].
  intros n. rewrite Hm. unfold block_nodes at 1. simpl.
  unfold visited_far_nodes, dict_keys. rewrite in_flat_map, !in_map_iff. split.
  - intros [[] | [item [Hitem [Hn | Hn]]]].
    + left. exists (fst item). split; [exact Hn |]. apply in_map. exact Hitem.
    + right. apply in_flat_map in Hn as [cellFrom [Hcell Hn]].
      apply in_map_iff in Hn as [edge [Hn Hedge]].
      exists (snd (fst edge)). split; [exact Hn |].
      apply in_flat_map. exists item. split; [exact Hitem |].
      apply in_flat_map. exists cellFrom. split; [exact Hcell |].
      apply in_map_iff. exists edge. auto.
  - intros [[sez [Hn Hsez]] | [far [Hn Hfar]]]; right.
    + apply in_map_iff in Hsez as [item [Hfst Hitem]].
      exists item. split; [exact Hitem |]. left. congruence.
    + apply in_flat_map in Hfar as [item [Hitem Hfar]].
      exists item. split; [exact Hitem |]. right.
      apply in_flat_map in Hfar as [cellFrom [Hcell Hfar]].
      apply in_flat_map. exists cellFrom. split; [exact Hcell |].
      apply in_map_iff in Hfar as [edge [Hf Hedge]].
      apply in_map_iff. exists edge. split; [congruence | exact Hedge].
Qed.
End CountryBlockNodes.

Lemma Zstr_not_country (z : Z) : startswith (Zstr z) "c" = false.
Proof.
  unfold Zstr. destruct (Z.to_int z) as [d | d]; simpl.
  - unfold NilEmpty.string_of_uint. destruct d; reflexivity.
  - reflexivity.
Qed.

Lemma graph_edge_ends :
  forall (graphDict : dict Z (dict string ConnectDict)) (gs : Graphs),
    json_to_networkx graphDict = Ok gs ->
    forall g : Graph string,
      g = graphCall gs \/ g = graphSMS gs \/ g = graphInternet gs ->
      forall x y q, In (x, y, q) (g_edges g) ->
                    In x (dict_keys (g_nodes g)) /\ In y (dict_keys (g_nodes g)).
Proof.
  intros graphDict gs Hgs g Hg x y q Hin.
  assert (Hedges : exists value,
             g_edges g = fold_left accumulate_edge (connections value graphDict) []).
  { destruct Hg as [-> | [-> | ->]].
    - exists call_value.
      apply (g_edges_json_to_networkx graphCall call_value); [| | reflexivity | exact Hgs].
      + intros node1 s entry s' Hcn. rewrite connect_returns in Hcn. injection Hcn as <-.
        simpl. now rewrite g_edges_add_weight, g_edges_add_node.
      + intros s n. simpl. apply g_edges_add_node.
    - exists sms_value.
      apply (g_edges_json_to_networkx graphSMS sms_value); [| | reflexivity | exact Hgs].
      + intros node1 s entry s' Hcn. rewrite connect_returns in Hcn. injection Hcn as <-.
        simpl. now rewrite g_edges_add_weight, g_edges_add_node.
      + intros s n. simpl. apply g_edges_add_node.
    - exists cdr.
      apply (g_edges_json_to_networkx graphInternet cdr); [| | reflexivity | exact Hgs].
      + intros node1 s entry s' Hcn. rewrite connect_returns in Hcn. injection Hcn as <-.
        simpl. now rewrite g_edges_add_weight, g_edges_add_node.
      + intros s n. simpl. apply g_edges_add_node. }
  destruct Hedges as [value Hedges]. rewrite Hedges in Hin.
  apply accumulated_ends in Hin as [e0 [[[] | H0] Heq]].
  unfold connections in H0. apply in_flat_map in H0 as [[cell inner] [Hitem H0]].
  unfold cell_connections in H0. apply in_map_iff in H0 as [[code cd] [<- Hentry]].
  simpl in Heq. injection Heq as <- <-. simpl in Hentry. split.
  - apply (any_graph_nodes graphDict gs Hgs g Hg). left. exists cell. split; [| reflexivity].
    unfold dict_keys. apply in_map_iff. exists (cell, inner). auto.
  - apply (any_graph_nodes graphDict gs Hgs g Hg). right.
    exists cell, inner, code, cd. auto.
Qed.

(** In the pipeline the lookup of a country's name cannot fail: a country
    node of a block-to-country graph, redistributed from any of the three
    graphs of [json_to_networkx] (call, SMS or internet), has its code among
    the keys of the map that [create_country_code_map] builds from those
    graphs, with the value that function chose. *)
Theorem country_codes_are_never_missing :
  forall (graphDict : dict Z (dict string ConnectDict)) (gs : Graphs)
         (abbrToNames : dict string PyVal) (abbrToCodes : dict string string)
         (countryCodesMap : dict string PyVal)
         (cellsGraph : Graph string)
         (blocksCellsMap : dict Z (list BlockCell)) (g : Graph Node),
    json_to_networkx graphDict = Ok gs ->
    create_country_code_map gs abbrToNames abbrToCodes = Ok countryCodesMap ->
    cellsGraph = graphCall gs \/ cellsGraph = graphSMS gs
    \/ cellsGraph = graphInternet gs ->
    redistribute_to_countries cellsGraph blocksCellsMap = Ok g ->
    forall node : Node,
      In node (dict_keys (g_nodes g)) ->
      startswith (node_str node) "c" = true ->
      dict_index countryCodesMap (drop_first (node_str node))
      = Ok (country_name abbrToNames (codes_to_abbr abbrToCodes)
                         (drop_first (node_str node))).
Proof.
  intros graphDict gs abbrToNames abbrToCodes countryCodesMap cellsGraph blocksCellsMap g
         Hgs Hmap Hcells Hg node Hnode Hc.
  apply (nodes_redistribute cellsGraph blocksCellsMap g Hg) in Hnode.
  destruct Hnode as [Hblock | Hfar].
  { apply in_map_iff in Hblock as [sez [<- _]]. simpl in Hc.
    rewrite Zstr_not_country in Hc. discriminate. }
  apply in_map_iff in Hfar as [far [<- Hfar]]. simpl in *.
  assert (Hnode : In far (dict_keys (g_nodes cellsGraph))).
  { unfold visited_far_nodes in Hfar.
    apply in_flat_map in Hfar as [item [_ Hfar]].
    apply in_flat_map in Hfar as [cellFrom [_ Hfar]].
    apply in_map_iff in Hfar as [[[a b] w] [Hb Hedge]]. simpl in Hb. subst b.
    apply edges_of_In in Hedge as [_ [He | He]];
      now apply (graph_edge_ends graphDict gs Hgs cellsGraph Hcells) in He. }
  unfold create_country_code_map in Hmap.
  destruct (add_country_codes abbrToNames (codes_to_abbr abbrToCodes)
                              (country_codes gs) []) as [m [Hrun Hm]].
  rewrite Hrun in Hmap. injection Hmap as <-.
  unfold dict_index. destruct (Hm (drop_first far)) as [Hin _]. rewrite Hin; [reflexivity |].
  apply country_codes_In. exists far. split; [| auto].
  destruct Hcells as [-> | [-> | ->]]; auto.
Qed.

Lemma example_countryCodeMap_run :
  create_country_code_map example_countryGraphs example_abbrToNames example_abbrToCodes
  = Ok example_countryCodeMap.
Proof. vm_compute. reflexivity. Qed.

Lemma example_internet_redistributed_run :
  redistribute_to_countries (graphInternet example_countryGraphs) example_blocksMap
  = Ok example_internet_redistributed.
Proof. vm_compute. reflexivity. Qed.

Lemma country_codes_are_never_missing_witness :
  dict_index example_countryCodeMap (drop_first (node_str (NStr "c39")))
  = Ok (country_name example_abbrToNames (codes_to_abbr example_abbrToCodes)
                     (drop_first (node_str (NStr "c39")))).
Proof.
  apply (country_codes_are_never_missing
           example_traffic example_countryGraphs example_abbrToNames example_abbrToCodes
           example_countryCodeMap (graphInternet example_countryGraphs)
           example_blocksMap example_internet_redistributed
           example_countryGraphs_run example_countryCodeMap_run
           (or_intror (or_intror eq_refl))
           example_internet_redistributed_run (NStr "c39")).
  - vm_compute. right. left. reflexivity.
  - reflexivity.
Defined.

(** ** Census attributes: the merge and the filling *)

Lemma fold_dict_set_get (record : Attrs) :
  forall (attrs : Attrs) (key : string),
    NoDup (dict_keys record) ->
    dict_get (fold_left (fun a kv => dict_set a (fst kv) (snd kv)) record attrs) key
    = match dict_get record key with
      | Some v => Some v
      | None => dict_get attrs key
      end.
Proof.
  induction record as [| [k v] record IH]; intros attrs key Hnd; simpl; [reflexivity |].
  inversion Hnd as [| ? ? Hk Hrest]; subst.
  rewrite IH by exact Hrest.
  destruct (String.eqb_spec key k) as [-> | Hne].
  - assert (Hnone : dict_get record k = None) by (now apply dict_get_None_keys).
    rewrite Hnone. apply dict_get_set_same.
  - destruct (dict_get record key); [reflexivity |].
    now apply dict_get_set_other.
Qed.

Lemma node_attrs_set_attrs_same {N : Type} `{Hashable N} (record : Attrs) (n : N) :
  forall g : Graph N,
    In n (dict_keys (g_nodes g)) ->
    node_attrs (set_attrs g n record) n
    = fold_left (fun a kv => dict_set a (fst kv) (snd kv)) record (node_attrs g n).
Proof.
  unfold set_attrs. induction record as [| [k v] record IH]; intros g Hin; simpl;
    [reflexivity |].
  rewrite IH by (rewrite g_nodes_keys_set_attr; exact Hin).
  now rewrite node_attrs_set_attr_same.
Qed.

Lemma merge_attrs (blocksAttr : dict string Attrs) (nodes : list Z) :
  forall (st : Graph Z * list string) (m : Z),
    NoDup nodes ->
    In m (dict_keys (g_nodes (fst st))) ->
    (In m nodes ->
     node_attrs (fst (fold_left (merge_step blocksAttr) nodes st)) m
     = match dict_get blocksAttr (node_str m) with
       | Some record =>
           fold_left (fun a kv => dict_set a (fst kv) (snd kv)) record
                     (node_attrs (fst st) m)
       | None => node_attrs (fst st) m
       end)
    /\ (~ In m nodes ->
        node_attrs (fst (fold_left (merge_step blocksAttr) nodes st)) m
        = node_attrs (fst st) m).
Proof.
  induction nodes as [| n nodes IH]; intros st m Hnd Hm; cbn [fold_left];
    [split; [intros [] | reflexivity] |].
  inversion Hnd as [| ? ? Hn Hrest]; subst.
  assert (Hkeys : dict_keys (g_nodes (fst (merge_step blocksAttr st n)))
                  = dict_keys (g_nodes (fst st))).
  { unfold merge_step. destruct (dict_get blocksAttr (node_str n)); simpl; [| reflexivity].
    apply g_nodes_keys_set_attrs. }
  assert (Hm' : In m (dict_keys (g_nodes (fst (merge_step blocksAttr st n)))))
    by (rewrite Hkeys; exact Hm).
  destruct (IH (merge_step blocksAttr st n) m Hrest Hm') as [Hin Hout].
  assert (Hother : n <> m ->
                   node_attrs (fst (merge_step blocksAttr st n)) m = node_attrs (fst st) m).
  { intros Hne. unfold merge_step.
    destruct (dict_get blocksAttr (node_str n)); simpl; [| reflexivity].
    apply node_attrs_set_attrs_other. congruence. }
  split.
  - intros [-> | Hmem].
    + rewrite (Hout Hn). unfold merge_step.
      destruct (dict_get blocksAttr (node_str m)); simpl; [| reflexivity].
      now apply node_attrs_set_attrs_same.
    + assert (Hne : n <> m) by (intros ->; contradiction).
      rewrite (Hin Hmem), (Hother Hne). reflexivity.
  - intros Hnot.
    assert (Hne : n <> m) by (intros ->; apply Hnot; now left).
    rewrite Hout by (intros Hmem; apply Hnot; now right).
    exact (Hother Hne).
Qed.

Lemma merge_edges (blocksAttr : dict string Attrs) (nodes : list Z) :
  forall st : Graph Z * list string,
    g_edges (fst (fold_left (merge_step blocksAttr) nodes st)) = g_edges (fst st).
Proof.
  induction nodes as [| n nodes IH]; intros st; simpl; [reflexivity |].
  rewrite IH. unfold merge_step.
  destruct (dict_get blocksAttr (node_str n)); simpl; [| reflexivity].
  apply g_edges_set_attrs.
Qed.

(** [add_census_attributes] changes neither the nodes nor the edges.  A
    node with a census record takes every attribute of the record, keeps the
    attributes the record does not name and is not reported; a node without
    a record is left as it is and reported as missing; nothing but such
    nodes is reported. *)
Theorem census_attributes_are_merged :
  forall (blocksGraph : Graph Z) (blocksAttr : dict string Attrs),
    NoDup (dict_keys (g_nodes blocksGraph)) ->
    (forall s record, dict_get blocksAttr s = Some record -> NoDup (dict_keys record)) ->
    let result := add_census_attributes blocksGraph blocksAttr in
    g_edges (fst result) = g_edges blocksGraph
    /\ dict_keys (g_nodes (fst result)) = dict_keys (g_nodes blocksGraph)
    /\ (forall s, In s (snd result) ->
                  exists node, In node (dict_keys (g_nodes blocksGraph))
                               /\ s = node_str node /\ dict_get blocksAttr s = None)
    /\ forall node,
        In node (dict_keys (g_nodes blocksGraph)) ->
        match dict_get blocksAttr (node_str node) with
        | Some record =>
            ~ In (node_str node) (snd result)
            /\ forall key,
                dict_get (node_attrs (fst result) node) key
                = match dict_get record key with
                  | Some v => Some v
                  | None => dict_get (node_attrs blocksGraph node) key
                  end
        | None =>
            In (node_str node) (snd result)
            /\ node_attrs (fst result) node = node_attrs blocksGraph node
        end.
Proof.
  intros blocksGraph blocksAttr Hnd Hrecords result. unfold result.
  rewrite add_census_attributes_fold.
  destruct (merge_fold blocksAttr (dict_keys (g_nodes blocksGraph)) (blocksGraph, []))
    as [Hkeys Hmiss].
  cbv zeta in Hkeys, Hmiss. simpl in Hkeys, Hmiss.
  split; [apply merge_edges |]. split; [exact Hkeys |]. split.
  - intros s Hs. apply Hmiss in Hs as [[] | [node [Hin [-> Hnone]]]].
    exists node. auto.
  - intros node Hin.
    destruct (merge_attrs blocksAttr (dict_keys (g_nodes blocksGraph))
                          (blocksGraph, []) node Hnd Hin) as [Hattrs _].
    specialize (Hattrs Hin). cbn [fst snd] in Hattrs.
    destruct (dict_get blocksAttr (node_str node)) as [record |] eqn:Hrec.
    + split.
      * intros Hs. apply Hmiss in Hs as [[] | [node' [_ [Hstr Hnone]]]].
        simpl in Hstr, Hnone. rewrite <- Hstr in Hnone. simpl in Hrec. congruence.
      * intros key. rewrite Hattrs. apply fold_dict_set_get.
        exact (Hrecords _ _ Hrec).
    + split; [| exact Hattrs].
      apply Hmiss. right. exists node. auto.
Qed.

Lemma census_attributes_are_merged_witness :
  let result := add_census_attributes example_blocksGraph example_censusAttributes in
  g_edges (fst result) = g_edges example_blocksGraph
  /\ dict_keys (g_nodes (fst result)) = dict_keys (g_nodes example_blocksGraph)
  /\ (forall s, In s (snd result) ->
                exists node, In node (dict_keys (g_nodes example_blocksGraph))
                             /\ s = node_str node
                             /\ dict_get example_censusAttributes s = None)
  /\ forall node,
      In node (dict_keys (g_nodes example_blocksGraph)) ->
      match dict_get example_censusAttributes (node_str node) with
      | Some record =>
          ~ In (node_str node) (snd result)
          /\ forall key,
              dict_get (node_attrs (fst result) node) key
              = match dict_get record key with
                | Some v => Some v
                | None => dict_get (node_attrs example_blocksGraph node) key
                end
      | None =>
          In (node_str node) (snd result)
          /\ node_attrs (fst result) node = node_attrs example_blocksGraph node
      end.
Proof.
  apply (census_attributes_are_merged example_blocksGraph example_censusAttributes).
  - simpl. repeat constructor; simpl; intuition discriminate.
  - intros s record. simpl. destruct (String.eqb s "10"); [| discriminate].
    intros [= <-]. simpl. repeat constructor; simpl; intuition discriminate.
Defined.

Lemma fill_node_fixed {N : Type} `{PyNode N} (keys keys' : list string) (node : N)
      (attrs attrs' : Attrs) :
  node_val node <> PNone ->
  fill_node keys node attrs = Ok attrs' ->
  fill_node keys' node attrs' = Ok attrs'.
Proof.
  intros Hid Hfill.
  assert (Hsez : exists v, dict_get attrs' "SEZ2011"%string = Some v /\ v <> PNone).
  { destruct (fill_node_spec keys node attrs attrs' Hid Hfill) as [Hnull Hkept].
    destruct attrs as [| kv attrs].
    - destruct (Hnull eq_refl) as [_ [Hget _]]. eauto.
    - destruct Hkept as [_ [Hget _]]; [discriminate | exact Hget]. }
  destruct Hsez as [v [Hget Hv]].
  unfold fill_node, dict_index.
  destruct attrs' as [| kv' attrs']; [discriminate |].
  cbn [attrs_nonempty]. rewrite Hget. cbn [bind].
  destruct v; try reflexivity. contradiction.
Qed.

Lemma fill_nodes_fixed (keys keys' : list string) (nodes : dict Z Attrs) :
  forall nodes',
    fill_nodes keys nodes = Ok nodes' -> fill_nodes keys' nodes' = Ok nodes'.
Proof.
  induction nodes as [| [node attrs] nodes IH]; intros nodes'; cbn [fill_nodes].
  - intros Heq. apply Ok_inj in Heq. now subst.
  - destruct (fill_node keys node attrs) as [attrs' |] eqn:Hnode; cbn [bind]; [| discriminate].
    destruct (fill_nodes keys nodes) as [rest |]; cbn [bind]; [| discriminate].
    intros Heq. apply Ok_inj in Heq. subst nodes'. cbn [fill_nodes].
    rewrite (fill_node_fixed keys keys' node attrs attrs'); [| discriminate | exact Hnode].
    cbn [bind]. now rewrite (IH rest eq_refl).
Qed.

(** Filling is idempotent: a graph that [census_block_graph_fill_in_holes]
    has returned passes through it again unchanged. *)
Theorem filled_graph_is_a_fixed_point :
  forall blocksGraph filled : Graph Z,
    census_block_graph_fill_in_holes blocksGraph = Ok filled ->
    census_block_graph_fill_in_holes filled = Ok filled.
Proof.
  intros blocksGraph filled. unfold census_block_graph_fill_in_holes.
  destruct (fill_nodes (first_keys (g_nodes blocksGraph)) (g_nodes blocksGraph))
    as [nodes |] eqn:Hfill; cbn [bind]; [| discriminate].
  destruct (check_lengths nodes) as [L |] eqn:Hcheck; cbn [bind]; [| discriminate].
  intros Heq. apply Ok_inj in Heq. subst filled. cbn [g_nodes g_edges].
  rewrite (fill_nodes_fixed _ (first_keys nodes) _ _ Hfill). cbn [bind].
  now rewrite Hcheck.
Qed.

Lemma example_filled_run : census_block_graph_fill_in_holes example_merged = Ok example_filled.
Proof. vm_compute. reflexivity. Qed.

Lemma filled_graph_is_a_fixed_point_witness :
  census_block_graph_fill_in_holes example_filled = Ok example_filled.
Proof.
  exact (filled_graph_is_a_fixed_point example_merged example_filled example_filled_run).
Defined.

(** When no node has any attribute there is nothing to take the keys
    from: the filling of a graph that has nodes stops with a [KeyError] on
    ['SEZ2011'], and only the graph without nodes passes. *)
Theorem holes_need_one_record :
  forall blocksGraph : Graph Z,
    (forall node attrs, In (node, attrs) (g_nodes blocksGraph) -> attrs = []) ->
    census_block_graph_fill_in_holes blocksGraph
    = match g_nodes blocksGraph with
      | [] => Ok blocksGraph
      | _ :: _ => Raise KeyError
      end.
Proof.
  intros [nodes edges] Hempty. simpl in *. unfold census_block_graph_fill_in_holes. simpl.
  assert (Hkeys : first_keys nodes = []).
  { unfold first_keys.
    assert (Hfind : find (fun item : Z * Attrs => attrs_nonempty (snd item)) nodes = None).
    { induction nodes as [| [node attrs] rest IH]; simpl; [reflexivity |].
      rewrite (Hempty node attrs (or_introl eq_refl)). simpl.
      apply IH. intros n a Hin. apply (Hempty n a). now right. }
    now rewrite Hfind. }
  rewrite Hkeys. destruct nodes as [| [node attrs] rest]; [reflexivity |].
  rewrite (Hempty node attrs (or_introl eq_refl)). reflexivity.
Qed.

Lemma holes_need_one_record_witness :
  census_block_graph_fill_in_holes example_blocksGraph = Raise KeyError.
Proof.
  apply (holes_need_one_record example_blocksGraph).
  intros node attrs. simpl. intros [Heq | [Heq | []]]; now injection Heq as _ <-.
Defined.

(** ** The CSV builders *)

Lemma create_blocks_dataframe_rows (blocksGraph : Graph Z) :
  create_blocks_dataframe blocksGraph
  = (first_keys (g_nodes blocksGraph) ++ ["EdgeTuples"%string],
     map (node_row blocksGraph) (g_nodes blocksGraph)).
Proof.
  unfold create_blocks_dataframe.
  assert (Hgen : forall nodes keysList graphLists,
             fold_left
               (fun st item =>
                  let '(keysList, graphLists) := st in
                  let keysList := match keysList with
                                  | [] => dict_keys (snd item)
                                  | _ => keysList
                                  end in
                  (keysList, graphLists ++ [node_row blocksGraph item]))
               nodes (keysList, graphLists)
             = (match keysList with [] => first_keys nodes | _ => keysList end,
                graphLists ++ map (node_row blocksGraph) nodes)).
  { induction nodes as [| [node attrs] nodes IH]; intros keysList graphLists; simpl.
    - rewrite app_nil_r. now destruct keysList.
    - rewrite IH, <- app_assoc. simpl. f_equal.
      destruct keysList as [| k ks]; [| reflexivity].
      unfold first_keys. simpl. destruct attrs as [| [k v] attrs]; reflexivity. }
  rewrite Hgen. reflexivity.
Qed.

(** After the filling, the rows of [create_blocks_dataframe] fit its
    header: there is one row per node, in order, and every row has as many
    cells as there are column names. *)
Theorem filled_rows_fit_the_header :
  forall blocksGraph filled : Graph Z,
    census_block_graph_fill_in_holes blocksGraph = Ok filled ->
    let '(keysList, graphLists) := create_blocks_dataframe filled in
    graphLists = map (node_row filled) (g_nodes filled)
    /\ forall row, In row graphLists -> row_width row = List.length keysList.
Proof.
  intros blocksGraph filled Hfill. rewrite create_blocks_dataframe_rows.
  split; [reflexivity |]. intros row Hrow.
  apply in_map_iff in Hrow as [item [<- Hitem]].
  unfold census_block_graph_fill_in_holes in Hfill.
  destruct (fill_nodes (first_keys (g_nodes blocksGraph)) (g_nodes blocksGraph))
    as [nodes |]; cbn [bind] in Hfill; [| discriminate].
  destruct (check_lengths nodes) as [L |] eqn:Hcheck; cbn [bind] in Hfill; [| discriminate].
  apply Ok_inj in Hfill. subst filled. cbn [g_nodes] in *.
  pose proof (check_lengths_spec nodes L Hcheck) as Hsame.
  unfold row_width, node_row. cbn [cells]. rewrite length_app, length_map. simpl.
  rewrite Nat.add_1_r. f_equal.
  unfold first_keys.
  destruct (find (fun it : Z * Attrs => attrs_nonempty (snd it)) nodes)
    as [[node attrs] |] eqn:Hfind.
  - apply find_some in Hfind as [Hin _]. unfold dict_keys. rewrite length_map.
    exact (Hsame item (node, attrs) Hitem Hin).
  - pose proof (find_none _ _ Hfind item Hitem) as Hempty. simpl in Hempty.
    destruct (snd item); [reflexivity | discriminate].
Qed.

Lemma filled_rows_fit_the_header_witness :
  let '(keysList, graphLists) := create_blocks_dataframe example_filled in
  graphLists = map (node_row example_filled) (g_nodes example_filled)
  /\ forall row, In row graphLists -> row_width row = List.length keysList.
Proof.
  exact (filled_rows_fit_the_header example_merged example_filled example_filled_run).
Defined.

Lemma graph_to_csv_fold (graph : Graph Node) (countries : bool) (nodes : dict Node Attrs) :
  forall st : list string * list (Row Node),
    let result := fold_left (csv_visit graph countries) nodes st in
    snd result
    = snd st
        ++ map (node_row graph)
               (filter (fun item => negb (skipped countries (fst item))) nodes)
    /\ ((forall row, In row (snd st) -> (row_width row <= S (List.length (fst st)))%nat) ->
        forall row, In row (snd result) ->
                    (row_width row <= S (List.length (fst result)))%nat)
    /\ (List.length (fst st) <= List.length (fst result))%nat.
Proof.
  induction nodes as [| item nodes IH]; intros st; cbv zeta; cbn [fold_left filter].
  - cbn [map]. rewrite app_nil_r. auto.
  - destruct (skipped countries (fst item)) eqn:Hskip; cbn [negb].
    { assert (Hv : csv_visit graph countries st item = st)
        by (unfold csv_visit; now rewrite Hskip).
      rewrite Hv. apply IH. }
    set (keys' := if (List.length (fst st) <? List.length (dict_keys (snd item)))%nat
                  then dict_keys (snd item) else fst st).
    assert (Hv : csv_visit graph countries st item
                 = (keys', snd st ++ [node_row graph item]))
      by (unfold csv_visit; now rewrite Hskip).
    rewrite Hv.
    destruct (IH (keys', snd st ++ [node_row graph item])) as [Hrows [Hfit Hgrow]].
    cbn [fst snd] in Hrows, Hfit, Hgrow.
    assert (Hkeys : (List.length (fst st) <= List.length keys')%nat
                    /\ (List.length (dict_keys (snd item)) <= List.length keys')%nat).
    { unfold keys'.
      destruct (Nat.ltb_spec (List.length (fst st)) (List.length (dict_keys (snd item))));
        lia. }
    split; [| split].
    + rewrite Hrows, <- app_assoc. reflexivity.
    + intros Hold. apply Hfit. intros row Hrow. apply in_app_or in Hrow as [Hrow | Hrow].
      * specialize (Hold row Hrow). lia.
      * destruct Hrow as [<- | []]. unfold row_width, node_row. cbn [cells].
        rewrite length_map. unfold dict_keys in Hkeys. rewrite length_map in Hkeys. lia.
    + lia.
Qed.

(** The two passes of [graph_to_csv] split the nodes between them: the
    first has one row for each country node and the second one row for each
    other node, in the order of the graph, so that every node is written
    once.  In each pass no row has more cells than the header has names. *)
Theorem csv_passes_split_the_nodes :
  forall graph : Graph Node,
    let '((countryKeys, countryRows), (blockKeys, blockRows)) := graph_to_csv graph in
    countryRows
    = map (node_row graph) (filter (fun item => is_country (fst item)) (g_nodes graph))
    /\ blockRows
       = map (node_row graph)
             (filter (fun item => negb (is_country (fst item))) (g_nodes graph))
    /\ (forall row, In row countryRows -> (row_width row <= List.length countryKeys)%nat)
    /\ (forall row, In row blockRows -> (row_width row <= List.length blockKeys)%nat).
Proof.
  intros graph. unfold graph_to_csv, _graph_to_csv.
  pose proof (graph_to_csv_fold graph true (g_nodes graph) ([], [])) as Htrue.
  pose proof (graph_to_csv_fold graph false (g_nodes graph) ([], [])) as Hfalse.
  cbv zeta in Htrue, Hfalse.
  destruct (fold_left (csv_visit graph true) (g_nodes graph) ([], []))
    as [countryKeys countryRows].
  destruct (fold_left (csv_visit graph false) (g_nodes graph) ([], []))
    as [blockKeys blockRows].
  destruct Htrue as [Hrows1 [Hfit1 _]]. destruct Hfalse as [Hrows2 [Hfit2 _]].
  cbn [fst snd] in *.
  assert (Hf1 : forall nodes : dict Node Attrs,
             filter (fun item => negb (skipped true (fst item))) nodes
             = filter (fun item => is_country (fst item)) nodes).
  { intros nodes. apply filter_ext. intros item. unfold skipped, is_country.
    now destruct (startswith (node_str (fst item)) "c"). }
  assert (Hf2 : forall nodes : dict Node Attrs,
             filter (fun item => negb (skipped false (fst item))) nodes
             = filter (fun item => negb (is_country (fst item))) nodes).
  { intros nodes. apply filter_ext. intros item. unfold skipped, is_country.
    now destruct (startswith (node_str (fst item)) "c"). }
  rewrite Hf1 in Hrows1. rewrite Hf2 in Hrows2. simpl in Hrows1, Hrows2.
  split; [exact Hrows1 |]. split; [exact Hrows2 |]. split.
  - intros row Hrow. rewrite length_app. simpl. rewrite Nat.add_1_r.
    apply Hfit1; [intros r [] | exact Hrow].
  - intros row Hrow. rewrite length_app. simpl. rewrite Nat.add_1_r.
    apply Hfit2; [intros r [] | exact Hrow].
Qed.

(** ** From the daily files to the aggregate graph *)

Section PairSums.
Context {N : Type} `{Hashable N}.

Lemma pair_total_app (u v : N) (l1 l2 : list (N * N * Q)) :
  (pair_total u v (l1 ++ l2) == pair_total u v l1 + pair_total u v l2)%Q.
Proof.
  induction l1 as [| c l1 IH]; simpl; [ring |].
  destruct (joins u v c); rewrite IH; ring.
Qed.

Lemma pair_visited_app (u v : N) (l1 l2 : list (N * N * Q)) :
  pair_visited u v (l1 ++ l2) = pair_visited u v l1 || pair_visited u v l2.
Proof. unfold pair_visited. apply existsb_app. Qed.
End PairSums.

Section KeptEntries.
Variable nodes : list Z.
Variables u v : Z.
Hypothesis Hu : set_mem nodes u = true.
Hypothesis Hv : set_mem nodes v = true.

Lemma joins_kept (a b : Z) (q : Q) :
  joins u v (a, b, q) = true -> set_mem nodes a = true /\ set_mem nodes b = true.
Proof.
  intros Hj. apply joins_same_pair in Hj as [[<- <-] | [<- <-]]; auto.
Qed.

Lemma kept_inner (a : Z) (inner : dict Z Q) :
  set_mem nodes a = true ->
  pair_total u v (flat_map (fun entry : Z * Q =>
                              if set_mem nodes (fst entry)
                              then [(a, fst entry, snd entry)] else []) inner)
  = pair_total u v (map (fun entry : Z * Q => (a, fst entry, snd entry)) inner)
  /\ pair_visited u v (flat_map (fun entry : Z * Q =>
                                   if set_mem nodes (fst entry)
                                   then [(a, fst entry, snd entry)] else []) inner)
     = pair_visited u v (map (fun entry : Z * Q => (a, fst entry, snd entry)) inner).
Proof.
  intros Ha. unfold pair_visited.
  induction inner as [| [b q] inner [IHt IHv]]; simpl; [auto |].
  destruct (set_mem nodes b) eqn:Hb; simpl.
  - rewrite IHt, IHv. auto.
  - destruct (joins u v (a, b, q)) eqn:Hj; simpl; [| auto].
    apply joins_kept in Hj as [_ Hj]. congruence.
Qed.

Lemma kept_entries_pair (dictionary : dict Z (dict Z Q)) :
  (pair_total u v (kept_entries nodes dictionary)
   == pair_total u v (all_entries dictionary))%Q
  /\ pair_visited u v (kept_entries nodes dictionary)
     = pair_visited u v (all_entries dictionary).
Proof.
  unfold kept_entries, all_entries.
  induction dictionary as [| [a inner] dictionary [IHt IHv]]; simpl;
    [split; reflexivity |].
  rewrite !pair_total_app, !pair_visited_app, IHt, IHv.
  destruct (set_mem nodes a) eqn:Ha.
  - destruct (kept_inner a inner Ha) as [-> ->]. split; reflexivity.
  - assert (Hno : forall c, In c (map (fun entry : Z * Q => (a, fst entry, snd entry)) inner)
                            -> joins u v c = false).
    { intros c Hc. apply in_map_iff in Hc as [[b q] [<- _]]. simpl.
      destruct (joins u v (a, b, q)) eqn:Hj; [| reflexivity].
      apply joins_kept in Hj as [Hj _]. congruence. }
    destruct (pair_untouched u v _ Hno) as [-> ->]. split; reflexivity.
Qed.
End KeptEntries.

Lemma inner_entries_set (k : Z) (inner : dict Z Q) (M : Z) (x : Q) (a b : Z) :
  let old := match dict_get inner M with Some q => q | None => 0%Q end in
  let mk := fun entry : Z * Q => (k, fst entry, snd entry) in
  (pair_total a b (map mk (dict_set inner M (old + x)%Q))
   == pair_total a b (map mk inner) + (if joins a b (k, M, x) then x else 0))%Q
  /\ pair_visited a b (map mk (dict_set inner M (old + x)%Q))
     = pair_visited a b (map mk inner) || joins a b (k, M, x).
Proof.
  cbv zeta. unfold pair_visited.
  induction inner as [| [M' q'] inner [IHt IHv]]; simpl.
  - rewrite (joins_ends a b (k, M, (0 + x)%Q) (k, M, x) eq_refl).
    destruct (joins a b (k, M, x)); split; try reflexivity; ring.
  - destruct (Z.eqb_spec M M') as [<- | Hne]; simpl.
    + rewrite (joins_ends a b (k, M, (q' + x)%Q) (k, M, x) eq_refl).
      rewrite (joins_ends a b (k, M, q') (k, M, x) eq_refl).
      destruct (joins a b (k, M, x)); simpl; split; try reflexivity; try ring.
      now rewrite ?orb_true_r, ?orb_false_r.
    + rewrite IHv. destruct (joins a b (k, M', q')); simpl; split; try reflexivity;
        rewrite IHt; ring.
Qed.

Lemma all_entries_dd_add (graph : dict Z (dict Z Q)) (m M : Z) (x : Q) (a b : Z) :
  (pair_total a b (all_entries (dd_add graph m M x))
   == pair_total a b (all_entries graph) + (if joins a b (m, M, x) then x else 0))%Q
  /\ pair_visited a b (all_entries (dd_add graph m M x))
     = pair_visited a b (all_entries graph) || joins a b (m, M, x).
Proof.
  unfold dd_add, all_entries.
  induction graph as [| [k d] graph [IHt IHv]]; simpl.
  - rewrite (joins_ends a b (m, M, (0 + x)%Q) (m, M, x) eq_refl), orb_false_r.
    destruct (joins a b (m, M, x)); split; try reflexivity; ring.
  - destruct (Z.eqb_spec m k) as [<- | Hne]; simpl.
    + rewrite !pair_total_app, !pair_visited_app.
      destruct (inner_entries_set m d M x a b) as [Ht Hv]. cbv zeta in Ht, Hv.
      rewrite Ht, Hv. split; [ring |].
      destruct (pair_visited a b (map (fun entry : Z * Q => (m, fst entry, snd entry)) d));
        destruct (joins a b (m, M, x)); simpl;
        rewrite ?orb_true_r, ?orb_false_r; reflexivity.
    + rewrite !pair_total_app, !pair_visited_app, IHt, IHv.
      split; [ring | now rewrite orb_assoc].
Qed.

Lemma joins_oriented (a b x y : Z) (q : Q) :
  joins a b (Z.min x y, Z.max x y, q) = joins a b (x, y, q).
Proof.
  destruct (Z.le_ge_cases x y) as [Hle | Hge].
  - now rewrite Z.min_l, Z.max_r by lia.
  - rewrite Z.min_r, Z.max_l by lia.
    unfold joins. cbn [key_eqb Z_Hashable].
    destruct (a =? x), (b =? y), (a =? y), (b =? x); reflexivity.
Qed.

Section DailyFiles.
Variable py_int : string -> option Z.
Variable py_float : string -> option Q.

Lemma relation_lines_entries (lines : list string) :
  forall graph0 graph : dict Z (dict Z Q),
    relation_lines py_int py_float lines graph0 = inr graph ->
    forall a b,
      (pair_total a b (all_entries graph)
       == pair_total a b (all_entries graph0)
          + pair_total a b (file_entries py_int py_float lines))%Q
      /\ pair_visited a b (all_entries graph)
         = pair_visited a b (all_entries graph0)
           || pair_visited a b (file_entries py_int py_float lines).
Proof.
  induction lines as [| line lines IH]; intros graph0 graph Hrun a b; simpl in Hrun.
  - injection Hrun as <-. simpl. split; [ring | now rewrite orb_false_r].
  - pose proof (relation_line_fields py_int py_float graph0 line) as Hline.
    unfold file_entries. cbn [flat_map]. fold (file_entries py_int py_float lines).
    destruct (line_fields py_int py_float line) as [[[x y] q] |];
      [| destruct Hline as [e He]; rewrite He in Hrun; discriminate].
    rewrite Hline in Hrun. destruct (IH _ _ Hrun a b) as [Ht Hv].
    destruct (all_entries_dd_add graph0 (Z.min x y) (Z.max x y) q a b) as [Ht1 Hv1].
    rewrite joins_oriented in Ht1, Hv1.
    rewrite Ht, Hv, Ht1, Hv1. unfold pair_visited. simpl.
    destruct (joins a b (x, y, q)); split; try ring; now rewrite orb_assoc.
Qed.

Lemma daily_entries (nodes : list Z) (u v : Z) (days : list (list string))
      (extracts : list (dict Z (dict Z Q))) :
  set_mem nodes u = true -> set_mem nodes v = true ->
  Forall2 (fun lines dictionary => relation_graph py_int py_float lines = inr dictionary)
          days extracts ->
  (pair_total u v (flat_map (kept_entries nodes) extracts)
   == pair_total u v (flat_map (file_entries py_int py_float) days))%Q
  /\ pair_visited u v (flat_map (kept_entries nodes) extracts)
     = pair_visited u v (flat_map (file_entries py_int py_float) days).
Proof.
  intros Hu Hv Hall.
  induction Hall as [| lines dictionary days extracts Hrun Hrest [IHt IHv]]; simpl;
    [split; reflexivity |].
  rewrite !pair_total_app, !pair_visited_app, IHt, IHv.
  destruct (kept_entries_pair nodes u v Hu Hv dictionary) as [Ht Hvis].
  destruct (relation_lines_entries lines [] dictionary Hrun u v) as [Ht1 Hv1].
  simpl in Ht1, Hv1.
  rewrite Ht, Hvis, Ht1, Hv1. split; [ring | reflexivity].
Qed.
End DailyFiles.

(** The two stages together: when every daily file is turned into its
    dictionary and the dictionaries are aggregated, the weight between two
    kept cells is the sum of the strengths of all the lines of all the files
    between the two cells, in either direction; two kept cells that no line
    joins have no edge. *)
Theorem aggregate_weight_is_sum_of_lines :
  forall (py_int : string -> option Z) (py_float : string -> option Q)
         (E : Type) (grid : dict Z (list E))
         (days : list (list string)) (extracts : list (dict Z (dict Z Q)))
         (u v : Z),
    Forall2 (fun lines dictionary => relation_graph py_int py_float lines = inr dictionary)
            days extracts ->
    set_mem (milanNodes grid) u = true ->
    set_mem (milanNodes grid) v = true ->
    let entries := flat_map (file_entries py_int py_float) days in
    if pair_visited u v entries
    then exists w, edge_weight (aggregate_dates grid extracts) u v = Some w
                   /\ (w == pair_total u v entries)%Q
    else edge_weight (aggregate_dates grid extracts) u v = None.
Proof.
  intros py_int py_float E grid days extracts u v Hdays Hu Hv entries.
  destruct (daily_entries py_int py_float (milanNodes grid) u v days extracts Hu Hv Hdays)
    as [Ht Hvis].
  fold entries in Ht, Hvis.
  rewrite edge_weight_weight_in, aggregate_edges.
  pose proof (weight_in_contributions u v (flat_map (kept_entries (milanNodes grid)) extracts))
    as Hsum.
  rewrite Hvis in Hsum. destruct (pair_visited u v entries); [| exact Hsum].
  destruct Hsum as [w [Hw Heq]]. exists w. split; [exact Hw | now rewrite Heq].
Qed.

Lemma aggregate_weight_is_sum_of_lines_witness :
  exists w,
    edge_weight (aggregate_dates example_grid [example_relation]) 3 5 = Some w
    /\ (w == pair_total 3%Z 5%Z
               (flat_map (file_entries int_of_decimal float_of_decimal) [example_file]))%Q.
Proof.
  apply (aggregate_weight_is_sum_of_lines
           int_of_decimal float_of_decimal (MilanSection CensusCodes) example_grid
           [example_file] [example_relation] 3 5).
  - constructor; [exact example_relation_run | constructor].
  - reflexivity.
  - reflexivity.
Defined.

(** ** The grouping of [collect_json] *)

Lemma Qeq_bool_congr (x y z : Q) :
  Qeq_bool x y = true -> Qeq_bool x z = Qeq_bool y z.
Proof.
  intros Hxy. apply Qeq_bool_iff in Hxy.
  destruct (Qeq_bool y z) eqn:Hyz.
  - apply Qeq_bool_iff. apply Qeq_bool_iff in Hyz. now rewrite Hxy.
  - destruct (Qeq_bool x z) eqn:Hxz; [| reflexivity].
    apply Qeq_bool_iff in Hxz.
    assert (Hc : Qeq_bool y z = true) by (apply Qeq_bool_iff; now rewrite <- Hxy).
    congruence.
Qed.

Lemma py_eq_congr (a b c : PyVal) : py_eq a b = true -> py_eq a c = py_eq b c.
Proof.
  unfold py_eq.
  destruct (py_num a) as [x |] eqn:Ha; destruct (py_num b) as [y |] eqn:Hb.
  - intros Hxy. destruct (py_num c) as [z |]; [now apply Qeq_bool_congr |].
    destruct a, b; try discriminate; destruct c; reflexivity.
  - destruct a, b; simpl in *; discriminate.
  - destruct a, b; simpl in *; discriminate.
  - destruct a, b; simpl in *; try discriminate; intros Hab.
    + reflexivity.
    + apply String.eqb_eq in Hab. now subst.
Qed.

Lemma py_eq_refl (a : PyVal) : py_eq a a = true.
Proof.
  unfold py_eq. destruct a; simpl; try reflexivity.
  - now destruct b.
  - apply Qeq_bool_iff. reflexivity.
  - apply Qeq_bool_iff. reflexivity.
  - apply String.eqb_refl.
Qed.

Lemma py_eq_sym (a b : PyVal) : py_eq a b = py_eq b a.
Proof.
  destruct (py_eq a b) eqn:Hab.
  - rewrite <- (py_eq_congr a b a Hab). symmetry. apply py_eq_refl.
  - destruct (py_eq b a) eqn:Hba; [| reflexivity].
    rewrite <- (py_eq_congr b a b Hba), py_eq_refl in Hab. discriminate.
Qed.

Lemma pyd_get_congr {V : Type} (d : pydict V) (k k' : PyVal) :
  py_eq k k' = true -> pyd_get d k = pyd_get d k'.
Proof.
  intros Hk. induction d as [| [j v] d IH]; simpl; [reflexivity |].
  now rewrite (py_eq_congr k k' j Hk), IH.
Qed.

Lemma pyd_get_set {V : Type} (d : pydict V) (k k' : PyVal) (v : V) :
  pyd_get (pyd_set d k v) k' = if py_eq k' k then Some v else pyd_get d k'.
Proof.
  induction d as [| [j w] d IH]; simpl; [reflexivity |].
  destruct (py_eq k j) eqn:Hkj; simpl.
  - rewrite (py_eq_sym k' j), <- (py_eq_congr k j k' Hkj), (py_eq_sym k k').
    now destruct (py_eq k' k).
  - rewrite IH. destruct (py_eq k' j) eqn:Hj; [| reflexivity].
    destruct (py_eq k' k) eqn:Hk; [| reflexivity].
    rewrite (py_eq_sym k j), <- (py_eq_congr k' j k Hj), Hk in Hkj. discriminate.
Qed.

Section CollectJsonFacts.
Variable py_int : string -> option Z.
Variable py_float : string -> option Q.

Lemma collect_line_record (graph graph' : pydict (pydict ConnectDict)) (line : string) :
  collect_line py_int py_float graph line = Ok graph' ->
  let tokens := converted py_int py_float 0 (split_on tab line) in
  let cell := nth 0 tokens PNone in
  let code := nth 2 tokens PNone in
  exists record,
    accumulate (match connection_record graph cell code with
                | Some old => old
                | None => new_connect
                end) tokens = Ok record
    /\ forall k0 k2,
        connection_record graph' k0 k2
        = if py_eq k0 cell && py_eq k2 code then Some record
          else connection_record graph k0 k2.
Proof.
  unfold collect_line. rewrite validate_rejects_only_the_length_eq.
  destruct (Nat.eqb (List.length (split_on tab line)) 8); cbn [bind]; [| discriminate].
  set (tokens := converted py_int py_float 0 (split_on tab line)).
  set (cell := nth 0 tokens PNone). set (code := nth 2 tokens PNone).
  set (graph1 := match pyd_get graph cell with
                 | Some _ => graph
                 | None => pyd_set graph cell []
                 end).
  assert (Hlocal : pyd_get graph1 cell
                   = Some (match pyd_get graph cell with Some l => l | None => [] end)).
  { unfold graph1. destruct (pyd_get graph cell) eqn:E; [exact E |].
    now rewrite pyd_get_set, py_eq_refl. }
  unfold pyd_index at 1. rewrite Hlocal. cbn [bind].
  set (local := match pyd_get graph cell with Some l => l | None => [] end) in *.
  set (local1 := match pyd_get local code with
                 | Some _ => local
                 | None => pyd_set local code new_connect
                 end).
  assert (Hrecord : pyd_get local1 code
                    = Some (match pyd_get local code with
                            | Some r => r
                            | None => new_connect
                            end)).
  { unfold local1. destruct (pyd_get local code) eqn:E; [exact E |].
    now rewrite pyd_get_set, py_eq_refl. }
  unfold pyd_index. rewrite Hrecord. cbn [bind].
  assert (Hold : match pyd_get local code with Some r => r | None => new_connect end
                 = match connection_record graph cell code with
                   | Some old => old
                   | None => new_connect
                   end).
  { unfold connection_record, local. now destruct (pyd_get graph cell). }
  rewrite Hold.
  destruct (accumulate _ tokens) as [record |]; cbn [bind]; [| discriminate].
  intros Heq. apply Ok_inj in Heq. subst graph'.
  exists record. split; [reflexivity |]. intros k0 k2.
  unfold connection_record. rewrite pyd_get_set.
  destruct (py_eq k0 cell) eqn:H0; cbn [andb].
  - rewrite pyd_get_set. destruct (py_eq k2 code) eqn:H2; [reflexivity |].
    rewrite (pyd_get_congr graph k0 cell H0). fold local.
    unfold local1. destruct (pyd_get local code) eqn:E.
    + unfold local. now destruct (pyd_get graph cell).
    + rewrite pyd_get_set, H2. unfold local. now destruct (pyd_get graph cell).
  - unfold graph1. destruct (pyd_get graph cell); [reflexivity |].
    now rewrite pyd_get_set, H0.
Qed.

Lemma collect_lines_records (lines : list string) :
  forall (graph0 graph : pydict (pydict ConnectDict)) (cell code : PyVal),
    for_each lines (collect_line py_int py_float) graph0 = Ok graph ->
    let mine := connection_lines py_int py_float cell code lines in
    match connection_record graph0 cell code with
    | Some old =>
        exists record, connection_record graph cell code = Some record
                       /\ for_each mine accumulate old = Ok record
    | None =>
        match mine with
        | [] => connection_record graph cell code = None
        | _ :: _ =>
            exists record, connection_record graph cell code = Some record
                           /\ for_each mine accumulate new_connect = Ok record
        end
    end.
Proof.
  induction lines as [| line lines IH]; intros graph0 graph cell code Hrun; simpl in Hrun.
  - apply Ok_inj in Hrun. subst graph. cbv zeta. simpl.
    destruct (connection_record graph0 cell code) as [old |]; [| reflexivity].
    exists old. auto.
  - destruct (collect_line py_int py_float graph0 line) as [graph1 |] eqn:Hline;
      cbn [bind] in Hrun; [| discriminate].
    destruct (collect_line_record graph0 graph1 line Hline) as [record [Hacc Hlook]].
    cbv zeta in Hacc, Hlook.
    specialize (IH graph1 graph cell code Hrun). cbv zeta in IH. cbv zeta.
    unfold connection_lines in *. cbn [map filter].
    set (tokens := converted py_int py_float 0 (split_on tab line)) in *.
    rewrite (Hlook cell code) in IH.
    destruct (py_eq cell (nth 0 tokens PNone) && py_eq code (nth 2 tokens PNone)) eqn:Hmine.
    + apply andb_true_iff in Hmine as [H0 H2].
      assert (Hsame : connection_record graph0 (nth 0 tokens PNone) (nth 2 tokens PNone)
                      = connection_record graph0 cell code).
      { unfold connection_record. rewrite <- (pyd_get_congr graph0 cell _ H0).
        destruct (pyd_get graph0 cell); [| reflexivity].
        symmetry. now apply pyd_get_congr. }
      rewrite Hsame in Hacc.
      destruct IH as [final [Hfinal Hrest]].
      destruct (connection_record graph0 cell code) as [old |];
        exists final; (split; [exact Hfinal |]); cbn [for_each]; rewrite Hacc; exact Hrest.
    + exact IH.
Qed.
End CollectJsonFacts.

(** The record [collect_json] keeps for a cell and a country code is the
    accumulation, from the zero record, of exactly the lines whose cell id
    and country code compare equal to them, in the order of the file; a cell
    and a code that no line carries have no record. *)
Theorem records_collect_their_own_lines :
  forall (py_int : string -> option Z) (py_float : string -> option Q)
         (lines : list string) (graph : pydict (pydict ConnectDict))
         (cell code : PyVal),
    collect_json py_int py_float lines = Ok graph ->
    match connection_lines py_int py_float cell code lines with
    | [] => connection_record graph cell code = None
    | mine =>
        exists record, connection_record graph cell code = Some record
                       /\ collect mine = Ok record
    end.
Proof.
  intros py_int py_float lines graph cell code Hrun.
  pose proof (collect_lines_records py_int py_float lines [] graph cell code Hrun) as Hrec.
  cbv zeta in Hrec. simpl in Hrec.
  destruct (connection_lines py_int py_float cell code lines); exact Hrec.
Qed.

Lemma example_collected_run :
  collect_json int_of_decimal float_of_decimal example_country_file = Ok example_collected.
Proof. vm_compute. reflexivity. Qed.

Lemma records_collect_their_own_lines_witness :
  exists record,
    connection_record example_collected (PInt 1) (PInt 39) = Some record
    /\ collect (connection_lines int_of_decimal float_of_decimal (PInt 1) (PInt 39)
                                 example_country_file) = Ok record.
Proof.
  exact (records_collect_their_own_lines int_of_decimal float_of_decimal
           example_country_file example_collected (PInt 1) (PInt 39)
           example_collected_run).
Defined.
